(** * keyboard: the interception engine and the hotkey automaton

    A shallow embedding of [keyboard/__init__.py] (the listener, the hook
    variants, the hotkey transition table and matcher, hotkey parsing) and of
    [keyboard/_keyboard_event.py] (events and their wire record).

    Conventions of the embedding:
    - Python [int] is [Z]; scan codes and hotkey states are [Z].
    - Timestamps are [Z] (integral ticks); Python evaluates the comparisons
      used here exactly on such values.
    - Python [str] is [string], the bytes of its UTF-8 encoding; [set] of
      scan codes is [gset Z]; a [dict] is a [gmap] (a dict keyed by events is
      keyed by the fields [__eq__] compares).
    - Lists and tuples are told apart ([VList], [VTuple]): the code iterates
      over both alike, but only a tuple can be hashed.
    - A raised exception is the left injection of [Res]; an object mutated in
      place is passed and returned explicitly.
    - User callbacks are pure: a callback is the value it returns.
    - [register] checks that the ids of a hook can be hashed, as the
      dictionary of ids does; the dictionary itself, which only the removal
      of hooks reads, and the worker that drains the async queue are left
      out. *)

From stdpp Require Import base option list gmap sets strings sorting.
From Stdlib Require Import ZArith Lia Ascii.

Local Open Scope Z_scope.

(** ** Python values and exceptions *)

Inductive Exn : Type :=
| ValueError
| KeyError
| IndexError
| TypeError
| NameError
| AttributeError
| AssertionError
| RecursionError.

Abbreviation Res A := (Exn + A)%type (only parsing).

Definition raise {A : Type} (e : Exn) : Res A := inl e.

#[global] Instance Res_ret : MRet (sum Exn) := fun A a => inr a.

#[global] Instance Res_bind : MBind (sum Exn) := fun A B f m =>
  match m with
  | inl e => inl e
  | inr a => f a
  end.

#[global] Instance Res_fmap : FMap (sum Exn) := fun A B f m =>
  match m with
  | inl e => inl e
  | inr a => inr (f a)
  end.

(** [l[i]] on a tuple or list, negative indices counting from the end. *)
Definition py_index {A : Type} (l : list A) (i : Z) : Res A :=
  let j := if i <? 0 then Z.of_nat (length l) + i else i in
  if j <? 0 then raise IndexError
  else match l !! Z.to_nat j with
       | Some x => inr x
       | None => raise IndexError
       end.

(** [l[:n]]. *)
Definition py_take {A : Type} (n : Z) (l : list A) : list A :=
  if n <? 0 then take (Z.to_nat (Z.of_nat (length l) + n)) l
  else take (Z.to_nat n) l.

(** [sorted] on integers. *)
Definition sorted (l : list Z) : list Z := merge_sort Z.le l.

(** [max] over a sequence of integers; [ValueError] on the empty one. *)
Definition py_max (l : list Z) : Res Z :=
  match l with
  | [] => raise ValueError
  | x :: rest => inr (foldl Z.max x rest)
  end.

(** [list.remove(x)]: drops the first item equal to [x], where items are
    compared through [key]; [ValueError] when there is none. *)
Fixpoint list_remove {A K : Type} `{EqDecision K} (key : A -> K) (x : A)
    (l : list A) : Res (list A) :=
  match l with
  | [] => raise ValueError
  | y :: rest =>
      if decide (key y = key x) then inr rest
      else match list_remove key x rest with
           | inl e => inl e
           | inr rest' => inr (y :: rest')
           end
  end.

(** ** The platform: what the OS-specific module and the tables provide *)

Class Platform : Type := {
  (** [_modifier_scan_codes], the module-level set of modifier scan codes. *)
  _modifier_scan_codes : gset Z;
  (** [_os_keyboard.map_name]: the (scan code, modifiers) entries of a name,
      [None] when it raises [KeyError] or [ValueError]. *)
  map_name : string -> option (list (Z * list string));
  (** The [canonical_names] table of [_canonical_names.py]. *)
  canonical_names : string -> option string;
  (** Whether [_os_keyboard.press]/[release] deliver the injected event back
      to [process_sync_event] before they return. *)
  driver_echo : bool;
}.

(** ** Key names ([_canonical_names.py]) *)

(** [str.lower] and [str.replace("_", " ")] on ASCII strings. *)
Definition lower_ascii (c : Ascii.ascii) : Ascii.ascii :=
  let n := Ascii.nat_of_ascii c in
  if bool_decide (65 <= n <= 90)%nat then Ascii.ascii_of_nat (n + 32) else c.

Fixpoint lower (s : string) : string :=
  match s with
  | EmptyString => EmptyString
  | String c rest => String (lower_ascii c) (lower rest)
  end.

(** ["_" in s]. *)
Fixpoint has_underscore (s : string) : bool :=
  match s with
  | EmptyString => false
  | String c rest => Ascii.eqb c "_" || has_underscore rest
  end.

Fixpoint underscores_to_spaces (s : string) : string :=
  match s with
  | EmptyString => EmptyString
  | String c rest =>
      String (if Ascii.eqb c "_" then " "%char else c) (underscores_to_spaces rest)
  end.

Definition sided_modifiers : list string := ["ctrl"; "alt"; "shift"; "windows"].

(** [normalize_name] on a string; the empty one is refused. *)
Definition normalize_name `{Platform} (name : string) : Res string :=
  if bool_decide (name = EmptyString) then raise ValueError
  else
    let name1 :=
      if bool_decide (1 < String.length name)%nat then lower name else name in
    let name2 :=
      if negb (String.eqb name1 "_") && has_underscore name1
      then underscores_to_spaces name1
      else name1 in
    inr (default name2 (canonical_names name2)).

(** ** Events ([_keyboard_event.py]) *)

Inductive EventType : Type := KEY_DOWN | KEY_UP.

#[global] Instance EventType_eq_dec : EqDecision EventType.
Proof. solve_decision. Defined.

#[global] Instance EventType_countable : Countable EventType.
Proof.
  refine (inj_countable' (fun t => match t with KEY_DOWN => true | KEY_UP => false end)
                         (fun b => if b then KEY_DOWN else KEY_UP) _).
  intros []; reflexivity.
Defined.

Module KeyboardEvent.

Record t : Type := mk {
  event_type : EventType;
  scan_code : Z;
  name : option string;
  time : Z;
  device : option string;
  modifiers : list string;
  is_numpad : option bool;
  char : string;
}.

(** [__eq__]: the five fields it compares, in its order. *)
Definition __eq__ (self other : t) : bool :=
  bool_decide (event_type self = event_type other)
  && bool_decide (time self = time other)
  && bool_decide (device self = device other)
  && bool_decide (scan_code self = scan_code other)
  && bool_decide (name self = name other).

(** [__lt__]. *)
Definition __lt__ (self other : t) : bool := time self <? time other.

(** The identity of an event as a dict key or list item: the fields of
    [__eq__] (those of [__hash__] are among them). *)
Definition key (e : t) : EventType * Z * option string * Z * option string :=
  (event_type e, time e, device e, scan_code e, name e).

(** A JSON value, and the wire record of an event: the [attrs] dict that
    [to_json] hands to [json.dumps], in its order. *)
#[local] Unset Elimination Schemes.
Inductive Json : Type :=
| JNull
| JBool (b : bool)
| JNum (z : Z)
| JStr (s : string)
| JList (l : list Json).
#[local] Set Elimination Schemes.

(** [KeyboardEvent.__init__]; [now] is the clock, read when no time is
    given. *)
Definition __init__ `{Platform} (now : Z) (event_type : EventType)
    (scan_code : Z) (name : option string) (time : option Z)
    (device : option string) (modifiers : option (list string))
    (is_numpad : option bool) (char : string) : Res t :=
  name' ← match name with
          | None | Some EmptyString => inr None
          | Some s => Some <$> normalize_name s
          end;
  inr (mk event_type scan_code name' (default now time) device
          (default [] modifiers) is_numpad char).

Definition json_of_option {A : Type} (f : A -> Json) (x : option A) : Json :=
  match x with
  | None => JNull
  | Some a => f a
  end.

(** [to_json], up to [json.dumps]. *)
Definition to_json (self : t) : list (string * Json) :=
  [ ("event_type", JStr match event_type self with
                        | KEY_DOWN => "down"
                        | KEY_UP => "up"
                        end);
    ("scan_code", JNum (scan_code self));
    ("name", json_of_option JStr (name self));
    ("time", JNum (time self));
    ("device", json_of_option JStr (device self));
    ("is_numpad", json_of_option JBool (is_numpad self));
    ("modifiers", JList (JStr <$> modifiers self));
    ("char", JStr (char self)) ].

(** [record[field]] on a parsed record. *)
Fixpoint field (record : list (string * Json)) (k : string) : option Json :=
  match record with
  | [] => None
  | (k', v) :: rest => if String.eqb k' k then Some v else field rest k
  end.

(** The parameters of [__init__]. *)
Definition parameters : list string :=
  ["event_type"; "scan_code"; "name"; "time"; "device"; "modifiers";
   "is_numpad"; "char"].

Fixpoint strings_of (l : list Json) : option (list string) :=
  match l with
  | [] => Some []
  | JStr s :: rest => cons s <$> strings_of rest
  | _ :: _ => None
  end.

(** [KeyboardEvent] called with the record as keyword arguments: a key that
    is no parameter, or a missing
    [event_type] or [scan_code], is a [TypeError]; so is a value outside the
    types of the model. *)
Definition of_json `{Platform} (now : Z) (record : list (string * Json)) : Res t :=
  if negb (forallb (fun kv => bool_decide (fst kv ∈ parameters)) record)
  then raise TypeError
  else
    event_type ← match field record "event_type" with
                 | Some (JStr "down") => inr KEY_DOWN
                 | Some (JStr "up") => inr KEY_UP
                 | _ => raise TypeError
                 end;
    scan_code ← match field record "scan_code" with
                | Some (JNum z) => inr z
                | _ => raise TypeError
                end;
    name ← match field record "name" with
           | None | Some JNull => inr None
           | Some (JStr s) => inr (Some s)
           | _ => raise TypeError
           end;
    time ← match field record "time" with
           | None | Some JNull => inr None
           | Some (JNum z) => inr (Some z)
           | _ => raise TypeError
           end;
    device ← match field record "device" with
             | None | Some JNull => inr None
             | Some (JStr s) => inr (Some s)
             | _ => raise TypeError
             end;
    modifiers ← match field record "modifiers" with
                | None | Some JNull => inr None
                | Some (JList l) =>
                    match strings_of l with
                    | Some ms => inr (Some ms)
                    | None => raise TypeError
                    end
                | _ => raise TypeError
                end;
    is_numpad ← match field record "is_numpad" with
                | None | Some JNull => inr None
                | Some (JBool b) => inr (Some b)
                | _ => raise TypeError
                end;
    char ← match field record "char" with
           | None => inr EmptyString
           | Some (JStr s) => inr s
           | _ => raise TypeError
           end;
    __init__ now event_type scan_code name time device modifiers is_numpad char.

End KeyboardEvent.

Abbreviation Event := KeyboardEvent.t (only parsing).
Abbreviation EventKey :=
  (EventType * Z * option string * Z * option string)%type (only parsing).

(** ** Decisions *)

(** The three [_Enum] objects. *)
Inductive Decision : Type := ALLOW | SUSPEND | SUPPRESS.

#[global] Instance Decision_eq_dec : EqDecision Decision.
Proof. solve_decision. Defined.

Module _Enum.

Definition n (d : Decision) : Z :=
  match d with
  | ALLOW => 0
  | SUSPEND => 1
  | SUPPRESS => 2
  end.

Definition __lt__ (self other : Decision) : bool := n self <? n other.

(** One step of [max]: the running maximum is replaced when the next item
    compares greater, that is when [max_item.__lt__(item)]. *)
Definition max2 (max_item item : Decision) : Decision :=
  if __lt__ max_item item then item else max_item.

(** [max] over a non-empty sequence of decisions. *)
Definition max (first : Decision) (rest : list Decision) : Decision :=
  foldl max2 first rest.

End _Enum.

(** A hook's answer: a dict from events to decisions. *)
Abbreviation Decisions := (gmap EventKey Decision) (only parsing).

(** [decisions.get(event, ALLOW)]. *)
Definition get_decision (decisions : Decisions) (event : Event) : Decision :=
  default ALLOW (decisions !! KeyboardEvent.key event).

(** [hooks_decisions = [...] or [{}]]. *)
Definition or_empty_dict (hooks_decisions : list Decisions) : list Decisions :=
  match hooks_decisions with
  | [] => [∅]
  | _ => hooks_decisions
  end.

(** [max(decisions.get(event, ALLOW) for decisions in hooks_decisions)];
    [max] raises [ValueError] on an empty sequence. *)
Definition merged_decision (hooks_decisions : list Decisions) (event : Event)
    : Res Decision :=
  match (fun decisions => get_decision decisions event) <$> hooks_decisions with
  | [] => raise ValueError
  | first :: rest => inr (_Enum.max first rest)
  end.

(** What a user callback returns: one of the three decisions, or any other
    object ([None], a bool, a string, ...). *)
Inductive CallbackResult : Type :=
| RDecision (d : Decision)
| ROther.

(** A Python value as the user may pass it for a key or a hotkey. *)
#[local] Unset Elimination Schemes.
Inductive PyVal : Type :=
| VNone
| VInt (z : Z)
| VStr (s : string)
| VList (l : list PyVal)
| VTuple (l : list PyVal).
#[local] Set Elimination Schemes.

(** [tuple(x)]: the items of a list or tuple, the characters of a string;
    [TypeError] on what is not iterable. *)
Definition py_tuple (x : PyVal) : Res (list PyVal) :=
  match x with
  | VList l | VTuple l => inr l
  | VStr s => inr ((fun c => VStr (String c EmptyString)) <$> String.list_ascii_of_string s)
  | VInt _ | VNone => raise TypeError
  end.

(** The integers of a tuple, [None] when some item is not a number. *)
Fixpoint all_numbers (l : list PyVal) : option (list Z) :=
  match l with
  | [] => Some []
  | VInt z :: rest => cons z <$> all_numbers rest
  | _ :: _ => None
  end.

(** ** Hotkeys: [Key], [Step], [Hotkey] *)

Module Key.

Record t : Type := mk {
  label : PyVal;
  scan_codes : list Z;
}.

(** [Key.__init__]: the tuple of scan codes must be non-empty and hold
    numbers only (its [assert]). *)
Definition __init__ (label : PyVal) (scan_codes : PyVal) : Res t :=
  items ← py_tuple scan_codes;
  match all_numbers items with
  | Some (c :: cs) => inr (mk label (c :: cs))
  | _ => raise AssertionError
  end.

End Key.

Section WithPlatform.
Context `{Platform}.

(** [is_modifier] on a scan code. *)
Definition is_modifier (key : Z) : bool := bool_decide (key ∈ _modifier_scan_codes).

End WithPlatform.

Module Step.

Record t : Type := mk {
  keys : list Key.t;
  modifiers : list Key.t;
  is_standard : bool;
  main_key : option Key.t;
}.

(** Whether [is_modifier(key.scan_codes[0])]; [IndexError] on a key with no
    scan code. *)
Definition key_is_modifier `{Platform} (key : Key.t) : Res bool :=
  c ← py_index (Key.scan_codes key) 0; inr (is_modifier c).

(** [[key for key in keys if is_modifier(key.scan_codes[0])]], together with
    the keys it leaves out. *)
Fixpoint split_modifiers `{Platform} (keys : list Key.t)
    : Res (list Key.t * list Key.t) :=
  match keys with
  | [] => inr ([], [])
  | key :: rest =>
      b ← key_is_modifier key;
      '(ms, others) ← split_modifiers rest;
      inr (if b : bool then (key :: ms, others) else (ms, key :: others))
  end.

(** [Step.__init__]. A key is in [self.modifiers] exactly when it was
    selected by [is_modifier], so [main_key] is the first key left out. *)
Definition __init__ `{Platform} (keys : list Key.t) : Res t :=
  '(ms, others) ← split_modifiers keys;
  if bool_decide (length keys = S (length ms))
  then inr (mk keys ms true (head others))
  else inr (mk keys ms false None).

End Step.

Module Hotkey.

Record t : Type := mk { steps : list Step.t }.

End Hotkey.

(** ** Hooks *)

Module _SimpleHook.

Record t : Type := mk { callback : Event -> CallbackResult }.

(** [process_event]: the decision for the event, and how many times the
    callback ran. *)
Definition process_event (self : t) (event : Event) : Decisions * nat :=
  let result := callback self event in
  ({[ KeyboardEvent.key event :=
        match result with
        | RDecision d => d
        | ROther => ALLOW
        end ]}, 1%nat).

End _SimpleHook.

Module _KeyHook.

Record t : Type := mk {
  scan_codes : list Z;
  callback : CallbackResult;
}.

Definition process_event (self : t) (event : Event) : Decisions * nat :=
  if bool_decide (KeyboardEvent.scan_code event ∈ scan_codes self) then
    let result := callback self in
    ({[ KeyboardEvent.key event :=
          match result with
          | RDecision ALLOW => ALLOW
          | RDecision SUPPRESS => SUPPRESS
          | _ => SUPPRESS
          end ]}, 1%nat)
  else ({[ KeyboardEvent.key event := ALLOW ]}, 0%nat).

End _KeyHook.

(** The transition table: a [defaultdict(lambda: 0)] keyed by
    [(state, tuple of scan codes)]. *)
Abbreviation Transitions := (gmap (Z * list Z) Z) (only parsing).

(** [transitions[k]]: reading a missing key stores the default under it. *)
Definition dd_get (transitions : Transitions) (k : Z * list Z)
    : Transitions * Z :=
  match transitions !! k with
  | Some v => (transitions, v)
  | None => (<[k := 0]> transitions, 0)
  end.

(** [itertools.product] applied to the given sequences. *)
Fixpoint product (lists : list (list Z)) : list (list Z) :=
  match lists with
  | [] => [[]]
  | l :: rest => x ← l; (cons x <$> product rest)
  end.

Module _HotkeyHook.

Record t : Type := mk {
  callback : CallbackResult;
  hotkey : Hotkey.t;
  timeout : Z;
  trigger_on_release : bool;
  transitions : gmap (Z * list Z) Z;
  state : Z;
  suspended_events : list Event;
  scan_code_releases_to_suppress : gset Z;
}.

(** *** [build_hotkey_transition_table] *)

(** The local [get_final_state] lambda. *)
Fixpoint get_final_state (transitions : Transitions) (sequence : list (list Z))
    (state : Z) : Transitions * Z :=
  match sequence with
  | [] => (transitions, state)
  | x :: rest =>
      let '(transitions', state') := dd_get transitions (state, x) in
      get_final_state transitions' rest state'
  end.

(** [get_final_state(history[j:] + [previous_inputs])] for each [j] of [js],
    in order. *)
Fixpoint final_states (transitions : Transitions) (history : list (list Z))
    (previous_inputs : list Z) (js : list nat) : Transitions * list Z :=
  match js with
  | [] => (transitions, [])
  | j :: js' =>
      let '(t1, s) :=
        get_final_state transitions (drop j history ++ [previous_inputs]) 0 in
      let '(t2, ss) := final_states t1 history previous_inputs js' in
      (t2, s :: ss)
  end.

(** The body of [for previous_inputs in set(history)]. *)
Definition failure_link (i : Z) (history : list (list Z))
    (transitions : Transitions) (previous_inputs : list Z) : Res Transitions :=
  let '(t1, finals) :=
    final_states transitions history previous_inputs (seq 1 (length history)) in
  overlapping_state ← py_max finals;
  inr (<[(i, previous_inputs) := overlapping_state]> t1).

Fixpoint failure_links (i : Z) (history : list (list Z))
    (transitions : Transitions) (inputs : list (list Z)) : Res Transitions :=
  match inputs with
  | [] => inr transitions
  | previous_inputs :: rest =>
      t1 ← failure_link i history transitions previous_inputs;
      failure_links i history t1 rest
  end.

(** The body of [for input_scan_codes in product(...)]; the second component
    is the loop variable, which outlives the loop. *)
Definition product_step (i : Z) (acc : Transitions * option (list Z))
    (input_scan_codes : list Z) : Transitions * option (list Z) :=
  (<[(i, sorted input_scan_codes) := i + 1]> (fst acc), Some input_scan_codes).

(** One iteration of [for i, step in enumerate(hotkey.steps)]. [set(history)]
    is walked without repetition; [input_scan_codes] is unbound until a
    product loop has run once. *)
Definition build_step (i : Z) (step : Step.t)
    (acc : Transitions * list (list Z) * option (list Z))
    : Res (Transitions * list (list Z) * option (list Z)) :=
  let '(transitions, history, input_scan_codes) := acc in
  t1 ← failure_links i history transitions (remove_dups history);
  let '(t2, input_scan_codes') :=
    foldl (product_step i) (t1, input_scan_codes)
          (product (Key.scan_codes <$> Step.keys step)) in
  match input_scan_codes' with
  | None => raise NameError
  | Some last => inr (t2, history ++ [last], input_scan_codes')
  end.

Fixpoint build_steps (i : Z) (steps : list Step.t)
    (acc : Transitions * list (list Z) * option (list Z))
    : Res (Transitions * list (list Z) * option (list Z)) :=
  match steps with
  | [] => inr acc
  | step :: rest =>
      acc' ← build_step i step acc;
      build_steps (i + 1) rest acc'
  end.

Definition build_hotkey_transition_table (hotkey : Hotkey.t) : Res Transitions :=
  acc ← build_steps 0 (Hotkey.steps hotkey) (∅, [], None);
  inr (fst (fst acc)).

Definition __init__ (hotkey : Hotkey.t) (timeout : Z) (trigger_on_release : bool)
    (callback : CallbackResult) : Res t :=
  transitions ← build_hotkey_transition_table hotkey;
  inr (mk callback hotkey timeout trigger_on_release transitions 0 [] ∅).

(** *** [process_event] *)

(** [is_main_key], as computed from the step on entry. *)
Definition is_main_key_of (step : Step.t) (event : Event) : Res bool :=
  if Step.is_standard step then
    match Step.main_key step with
    | Some main_key =>
        inr (bool_decide (KeyboardEvent.scan_code event ∈ Key.scan_codes main_key))
    | None => raise AttributeError
    end
  else
    inr (existsb
           (fun key => bool_decide (KeyboardEvent.scan_code event ∈ Key.scan_codes key))
           (Step.keys step)).

(** The [KEY_UP] branch; the second component is [events_to_suppress]. *)
Definition key_up_branch (self : t) (event : Event) : t * list Event :=
  let sc := KeyboardEvent.scan_code event in
  if bool_decide (sc ∈ KeyboardEvent.scan_code <$> suspended_events self) then
    (mk (callback self) (hotkey self) (timeout self) (trigger_on_release self)
        (transitions self) (state self) (suspended_events self ++ [event])
        (scan_code_releases_to_suppress self), [])
  else if bool_decide (sc ∈ scan_code_releases_to_suppress self) then
    (mk (callback self) (hotkey self) (timeout self) (trigger_on_release self)
        (transitions self) (state self) (suspended_events self)
        (scan_code_releases_to_suppress self ∖ {[ sc ]}), [event])
  else (self, []).

(** The condition of the timeout reset:
    [self.suspended_events and
     event.time - max(e.time for e in self.suspended_events) >= self.timeout]. *)
Definition timed_out (self : t) (event : Event) : bool :=
  match KeyboardEvent.time <$> suspended_events self with
  | [] => false
  | t0 :: ts => timeout self <=? KeyboardEvent.time event - foldl Z.max t0 ts
  end.

(** The timeout reset at the head of the matching branch. *)
Definition timeout_reset (self : t) (event : Event) : t :=
  if timed_out self event then
    mk (callback self) (hotkey self) (timeout self) (trigger_on_release self)
       (transitions self) 0 [] (scan_code_releases_to_suppress self)
  else self.

(** [sorted(events, key=lambda e: e.time, reverse=True)]: descending by time,
    items of equal time in their original order. *)
Fixpoint insert_by_time_desc (e : Event) (l : list Event) : list Event :=
  match l with
  | [] => [e]
  | y :: rest =>
      if KeyboardEvent.time e <? KeyboardEvent.time y
      then y :: insert_by_time_desc e rest
      else e :: l
  end.

Definition sorted_by_time_desc (l : list Event) : list Event :=
  foldr insert_by_time_desc [] l.

(** [sum(1 if step.is_standard else len(step.keys) for step in steps)]. *)
Definition useful_presses (steps : list Step.t) : Z :=
  foldl Z.add 0
    ((fun step => if Step.is_standard step then 1
                  else Z.of_nat (length (Step.keys step))) <$> steps).

(** The loop dropping the suspended events beyond the useful presses. *)
Fixpoint drop_useless (order : list Event) (suspended : list Event)
    (n_useful_presses_left : Z) : Res (list Event) :=
  match order with
  | [] => inr suspended
  | suspended_event :: rest =>
      suspended' ← (if n_useful_presses_left <=? 0
                    then list_remove KeyboardEvent.key suspended_event suspended
                    else inr suspended);
      drop_useless rest suspended'
        (match KeyboardEvent.event_type suspended_event with
         | KEY_DOWN => n_useful_presses_left - 1
         | KEY_UP => n_useful_presses_left
         end)
  end.

(** The matching branch ([elif self.state < len(self.hotkey.steps)]), after
    the timeout reset. *)
Definition match_input (self : t) (step : Step.t) (is_main_key : bool)
    (event : Event) (physically_pressed_keys active_modifiers : gset Z) : Res t :=
  let input_scan_codes :=
    if Step.is_standard step
    then sorted (KeyboardEvent.scan_code event :: elements active_modifiers)
    else sorted (elements physically_pressed_keys) in
  let suspended := suspended_events self ++ [event] in
  if Step.is_standard step
     || bool_decide (length (Step.keys step) <= size physically_pressed_keys)%nat
     || negb is_main_key
  then
    let '(transitions', state') :=
      dd_get (transitions self) (state self, input_scan_codes) in
    let n_useful_presses_left :=
      useful_presses (py_take state' (Hotkey.steps (hotkey self))) in
    suspended' ← drop_useless (sorted_by_time_desc suspended) suspended
                              n_useful_presses_left;
    inr (mk (callback self) (hotkey self) (timeout self) (trigger_on_release self)
            transitions' state' suspended' (scan_code_releases_to_suppress self))
  else
    inr (mk (callback self) (hotkey self) (timeout self) (trigger_on_release self)
            (transitions self) (state self) suspended
            (scan_code_releases_to_suppress self)).

(** The body of [for suspended_event in self.suspended_events] run when the
    callback did not return [ALLOW]. *)
Definition mark_suppressed (logically_pressed_keys : gset Z)
    (acc : list Event * gset Z) (suspended_event : Event) : list Event * gset Z :=
  let '(events_to_suppress, releases) := acc in
  let sc := KeyboardEvent.scan_code suspended_event in
  let is_logically_pressed := bool_decide (sc ∈ logically_pressed_keys) in
  let is_up :=
    bool_decide (KeyboardEvent.event_type suspended_event = KEY_UP) in
  let events_to_suppress' :=
    if negb (is_up && is_logically_pressed)
    then events_to_suppress ++ [suspended_event]
    else events_to_suppress in
  let releases' :=
    if negb is_up && negb is_logically_pressed then releases ∪ {[ sc ]}
    else if is_up then releases ∖ {[ sc ]}
    else releases in
  (events_to_suppress', releases').

(** The trigger test:
    [self.state == len(self.hotkey.steps) and is_main_key and
     (event.event_type == KEY_UP if self.trigger_on_release else KEY_DOWN)];
    the constant [KEY_DOWN] is a non-empty string, hence true. *)
Definition triggers (self : t) (is_main_key : bool) (event : Event) : bool :=
  bool_decide (state self = Z.of_nat (length (Hotkey.steps (hotkey self))))
  && is_main_key
  && (if trigger_on_release self
      then bool_decide (KeyboardEvent.event_type event = KEY_UP)
      else true).

(** The completion block; the last component counts the callback's runs. *)
Definition complete (self : t) (is_main_key : bool) (event : Event)
    (logically_pressed_keys : gset Z) (events_to_suppress : list Event)
    : t * list Event * nat :=
  if triggers self is_main_key event then
    let '(events_to_suppress', releases) :=
      match callback self with
      | RDecision ALLOW =>
          (events_to_suppress, scan_code_releases_to_suppress self)
      | _ =>
          foldl (mark_suppressed logically_pressed_keys)
                (events_to_suppress, scan_code_releases_to_suppress self)
                (suspended_events self)
      end in
    (mk (callback self) (hotkey self) (timeout self) (trigger_on_release self)
        (transitions self) 0 [] releases, events_to_suppress', 1%nat)
  else (self, events_to_suppress, 0%nat).

(** The returned dict: [SUSPEND] for what is still suspended, overridden by
    [SUPPRESS] for the events to suppress. *)
Definition answer (suspended events_to_suppress : list Event) : Decisions :=
  foldl (fun d e => <[KeyboardEvent.key e := SUPPRESS]> d)
        (foldl (fun d e => <[KeyboardEvent.key e := SUSPEND]> d) ∅ suspended)
        events_to_suppress.

Definition process_event `{Platform} (self : t) (event : Event)
    (physically_pressed_keys logically_pressed_keys active_modifiers : gset Z)
    : Res (t * Decisions * nat) :=
  let steps := Hotkey.steps (hotkey self) in
  step ← py_index steps (Z.min (state self) (Z.of_nat (length steps) - 1));
  is_main_key ← is_main_key_of step event;
  '(self1, events_to_suppress) ←
    match KeyboardEvent.event_type event with
    | KEY_UP => inr (key_up_branch self event)
    | KEY_DOWN =>
        if bool_decide (KeyboardEvent.scan_code event ∈ _modifier_scan_codes)
           && Step.is_standard step
        then inr (self, [])
        else if state self <? Z.of_nat (length steps) then
          self' ← match_input (timeout_reset self event) step is_main_key event
                              physically_pressed_keys active_modifiers;
          inr (self', [])
        else inr (self, [])
    end;
  let '(self2, events_to_suppress', calls) :=
    complete self1 is_main_key event logically_pressed_keys events_to_suppress in
  inr (self2, answer (suspended_events self2) events_to_suppress', calls).

End _HotkeyHook.

(** The objects a listener holds in [suppressing_hooks]. *)
Inductive Hook : Type :=
| SimpleHook (h : _SimpleHook.t)
| KeyHook (h : _KeyHook.t)
| HotkeyHook (h : _HotkeyHook.t).

(** [hook.process_event(event, physically_pressed_keys,
    logically_pressed_keys, active_modifiers)], by dynamic dispatch. *)
Definition Hook_process_event `{Platform} (hook : Hook) (event : Event)
    (physically_pressed_keys logically_pressed_keys active_modifiers : gset Z)
    : Res (Hook * Decisions * nat) :=
  match hook with
  | SimpleHook h =>
      let '(d, calls) := _SimpleHook.process_event h event in
      inr (hook, d, calls)
  | KeyHook h =>
      let '(d, calls) := _KeyHook.process_event h event in
      inr (hook, d, calls)
  | HotkeyHook h =>
      '(h', d, calls) ← _HotkeyHook.process_event h event physically_pressed_keys
                           logically_pressed_keys active_modifiers;
      inr (HotkeyHook h', d, calls)
  end.

(** ** The listener *)

Module _KeyboardListener.

Record t : Type := mk {
  physically_pressed_keys : gset Z;
  logically_pressed_keys : gset Z;
  active_modifiers : gset Z;
  suspended_event_pairs : list (Event * gset Z);
  is_replaying : bool;
  suppressing_hooks : list Hook;
  nonsuppressing_hooks : list Hook;
  async_events_queue : list Event;
}.

(** [_KeyboardListener.__init__]. *)
Definition __init__ : t := mk ∅ ∅ ∅ [] false [] [] [].

Definition set_logically_pressed_keys (self : t) (keys : gset Z) : t :=
  mk (physically_pressed_keys self) keys (active_modifiers self)
     (suspended_event_pairs self) (is_replaying self) (suppressing_hooks self)
     (nonsuppressing_hooks self) (async_events_queue self).

Definition set_suspended_event_pairs (self : t) (pairs : list (Event * gset Z))
    : t :=
  mk (physically_pressed_keys self) (logically_pressed_keys self)
     (active_modifiers self) pairs (is_replaying self) (suppressing_hooks self)
     (nonsuppressing_hooks self) (async_events_queue self).

Definition set_is_replaying (self : t) (b : bool) : t :=
  mk (physically_pressed_keys self) (logically_pressed_keys self)
     (active_modifiers self) (suspended_event_pairs self) b
     (suppressing_hooks self) (nonsuppressing_hooks self)
     (async_events_queue self).

Definition set_suppressing_hooks (self : t) (hooks : list Hook) : t :=
  mk (physically_pressed_keys self) (logically_pressed_keys self)
     (active_modifiers self) (suspended_event_pairs self) (is_replaying self)
     hooks (nonsuppressing_hooks self) (async_events_queue self).

(** What reaches the rest of the system: an event the listener allowed, or a
    key the listener pressed or released through the driver. *)
Inductive Output : Type :=
| Passed (event : Event)
| Injected (event_type : EventType) (scan_code : Z).

(** The tail of [process_sync_event]: the update of the logically pressed
    keys for an allowed event. *)
Definition allow_event (self : t) (event_type : EventType) (scan_code : Z) : t :=
  set_logically_pressed_keys self
    (match event_type with
     | KEY_DOWN => logically_pressed_keys self ∪ {[ scan_code ]}
     | KEY_UP => logically_pressed_keys self ∖ {[ scan_code ]}
     end).

(** [_os_keyboard.press(scan_code)] and [_os_keyboard.release(scan_code)],
    called while [is_replaying] is set: the key is injected, and when the
    driver echoes it the listener takes its replaying path. *)
Definition os_inject `{Platform} (self : t) (event_type : EventType)
    (scan_code : Z) : t * list Output :=
  (if driver_echo then allow_event self event_type scan_code else self,
   [Injected event_type scan_code]).

Definition os_inject_all `{Platform} (self : t) (event_type : EventType)
    (scan_codes : list Z) : t * list Output :=
  foldl (fun '(l, out) sc =>
           let '(l', out') := os_inject l event_type sc in (l', out ++ out'))
        (self, []) scan_codes.

(** [[run_hook(hook) for hook in self.suppressing_hooks]]: the hooks as they
    are left, and their answers; an exception stops the walk. *)
Fixpoint run_hooks `{Platform} (hooks : list Hook) (event : Event)
    (physically_pressed_keys logically_pressed_keys active_modifiers : gset Z)
    : list Hook * Res (list Decisions) :=
  match hooks with
  | [] => ([], inr [])
  | hook :: rest =>
      match Hook_process_event hook event physically_pressed_keys
                               logically_pressed_keys active_modifiers with
      | inl e => (hooks, inl e)
      | inr (hook', d, _) =>
          let '(rest', r) := run_hooks rest event physically_pressed_keys
                                       logically_pressed_keys active_modifiers in
          (hook' :: rest', cons d <$> r)
      end
  end.

(** The replay of one allowed suspended event: the modifiers are brought to
    those of the suspension, then the event is injected. *)
Definition replay `{Platform} (self : t) (temporary_modifiers_state : gset Z)
    (suspended_event : Event) (suspended_modifiers : gset Z)
    : t * gset Z * list Output :=
  let '(l1, out1) :=
    os_inject_all self KEY_UP
      (elements (temporary_modifiers_state ∖ suspended_modifiers)) in
  let temp1 := temporary_modifiers_state ∩ suspended_modifiers in
  let '(l2, out2) :=
    os_inject_all l1 KEY_DOWN (elements (suspended_modifiers ∖ temp1)) in
  let temp2 := temp1 ∪ suspended_modifiers in
  let '(l3, out3) :=
    os_inject l2 (KeyboardEvent.event_type suspended_event)
              (KeyboardEvent.scan_code suspended_event) in
  (l3, temp2, out1 ++ out2 ++ out3).

(** What equality of two [(event, modifiers)] tuples compares. *)
Definition pair_key (pair : Event * gset Z) : EventKey * gset Z :=
  (KeyboardEvent.key (fst pair), snd pair).

(** [self.suspended_event_pairs.remove(pair)]. *)
Definition remove_pair (self : t) (pair : Event * gset Z) : Res t :=
  pairs ← list_remove pair_key pair (suspended_event_pairs self);
  inr (set_suspended_event_pairs self pairs).

(** The loop over [list(self.suspended_event_pairs)]. *)
Fixpoint resolve_suspended `{Platform} (hooks_decisions : list Decisions)
    (pairs : list (Event * gset Z)) (self : t)
    (temporary_modifiers_state : gset Z) (out : list Output)
    : t * gset Z * list Output * Res unit :=
  match pairs with
  | [] => (self, temporary_modifiers_state, out, inr ())
  | (suspended_event, suspended_modifiers) :: rest =>
      match merged_decision hooks_decisions suspended_event with
      | inl e => (self, temporary_modifiers_state, out, inl e)
      | inr SUSPEND =>
          resolve_suspended hooks_decisions rest self temporary_modifiers_state out
      | inr SUPPRESS =>
          match remove_pair self (suspended_event, suspended_modifiers) with
          | inl e => (self, temporary_modifiers_state, out, inl e)
          | inr self' =>
              resolve_suspended hooks_decisions rest self'
                                temporary_modifiers_state out
          end
      | inr ALLOW =>
          let '(l1, temp, out1) :=
            replay self temporary_modifiers_state suspended_event
                   suspended_modifiers in
          match remove_pair l1 (suspended_event, suspended_modifiers) with
          | inl e => (l1, temp, out ++ out1, inl e)
          | inr l2 => resolve_suspended hooks_decisions rest l2 temp (out ++ out1)
          end
      end
  end.

(** [run_sync_hooks]: the listener as the call leaves it, what it injected,
    and the decision it returns (or the exception it raises). The guard is
    set and cleared on the module's [_listener], the one listener there is. *)
Definition run_sync_hooks `{Platform} (self : t) (event : Event)
    : t * list Output * Res Decision :=
  let '(hooks', answers) :=
    run_hooks (suppressing_hooks self) event (physically_pressed_keys self)
              (logically_pressed_keys self) (active_modifiers self) in
  let l0 := set_suppressing_hooks self hooks' in
  match answers with
  | inl e => (l0, [], inl e)
  | inr answers =>
      let hooks_decisions := or_empty_dict answers in
      let temporary_modifiers_state := active_modifiers l0 in
      let l1 := set_is_replaying l0 true in
      match resolve_suspended hooks_decisions (suspended_event_pairs l1) l1
                              temporary_modifiers_state [] with
      | (l2, _, out, inl e) => (l2, out, inl e)
      | (l2, temp, out, inr _) =>
          let '(l3, out3) :=
            os_inject_all l2 KEY_DOWN (elements (active_modifiers l2 ∖ temp)) in
          let '(l4, out4) :=
            os_inject_all l3 KEY_UP (elements (temp ∖ active_modifiers l3)) in
          let l5 := set_is_replaying l4 false in
          match merged_decision hooks_decisions event with
          | inl e => (l5, out ++ out3 ++ out4, inl e)
          | inr SUSPEND =>
              (set_suspended_event_pairs l5
                 (suspended_event_pairs l5 ++ [(event, active_modifiers l5)]),
               out ++ out3 ++ out4, inr SUPPRESS)
          | inr SUPPRESS => (l5, out ++ out3 ++ out4, inr SUPPRESS)
          | inr ALLOW => (l5, out ++ out3 ++ out4, inr ALLOW)
          end
      end
  end.

(** The update of the pressed keys and active modifiers at the head of
    [process_sync_event], and the put on the async queue. *)
Definition note_event `{Platform} (self : t) (event : Event) : t :=
  let sc := KeyboardEvent.scan_code event in
  let physical :=
    match KeyboardEvent.event_type event with
    | KEY_DOWN => physically_pressed_keys self ∪ {[ sc ]}
    | KEY_UP => physically_pressed_keys self ∖ {[ sc ]}
    end in
  let mods :=
    if bool_decide (sc ∈ _modifier_scan_codes) then
      match KeyboardEvent.event_type event with
      | KEY_DOWN => active_modifiers self ∪ {[ sc ]}
      | KEY_UP => active_modifiers self ∖ {[ sc ]}
      end
    else active_modifiers self in
  mk physical (logically_pressed_keys self) mods (suspended_event_pairs self)
     (is_replaying self) (suppressing_hooks self) (nonsuppressing_hooks self)
     (async_events_queue self ++ [event]).

(** [process_sync_event]: the listener afterwards, what the call injected,
    and the boolean it hands to the driver. *)
Definition process_sync_event `{Platform} (self : t) (event : Event)
    : t * list Output * Res bool :=
  let '(l1, out, decision) :=
    if is_replaying self then (self, [], inr ALLOW)
    else run_sync_hooks (note_event self event) event in
  match decision with
  | inl e => (l1, out, inl e)
  | inr ALLOW =>
      (allow_event l1 (KeyboardEvent.event_type event)
                   (KeyboardEvent.scan_code event), out, inr true)
  | inr _ => (l1, out, inr false)
  end.

(** What one call lets through: its injections, then the event itself when
    the driver is told to allow it. *)
Definition emitted (event : Event) (out : list Output) (verdict : Res bool)
    : list Output :=
  out ++ match verdict with
         | inr true => [Passed event]
         | _ => []
         end.

(** The driver feeding a sequence of events, as long as no call raises. *)
Fixpoint process_events `{Platform} (self : t) (events : list Event)
    : t * list Output * list (Res bool) :=
  match events with
  | [] => (self, [], [])
  | event :: rest =>
      let '(l1, out, verdict) := process_sync_event self event in
      match verdict with
      | inl _ => (l1, emitted event out verdict, [verdict])
      | inr _ =>
          let '(l2, outs, verdicts) := process_events l1 rest in
          (l2, emitted event out verdict ++ outs, verdict :: verdicts)
      end
  end.

End _KeyboardListener.

(** ** Parsing hotkeys *)

(** The depth at which Python gives up on a recursion. *)
Definition recursion_limit : nat := 1000.

(** The keys of an [OrderedDict] built from a sequence: first occurrences,
    in order. *)
Definition ordered_keys (l : list Z) : list Z :=
  foldl (fun acc c => if bool_decide (c ∈ acc) then acc else acc ++ [c]) [] l.

(** [key_to_scan_codes(key, error_if_missing)], with [depth] frames left. *)
Fixpoint key_to_scan_codes_at `{Platform} (depth : nat) (key : PyVal)
    (error_if_missing : bool) : Res (list Z) :=
  match depth with
  | O => raise RecursionError
  | S depth' =>
      match key with
      | VInt z => inr [z]
      | VList l | VTuple l =>
          (fix sum_codes (items : list PyVal) : Res (list Z) :=
             match items with
             | [] => inr []
             | i :: rest =>
                 codes ← key_to_scan_codes_at depth' i true;
                 more ← sum_codes rest;
                 inr (codes ++ more)
             end) l
      | VNone => raise ValueError
      | VStr s =>
          normalized ← normalize_name s;
          if bool_decide (normalized ∈ sided_modifiers) then
            left_scan_codes ←
              key_to_scan_codes_at depth' (VStr ("left " +:+ normalized)) false;
            right_scan_codes ←
              key_to_scan_codes_at depth' (VStr ("right " +:+ normalized)) false;
            inr (left_scan_codes
                 ++ filter (fun c => c ∉ left_scan_codes) right_scan_codes)
          else
            let t := match map_name normalized with
                     | Some entries => ordered_keys (fst <$> entries)
                     | None => []
                     end in
            if bool_decide (t = []) && error_if_missing then raise ValueError
            else inr t
      end
  end.

Definition key_to_scan_codes `{Platform} (key : PyVal) (error_if_missing : bool)
    : Res (list Z) :=
  key_to_scan_codes_at recursion_limit key error_if_missing.

(** [\s] on the characters of an ASCII string. *)
Definition is_space (c : ascii) : bool :=
  let n := nat_of_ascii c in
  bool_decide (9 <= n <= 13 \/ 28 <= n <= 32)%nat.

(** [re.split(r',\s?', hotkey)] on the characters of the string; [piece]
    holds the current piece, reversed. *)
Fixpoint split_steps (s : list ascii) (piece : list ascii) : list (list ascii) :=
  match s with
  | [] => [reverse piece]
  | c :: rest =>
      if Ascii.eqb c ","
      then reverse piece ::
           match rest with
           | w :: rest' =>
               if is_space w then split_steps rest' [] else split_steps rest []
           | [] => [[]]
           end
      else split_steps rest (c :: piece)
  end.

(** [re.split(r'\s?\+\s?', step)]. *)
Fixpoint split_keys (s : list ascii) (piece : list ascii) : list (list ascii) :=
  match s with
  | [] => [reverse piece]
  | c :: rest =>
      if Ascii.eqb c "+" then
        reverse piece ::
        match rest with
        | w :: rest' =>
            if is_space w then split_keys rest' [] else split_keys rest []
        | [] => [[]]
        end
      else
        match rest with
        | p :: rest' =>
            if is_space c && Ascii.eqb p "+" then
              reverse piece ::
              match rest' with
              | w :: rest'' =>
                  if is_space w then split_keys rest'' [] else split_keys rest' []
              | [] => [[]]
              end
            else split_keys rest (c :: piece)
        | [] => split_keys rest (c :: piece)
        end
  end.

Definition re_split_steps (hotkey : string) : list string :=
  String.string_of_list_ascii <$> split_steps (String.list_ascii_of_string hotkey) [].

Definition re_split_keys (step : string) : list string :=
  String.string_of_list_ascii <$> split_keys (String.list_ascii_of_string step) [].

(** [[f(x) for x in l]], stopping at the first exception. *)
Fixpoint map_res {A B : Type} (f : A -> Res B) (l : list A) : Res (list B) :=
  match l with
  | [] => inr []
  | x :: rest => y ← f x; ys ← map_res f rest; inr (y :: ys)
  end.

(** [Key(k, key_to_scan_codes(k))]. *)
Definition key_of `{Platform} (k : PyVal) : Res Key.t :=
  codes ← key_to_scan_codes k true;
  Key.__init__ k (VTuple (VInt <$> codes)).

(** [Step(Key(None, k) for k in step)]. *)
Definition step_of_scan_codes `{Platform} (step : PyVal) : Res Step.t :=
  items ← py_tuple step;
  keys ← map_res (Key.__init__ VNone) items;
  Step.__init__ keys.

Definition is_list (x : PyVal) : bool :=
  match x with
  | VList _ | VTuple _ => true
  | _ => false
  end.

(** A hotkey as the user gives it: a [Hotkey] object, or a value to parse. *)
Inductive HotkeyArg : Type :=
| AHotkey (h : Hotkey.t)
| AVal (v : PyVal).

(** [len(x)]. *)
Definition py_len (x : PyVal) : Res nat :=
  match x with
  | VStr s => inr (String.length s)
  | VList l | VTuple l => inr (length l)
  | VInt _ | VNone => raise TypeError
  end.

Definition parse_hotkey `{Platform} (hotkey : HotkeyArg) : Res Hotkey.t :=
  match hotkey with
  | AHotkey h => inr h
  | AVal v =>
      single ← match v with
               | VInt _ => inr true
               | _ => n ← py_len v; inr (bool_decide (n = 1%nat))
               end;
      if single : bool then
        key ← key_of v;
        step ← Step.__init__ [key];
        inr (Hotkey.mk [step])
      else
        match v with
        | VList l | VTuple l =>
            if negb (existsb is_list l) then
              keys ← map_res key_of l;
              step ← Step.__init__ keys;
              inr (Hotkey.mk [step])
            else
              steps ← map_res step_of_scan_codes l;
              inr (Hotkey.mk steps)
        | VStr s =>
            steps ← map_res
                      (fun step =>
                         keys ← map_res (fun name => key_of (VStr name))
                                        (re_split_keys step);
                         Step.__init__ keys)
                      (re_split_steps s);
            inr (Hotkey.mk steps)
        | VInt _ | VNone => raise TypeError
        end
  end.

(** Whether Python can hash the value: numbers, strings and [None] can, a
    list cannot, and a tuple can when all its items can. *)
Fixpoint hashable (v : PyVal) : bool :=
  match v with
  | VNone | VInt _ | VStr _ => true
  | VList _ => false
  | VTuple l =>
      (fix all_hashable (items : list PyVal) : bool :=
         match items with
         | [] => true
         | i :: rest => hashable i && all_hashable rest
         end) l
  end.

(** An id under which a hook is registered: the callback, or the key or
    hotkey as the user gave it. *)
Inductive HookId : Type :=
| IdCallback
| IdValue (v : PyVal)
| IdHotkey (h : Hotkey.t).

(** A callback is a function and a [Hotkey] is a plain object: Python hashes
    both by identity. *)
Definition id_hashable (hook_id : HookId) : bool :=
  match hook_id with
  | IdCallback | IdHotkey _ => true
  | IdValue v => hashable v
  end.

Definition hotkey_id (hotkey : HotkeyArg) : HookId :=
  match hotkey with
  | AHotkey h => IdHotkey h
  | AVal v => IdValue v
  end.

(** [hooks_list.append(hook_obj)], where [hooks_list] is the collection
    that [suppress] selects. *)
Definition append_hook (listener : _KeyboardListener.t) (hook_obj : Hook)
    (suppress : bool) : _KeyboardListener.t :=
  if suppress then
    _KeyboardListener.set_suppressing_hooks listener
      (_KeyboardListener.suppressing_hooks listener ++ [hook_obj])
  else
    _KeyboardListener.mk
      (_KeyboardListener.physically_pressed_keys listener)
      (_KeyboardListener.logically_pressed_keys listener)
      (_KeyboardListener.active_modifiers listener)
      (_KeyboardListener.suspended_event_pairs listener)
      (_KeyboardListener.is_replaying listener)
      (_KeyboardListener.suppressing_hooks listener)
      (_KeyboardListener.nonsuppressing_hooks listener ++ [hook_obj])
      (_KeyboardListener.async_events_queue listener).

(** [_listener.register(hook_obj, ids, suppress)]. Its [enable] first
    indexes [hook_disable_by_id] by every id, which raises [TypeError] at an
    id that cannot be hashed, and only then appends the hook to its
    collection. The dictionary is read by the functions that remove hooks
    only; the listener's record does not hold it. *)
Definition register (listener : _KeyboardListener.t) (hook_obj : Hook)
    (ids : list HookId) (suppress : bool) : Res _KeyboardListener.t :=
  if forallb id_hashable ids then inr (append_hook listener hook_obj suppress)
  else raise TypeError.

(** [hook(callback, suppress)]. *)
Definition hook (listener : _KeyboardListener.t)
    (callback : Event -> CallbackResult) (suppress : bool)
    : Res _KeyboardListener.t :=
  register listener (SimpleHook (_SimpleHook.mk callback)) [IdCallback] suppress.

(** [hook_key(key, callback, suppress)]. *)
Definition hook_key `{Platform} (listener : _KeyboardListener.t) (key : PyVal)
    (callback : CallbackResult) (suppress : bool) : Res _KeyboardListener.t :=
  codes ← key_to_scan_codes key true;
  register listener (KeyHook (_KeyHook.mk codes callback))
    [IdValue key; IdCallback] suppress.

(** [add_hotkey(hotkey, callback, suppress=..., timeout=...,
    trigger_on_release=...)]: the listener with the new hook, or the
    exception raised before it is registered. *)
Definition add_hotkey `{Platform} (listener : _KeyboardListener.t)
    (hotkey : HotkeyArg) (callback : CallbackResult) (suppress : bool)
    (timeout : Z) (trigger_on_release : bool) : Res _KeyboardListener.t :=
  parsed_hotkey ← parse_hotkey hotkey;
  hook_obj ← _HotkeyHook.__init__ parsed_hotkey timeout trigger_on_release callback;
  register listener (HotkeyHook hook_obj) [IdCallback; hotkey_id hotkey] suppress.

(** ** Sending keys *)

(** A call to the driver: [_os_keyboard.press(scan_code)] or
    [_os_keyboard.release(scan_code)]. *)
Inductive OsCall : Type :=
| OsPress (scan_code : Z)
| OsRelease (scan_code : Z).

(** [for key in keys: call(key.scan_codes[0])]: the calls made, and whether
    the loop ended or raised. *)
Fixpoint os_calls (call : Z -> OsCall) (keys : list Key.t)
    : list OsCall * Res unit :=
  match keys with
  | [] => ([], inr ())
  | key :: rest =>
      match py_index (Key.scan_codes key) 0 with
      | inl e => ([], inl e)
      | inr c => let '(out, r) := os_calls call rest in (call c :: out, r)
      end
  end.

(** The loop of [send] over the steps of the parsed hotkey. *)
Fixpoint send_steps (steps : list Step.t) (do_press do_release : bool)
    : list OsCall * Res unit :=
  match steps with
  | [] => ([], inr ())
  | step :: rest =>
      let '(out1, r1) :=
        if do_press then os_calls OsPress (Step.keys step) else ([], inr ()) in
      match r1 with
      | inl e => (out1, inl e)
      | inr _ =>
          let '(out2, r2) :=
            if do_release then os_calls OsRelease (reverse (Step.keys step))
            else ([], inr ()) in
          match r2 with
          | inl e => (out1 ++ out2, inl e)
          | inr _ =>
              let '(out3, r3) := send_steps rest do_press do_release in
              (out1 ++ out2 ++ out3, r3)
          end
      end
  end.

(** [send(hotkey, do_press, do_release)]. *)
Definition send `{Platform} (hotkey : HotkeyArg) (do_press do_release : bool)
    : list OsCall * Res unit :=
  match parse_hotkey hotkey with
  | inl e => ([], inl e)
  | inr parsed => send_steps (Hotkey.steps parsed) do_press do_release
  end.

(** [press(hotkey)] and [release(hotkey)]. *)
Definition press `{Platform} (hotkey : HotkeyArg) : list OsCall * Res unit :=
  send hotkey true false.

Definition release `{Platform} (hotkey : HotkeyArg) : list OsCall * Res unit :=
  send hotkey false true.

(** ** Hashing events *)

(** The tuple [KeyboardEvent.__hash__] hashes. *)
Definition __hash__ (self : Event) : EventType * Z * Z * option string :=
  (KeyboardEvent.event_type self, KeyboardEvent.scan_code self,
   KeyboardEvent.time self, KeyboardEvent.device self).

(** ** Typed strings *)

(** A string is held as the bytes of its UTF-8 encoding, and one of its
    characters starts at each byte that is no continuation byte. *)
Definition is_continuation (c : Ascii.ascii) : bool :=
  let n := Ascii.nat_of_ascii c in
  bool_decide (128 <= n < 192)%nat.

(** [len(s)]: the number of characters. *)
Definition str_len (s : string) : nat :=
  length (filter (fun c => is_continuation c = false)
                 (String.list_ascii_of_string s)).

(** [s[:-1]]: the string without its last character. [without_last] works
    on the bytes in reverse: it drops the continuation bytes of the last
    character and then its first byte. *)
Fixpoint without_last (bytes : list Ascii.ascii) : list Ascii.ascii :=
  match bytes with
  | [] => []
  | c :: rest => if is_continuation c then without_last rest else rest
  end.

Definition drop_last (s : string) : string :=
  String.string_of_list_ascii
    (reverse (without_last (reverse (String.list_ascii_of_string s)))).

(** [needle in s]. *)
Fixpoint contains (needle s : string) : bool :=
  String.prefix needle s
  || match s with
     | EmptyString => false
     | String _ rest => contains needle rest
     end.

(** [str.upper] on the letters of ASCII, where it is known without
    Python's tables. *)
Definition upper_ascii (c : Ascii.ascii) : Ascii.ascii :=
  let n := Ascii.nat_of_ascii c in
  if bool_decide (97 <= n <= 122)%nat then Ascii.ascii_of_nat (n - 32) else c.

Fixpoint upper (s : string) : string :=
  match s with
  | EmptyString => EmptyString
  | String c rest => String (upper_ascii c) (upper rest)
  end.

(** The local variables of [get_typed_strings]. *)
Record TypedState : Type := mkTypedState {
  shift_pressed : bool;
  capslock_pressed : bool;
  typed : string;
}.

(** The body of the loop of [get_typed_strings]: the variables afterwards
    and what the iteration yields; [TypeError] on an event without a name,
    for which [in] has nothing to search. [str_upper] is [str.upper],
    Python's own case mapping, which the module takes from the language. *)
Definition typed_step (str_upper : string -> string)
    (darwin allow_backspace : bool) (st : TypedState) (event : Event)
    : Res (TypedState * list string) :=
  let backspace_name := if darwin then "delete" else "backspace" in
  match KeyboardEvent.name event with
  | None => raise TypeError
  | Some event_name =>
      let name := if String.eqb event_name "space" then " " else event_name in
      let is_down :=
        bool_decide (KeyboardEvent.event_type event = KEY_DOWN) in
      if contains "shift" event_name then
        inr (mkTypedState is_down (capslock_pressed st) (typed st), [])
      else if String.eqb event_name "caps lock" && is_down then
        inr (mkTypedState (shift_pressed st) (negb (capslock_pressed st))
               (typed st), [])
      else if allow_backspace && String.eqb event_name backspace_name && is_down
      then
        inr (mkTypedState (shift_pressed st) (capslock_pressed st)
               (drop_last (typed st)), [])
      else if is_down then
        if bool_decide (str_len name = 1%nat) then
          let name' :=
            if xorb (shift_pressed st) (capslock_pressed st) then str_upper name
            else name in
          inr (mkTypedState (shift_pressed st) (capslock_pressed st)
                 (typed st +:+ name'), [])
        else
          inr (mkTypedState (shift_pressed st) (capslock_pressed st) "",
               [typed st])
      else inr (st, [])
  end.

(** The generator run to its end: the strings it yields, and whether it
    finished or raised. *)
Fixpoint get_typed_strings_from (str_upper : string -> string)
    (darwin allow_backspace : bool) (st : TypedState) (events : list Event)
    : list string * Res unit :=
  match events with
  | [] => ([typed st], inr ())
  | event :: rest =>
      match typed_step str_upper darwin allow_backspace st event with
      | inl e => ([], inl e)
      | inr (st', yielded) =>
          let '(out, r) :=
            get_typed_strings_from str_upper darwin allow_backspace st' rest in
          (yielded ++ out, r)
      end
  end.

(** [get_typed_strings(events, allow_backspace)]; [darwin] tells whether
    [platform.system()] is ['Darwin']. *)
Definition get_typed_strings (str_upper : string -> string) (darwin : bool)
    (events : list Event) (allow_backspace : bool) : list string * Res unit :=
  get_typed_strings_from str_upper darwin allow_backspace
    (mkTypedState false false "") events.

(** * Notions used to state the properties, and sample data *)

(** The verdict a collection of decisions stands for. *)
Definition strongest (ds : list Decision) : Decision :=
  if bool_decide (SUPPRESS ∈ ds) then SUPPRESS
  else if bool_decide (SUSPEND ∈ ds) then SUSPEND
  else ALLOW.

(** Closes an equation between closed terms by evaluating both sides. *)
Ltac by_evaluation :=
  lazymatch goal with
  | |- @eq ?A _ ?rhs => vm_cast_no_check (@eq_refl A rhs)
  end.

(** What a call of a hotkey hook's [process_event] leaves behind: the state,
    the suspended events, the answer as a list, and the callback's runs. *)
Definition outcome (r : Res (_HotkeyHook.t * Decisions * nat))
    : Res (Z * list Event * list (EventKey * Decision) * nat) :=
  '(h, decisions, calls) ← r;
  inr (_HotkeyHook.state h, _HotkeyHook.suspended_events h,
       map_to_list decisions, calls).

(** A platform in the style of the repository's tests: three modifier scan
    codes, a keyboard with the keys [a] (30), [b] (48) and a left and a right
    [ctrl] (29, 97), a few rows of the canonical names table, and a driver
    that echoes what it injects. *)
Definition sample_platform : Platform := {|
  _modifier_scan_codes := {[ 29; 97; 42 ]};
  map_name := fun name =>
    if String.eqb name "a" then Some [(30, [])]
    else if String.eqb name "b" then Some [(48, [])]
    else if String.eqb name "left ctrl" then Some [(29, [])]
    else if String.eqb name "right ctrl" then Some [(97, [])]
    else None;
  canonical_names := fun name =>
    if String.eqb name "control" then Some "ctrl"
    else if String.eqb name " " then Some "space"
    else if String.eqb name "nobreakspace" then Some " "
    else None;
  driver_echo := true;
|}.


Definition sample_event (event_type : EventType) (scan_code time : Z) : Event :=
  KeyboardEvent.mk event_type scan_code None time None [] None "".

(** A listener caught in the middle of a replay, with a hook that would
    suppress everything. *)
Definition replaying_listener : _KeyboardListener.t :=
  _KeyboardListener.mk {[ 30 ]} ∅ ∅ [] true
    [SimpleHook (_SimpleHook.mk (fun _ => RDecision SUPPRESS))] [] [].

(** Two listeners that differ at most in their logically pressed keys. *)
Definition same_but_logical (l l' : _KeyboardListener.t) : Prop :=
  _KeyboardListener.physically_pressed_keys l'
  = _KeyboardListener.physically_pressed_keys l
  /\ _KeyboardListener.active_modifiers l' = _KeyboardListener.active_modifiers l
  /\ _KeyboardListener.suspended_event_pairs l'
     = _KeyboardListener.suspended_event_pairs l
  /\ _KeyboardListener.is_replaying l' = _KeyboardListener.is_replaying l
  /\ _KeyboardListener.suppressing_hooks l' = _KeyboardListener.suppressing_hooks l
  /\ _KeyboardListener.nonsuppressing_hooks l'
     = _KeyboardListener.nonsuppressing_hooks l
  /\ _KeyboardListener.async_events_queue l' = _KeyboardListener.async_events_queue l.

(** Two listeners that differ at most in their logically pressed keys and
    their suspended events. *)
Definition same_but_resolved (l l' : _KeyboardListener.t) : Prop :=
  _KeyboardListener.physically_pressed_keys l'
  = _KeyboardListener.physically_pressed_keys l
  /\ _KeyboardListener.active_modifiers l' = _KeyboardListener.active_modifiers l
  /\ _KeyboardListener.is_replaying l' = _KeyboardListener.is_replaying l
  /\ _KeyboardListener.suppressing_hooks l' = _KeyboardListener.suppressing_hooks l
  /\ _KeyboardListener.nonsuppressing_hooks l'
     = _KeyboardListener.nonsuppressing_hooks l
  /\ _KeyboardListener.async_events_queue l' = _KeyboardListener.async_events_queue l.

(** A listener with one hook that suspends every event. *)
Definition suspending_listener : _KeyboardListener.t :=
  match hook _KeyboardListener.__init__ (fun _ => RDecision SUSPEND) true with
  | inr listener => listener
  | inl _ => _KeyboardListener.__init__
  end.

(** Hooks that answer every event, now and after any number of events, and
    whose decision for the event at hand is always ALLOW: some property of
    hooks holds of each of them, is kept by [process_event], and forces that
    answer. *)
Definition allow_only `{Platform} (hooks : list Hook) : Prop :=
  exists Inv : Hook -> Prop,
    Forall Inv hooks
    /\ forall h event physical logical mods,
         Inv h ->
         exists h' decisions calls,
           Hook_process_event h event physical logical mods
           = inr (h', decisions, calls)
           /\ Inv h'
           /\ get_decision decisions event = ALLOW.

(** A simple hook whose callback never asks to suspend or suppress is
    allow-only, and so is a key hook whose callback returns ALLOW. *)
Definition plainly_allows (h : Hook) : Prop :=
  match h with
  | SimpleHook s =>
      forall event, _SimpleHook.callback s event <> RDecision SUSPEND
                    /\ _SimpleHook.callback s event <> RDecision SUPPRESS
  | KeyHook k => _KeyHook.callback k = RDecision ALLOW
  | HotkeyHook _ => False
  end.

(** A listener with two allow-only hooks, as [hook] and [hook_key] register
    them. *)
Definition allowing_listener : _KeyboardListener.t :=
  match
    listener ← hook _KeyboardListener.__init__
                 (fun event =>
                    if KeyboardEvent.scan_code event =? 30 then RDecision ALLOW
                    else ROther) true;
    register listener (KeyHook (_KeyHook.mk [48] (RDecision ALLOW)))
      [IdValue (VInt 48); IdCallback] true
  with
  | inr listener => listener
  | inl _ => _KeyboardListener.__init__
  end.

(** Every step's keys have at least one scan code, as [Key.__init__]
    asserts. *)
Definition keys_have_scan_codes (hotkey : Hotkey.t) : Prop :=
  Forall (fun step => Forall (fun key => Key.scan_codes key <> []) (Step.keys step))
         (Hotkey.steps hotkey).

(** The entries of [t] under states below [i] are still in [t']. *)
Definition kept_below (i : Z) (t t' : gmap (Z * list Z) Z) : Prop :=
  forall k v, fst k < i -> t !! k = Some v -> t' !! k = Some v.

(** The hotkey [ctrl+a, b] on the sample platform. *)
Definition sample_hotkey : Hotkey.t :=
  let ctrl := Key.mk (VStr "ctrl") [29; 97] in
  let a := Key.mk (VStr "a") [30] in
  let b := Key.mk (VStr "b") [48] in
  Hotkey.mk [Step.mk [ctrl; a] [ctrl] true (Some a); Step.mk [b] [] true (Some b)].

(** Every value of the table is a state between 0 and [n]. *)
Definition in_range (n : Z) (t : gmap (Z * list Z) Z) : Prop :=
  map_Forall (fun _ v => 0 <= v <= n) t.

(** A step as [Step.__init__] builds it: a standard step has a main key. *)
Definition step_has_main_key (step : Step.t) : Prop :=
  Step.is_standard step = true -> is_Some (Step.main_key step).

(** The hook still matches the hotkey [hk], whose standard steps have a main
    key; its state and every state of its table lie between 0 and the number
    of steps of [hk]. *)
Definition hook_in_range (hk : Hotkey.t) (h : _HotkeyHook.t) : Prop :=
  _HotkeyHook.hotkey h = hk
  /\ Forall step_has_main_key (Hotkey.steps hk)
  /\ in_range (Z.of_nat (length (Hotkey.steps hk))) (_HotkeyHook.transitions h)
  /\ 0 <= _HotkeyHook.state h <= Z.of_nat (length (Hotkey.steps hk)).

Ltac hook_range :=
  unfold hook_in_range; cbn;
  split; [assumption|split; [assumption|split; [assumption|lia]]].

(** A sequence of calls to [process_event], each with the event and the
    three sets the listener passes, stopping at the first exception. *)
Fixpoint process_calls `{Platform} (h : _HotkeyHook.t)
    (calls : list (Event * gset Z * gset Z * gset Z)) : Res _HotkeyHook.t :=
  match calls with
  | [] => inr h
  | (event, physical, logical, mods) :: rest =>
      '(h', _, _) ← _HotkeyHook.process_event h event physical logical mods;
      process_calls h' rest
  end.

(** [ctrl+a, b] typed on the sample platform: left ctrl down, [a] down and
    up, ctrl up, [b] down. *)
Definition sample_calls : list (Event * gset Z * gset Z * gset Z) :=
  [ (sample_event KEY_DOWN 29 10, {[ 29 ]}, ∅, {[ 29 ]});
    (sample_event KEY_DOWN 30 12, {[ 29; 30 ]}, {[ 29 ]}, {[ 29 ]});
    (sample_event KEY_UP 30 14, {[ 29 ]}, {[ 29 ]}, {[ 29 ]});
    (sample_event KEY_UP 29 16, ∅, {[ 29 ]}, ∅);
    (sample_event KEY_DOWN 48 18, {[ 48 ]}, ∅, ∅) ].

(** [max(e.time for e in suspended_events)], when there is a suspended
    event. *)
Definition latest_time (suspended_events : list Event) : option Z :=
  match KeyboardEvent.time <$> suspended_events with
  | [] => None
  | t0 :: ts => Some (foldl Z.max t0 ts)
  end.

(** The hook with its state forced to 0 and its suspended events cleared. *)
Definition cleared (h : _HotkeyHook.t) : _HotkeyHook.t :=
  _HotkeyHook.mk (_HotkeyHook.callback h) (_HotkeyHook.hotkey h)
    (_HotkeyHook.timeout h) (_HotkeyHook.trigger_on_release h)
    (_HotkeyHook.transitions h) 0 [] (_HotkeyHook.scan_code_releases_to_suppress h).

(** The hotkey [a, b], and its hook with a timeout of one tick, after [a]
    went down at time 0. *)
Definition two_step_hotkey : Hotkey.t :=
  let a := Key.mk (VStr "a") [30] in
  let b := Key.mk (VStr "b") [48] in
  Hotkey.mk [Step.mk [a] [] true (Some a); Step.mk [b] [] true (Some b)].

Definition a_pressed_hook : _HotkeyHook.t :=
  _HotkeyHook.mk ROther two_step_hotkey 1 false
    (<[(0, [30]) := 1]> (<[(1, [30]) := 1]> (<[(1, [48]) := 2]> ∅)))
    1 [sample_event KEY_DOWN 30 0] ∅.

(** The chord [a+b] (not a standard step), its hook with a timeout of one
    tick, after [a] went down at time 0. *)
Definition chord_hotkey : Hotkey.t :=
  Hotkey.mk [Step.mk [Key.mk (VStr "a") [30]; Key.mk (VStr "b") [48]] [] false None].

Definition chord_a_pressed_hook : _HotkeyHook.t :=
  _HotkeyHook.mk ROther chord_hotkey 1 false (<[(0, [30; 48]) := 1]> ∅)
    0 [sample_event KEY_DOWN 30 0] ∅.





(** The event the driver reports for the key named [nobreakspace]: its name
    is normalised to a single space by the canonical names table. *)
Definition nobreakspace_event : Event :=
  KeyboardEvent.mk KEY_DOWN 57 (Some " ") 5 None [] None "".

(** What the suppressing hooks answer when the listener hands them an event:
    the list of their decisions, or the exception one of them raises. *)
Definition hooks_answers `{Platform} (l : _KeyboardListener.t) (event : Event)
    : Res (list Decisions) :=
  let l0 := _KeyboardListener.note_event l event in
  snd (_KeyboardListener.run_hooks (_KeyboardListener.suppressing_hooks l0) event
         (_KeyboardListener.physically_pressed_keys l0)
         (_KeyboardListener.logically_pressed_keys l0)
         (_KeyboardListener.active_modifiers l0)).

(** The merged decision of the given answers for an event. *)
Definition verdict_of (answers : list Decisions) (event : Event) : Decision :=
  strongest ((fun a => get_decision a event) <$> answers).

(** Whether the merged decision for the event of a suspended pair is SUSPEND,
    and whether it is ALLOW. *)
Definition stays_suspended (answers : list Decisions) (pair : Event * gset Z)
    : Prop :=
  verdict_of answers (fst pair) = SUSPEND.

Definition allowed_now (answers : list Decisions) (pair : Event * gset Z)
    : Prop :=
  verdict_of answers (fst pair) = ALLOW.

#[global] Instance stays_suspended_dec (answers : list Decisions)
    (pair : Event * gset Z) : base.Decision (stays_suspended answers pair) :=
  Decision_eq_dec _ _.

#[global] Instance allowed_now_dec (answers : list Decisions)
    (pair : Event * gset Z) : base.Decision (allowed_now answers pair) :=
  Decision_eq_dec _ _.

#[global] Typeclasses Opaque stays_suspended allowed_now.

(** The injection that replays a suspended event. *)
Definition replayed (pair : Event * gset Z) : _KeyboardListener.Output :=
  _KeyboardListener.Injected (KeyboardEvent.event_type (fst pair))
                             (KeyboardEvent.scan_code (fst pair)).





(** The active modifiers are the pressed keys that are modifiers. *)
Definition modifiers_consistent `{Platform} (l : _KeyboardListener.t) : Prop :=
  _KeyboardListener.active_modifiers l
  = _KeyboardListener.physically_pressed_keys l ∩ _modifier_scan_codes.

(** The pressed keys after an event of the given type and scan code. *)
Definition pressed_after (event : Event) (keys : gset Z) : gset Z :=
  match KeyboardEvent.event_type event with
  | KEY_DOWN => keys ∪ {[ KeyboardEvent.scan_code event ]}
  | KEY_UP => keys ∖ {[ KeyboardEvent.scan_code event ]}
  end.

(** A listener that holds two suspended events and has no suppressing hook
    left. *)
Definition orphaned_listener : _KeyboardListener.t :=
  _KeyboardListener.mk {[ 30 ]} ∅ ∅
    [(sample_event KEY_DOWN 30 1, ∅); (sample_event KEY_UP 30 2, {[ 29 ]})]
    false [] [] [].


(** A listener whose only hook is a hotkey hook over a hotkey with no step:
    the hook raises on every event. *)
Definition raising_listener : _KeyboardListener.t :=
  _KeyboardListener.mk ∅ ∅ ∅ [] false
    [HotkeyHook (_HotkeyHook.mk ROther (Hotkey.mk []) 1 false ∅ 0 [] ∅)] [] [].

(** What reading the table under a key gives: the stored state, or the
    default 0. *)
Definition table_read (transitions : gmap (Z * list Z) Z) (k : Z * list Z) : Z :=
  snd (dd_get transitions k).

(** Two hooks with the same callback, hotkey, timeout and trigger mode, and
    whose tables read the same under every key. *)
Definition same_settings (h h' : _HotkeyHook.t) : Prop :=
  _HotkeyHook.callback h' = _HotkeyHook.callback h
  /\ _HotkeyHook.hotkey h' = _HotkeyHook.hotkey h
  /\ _HotkeyHook.timeout h' = _HotkeyHook.timeout h
  /\ _HotkeyHook.trigger_on_release h' = _HotkeyHook.trigger_on_release h
  /\ forall k, table_read (_HotkeyHook.transitions h') k
               = table_read (_HotkeyHook.transitions h) k.

(** A hook as [add_hotkey] builds it over a hotkey whose keys have scan
    codes, after any number of calls to [process_event]. *)
Definition reachable `{Platform} (hk : Hotkey.t) (h : _HotkeyHook.t) : Prop :=
  keys_have_scan_codes hk
  /\ exists timeout trigger_on_release callback h0 calls,
       _HotkeyHook.__init__ hk timeout trigger_on_release callback = inr h0
       /\ process_calls h0 calls = inr h.

(** The table sends every chord of every step to the next state. *)
Definition table_advances (hk : Hotkey.t) (t : gmap (Z * list Z) Z) : Prop :=
  forall (i : nat) step chord,
    Hotkey.steps hk !! i = Some step ->
    chord ∈ product (Key.scan_codes <$> Step.keys step) ->
    t !! (Z.of_nat i, sorted chord) = Some (Z.of_nat i + 1).

(** The tuple of scan codes [process_event] looks up for an event: the key
    and the active modifiers for a standard step, the pressed keys
    otherwise. *)
Definition input_scan_codes (step : Step.t) (event : Event)
    (physically_pressed_keys active_modifiers : gset Z) : list Z :=
  if Step.is_standard step
  then sorted (KeyboardEvent.scan_code event :: elements active_modifiers)
  else sorted (elements physically_pressed_keys).

(** How many times a character occurs in a string. *)
Fixpoint count_char (c : ascii) (s : list ascii) : nat :=
  match s with
  | [] => 0
  | x :: rest => (if Ascii.eqb x c then 1 else 0) + count_char c rest
  end.

Definition occurrences (c : ascii) (s : string) : nat :=
  count_char c (String.list_ascii_of_string s).

(** The number of keys of a hotkey, over all its steps. *)
Definition number_of_keys (hotkey : Hotkey.t) : nat :=
  sum_list (length ∘ Step.keys <$> Hotkey.steps hotkey).

(** The scan codes [send] uses for the keys of a step: the first one of each
    key (0 stands for a key without scan codes, which no parsed hotkey
    has). *)
Definition first_scan_codes (step : Step.t) : list Z :=
  (fun key => default 0 (head (Key.scan_codes key))) <$> Step.keys step.

(** The keys held down after a sequence of calls to the driver. *)
Definition held_after (calls : list OsCall) (held : gset Z) : gset Z :=
  foldl (fun held call =>
           match call with
           | OsPress c => held ∪ {[ c ]}
           | OsRelease c => held ∖ {[ c ]}
           end) held calls.

(** The text a key stands for in [get_typed_strings]: a space for the key
    named [space], the name itself when it is one character. *)
Definition char_of_key_name (name : string) : option string :=
  if String.eqb name "space" then Some " "
  else if bool_decide (str_len name = 1%nat) then Some name
  else None.

(** The character an event types, if its key is a character key. *)
Definition typed_char (event : Event) : option string :=
  KeyboardEvent.name event ≫= char_of_key_name.

(** The characters of the key-down events of a sequence. *)
Definition pressed_chars (events : list Event) : list string :=
  omap typed_char
       (filter (fun e => KeyboardEvent.event_type e = KEY_DOWN) events).

(** The strings of a list, one after the other. *)
Definition joined (l : list string) : string := foldr String.append "" l.

(** A well-formed character: its first byte is no continuation byte. *)
Definition starts_character (c : string) : bool :=
  match c with
  | EmptyString => false
  | String byte _ => negb (is_continuation byte)
  end.

(** An event with the given type, name and time. *)
Definition named_event (event_type : EventType) (name : string) (time : Z)
    : Event :=
  KeyboardEvent.mk event_type 0 (Some name) time None [] None "".

(** The hook [add_hotkey] builds for a scan code that is no modifier: one
    standard step with the key alone, the table that leads from 0 to 1 on
    the key, state 0 and nothing suspended; [releases] are the releases it
    is yet to suppress. *)
Definition bare_key_hook (sc timeout : Z) (callback : CallbackResult)
    (releases : gset Z) : _HotkeyHook.t :=
  _HotkeyHook.mk callback
    (Hotkey.mk [Step.mk [Key.mk (VInt sc) [sc]] [] true
                  (Some (Key.mk (VInt sc) [sc]))])
    timeout false (<[(0, [sc]) := 1]> ∅) 0 [] releases.

(** A sequence of taps of one key: a press and a release, again and
    again. *)
Fixpoint taps (sc : Z) (events : list Event) : Prop :=
  match events with
  | [] => True
  | down :: rest =>
      match rest with
      | up :: rest' =>
          KeyboardEvent.scan_code down = sc
          /\ KeyboardEvent.event_type down = KEY_DOWN
          /\ KeyboardEvent.scan_code up = sc
          /\ KeyboardEvent.event_type up = KEY_UP
          /\ taps sc rest'
      | [] => False
      end
  end.

(** A listener whose only hook is the idle hook of a bare-key hotkey, with
    nothing suspended, no key logically pressed and no modifier active. *)
Definition idle_bare_key_listener (sc timeout : Z) (callback : CallbackResult)
    (l : _KeyboardListener.t) : Prop :=
  _KeyboardListener.suppressing_hooks l
  = [HotkeyHook (bare_key_hook sc timeout callback ∅)]
  /\ _KeyboardListener.suspended_event_pairs l = []
  /\ _KeyboardListener.is_replaying l = false
  /\ _KeyboardListener.logically_pressed_keys l = ∅
  /\ _KeyboardListener.active_modifiers l = ∅.

(** Whether a callback returns ALLOW. *)
Definition returns_allow (callback : CallbackResult) : bool :=
  match callback with
  | RDecision ALLOW => true
  | _ => false
  end.

(** Whether a key hook on the scan code [sc] lets an event through: always
    when its callback returns ALLOW, else only for the other keys. *)
Definition key_hook_allows (sc : Z) (callback : CallbackResult) (event : Event)
    : bool :=
  match callback with
  | RDecision ALLOW => true
  | _ => negb (bool_decide (KeyboardEvent.scan_code event = sc))
  end.

(** A hook that keeps no state between events: a simple hook or a key
    hook. *)
Definition stateless (h : Hook) : Prop :=
  match h with
  | HotkeyHook _ => False
  | _ => True
  end.

(** A listener that holds two suspended events and one simple hook that
    allows everything. *)
Definition released_listener : _KeyboardListener.t :=
  _KeyboardListener.mk {[ 30 ]} ∅ ∅
    [(sample_event KEY_DOWN 30 1, ∅); (sample_event KEY_UP 30 2, ∅)]
    false [SimpleHook (_SimpleHook.mk (fun _ => ROther))] [] [].

(** A listener with its suppressing hooks left out: what is left to compare
    in two listeners that hold the same hooks in different orders. *)
Definition without_hooks (l : _KeyboardListener.t) : _KeyboardListener.t :=
  _KeyboardListener.set_suppressing_hooks l [].

(** A listener with a simple hook that suspends the key 30 and a key hook
    that suppresses the key 48, and the same with the hooks in the other
    order. *)
Definition two_hooks_listener : _KeyboardListener.t :=
  _KeyboardListener.mk ∅ ∅ ∅ [(sample_event KEY_DOWN 30 1, ∅)] false
    [SimpleHook (_SimpleHook.mk (fun e =>
       if KeyboardEvent.scan_code e =? 30 then RDecision SUSPEND else ROther));
     KeyHook (_KeyHook.mk [48] ROther)] [] [].

Definition two_hooks_listener_swapped : _KeyboardListener.t :=
  _KeyboardListener.mk ∅ ∅ ∅ [(sample_event KEY_DOWN 30 1, ∅)] false
    [KeyHook (_KeyHook.mk [48] ROther);
     SimpleHook (_SimpleHook.mk (fun e =>
       if KeyboardEvent.scan_code e =? 30 then RDecision SUSPEND else ROther))]
    [] [].

(** * Properties *)

(** ** Decision merge *)

Lemma max2_n (a b : Decision) :
  _Enum.n (_Enum.max2 a b) = Z.max (_Enum.n a) (_Enum.n b).
Proof. destruct a, b; reflexivity. Qed.

Lemma max2_comm (a b : Decision) : _Enum.max2 a b = _Enum.max2 b a.
Proof. destruct a, b; reflexivity. Qed.

Lemma max2_assoc (a b c : Decision) :
  _Enum.max2 a (_Enum.max2 b c) = _Enum.max2 (_Enum.max2 a b) c.
Proof. destruct a, b, c; reflexivity. Qed.

Lemma bool_decide_elem_of_cons (x d : Decision) (ds : list Decision) :
  bool_decide (x ∈ d :: ds) = bool_decide (x = d) || bool_decide (x ∈ ds).
Proof. rewrite <- bool_decide_or. apply bool_decide_ext, elem_of_cons. Qed.

Lemma strongest_cons (d : Decision) (ds : list Decision) :
  strongest (d :: ds) = _Enum.max2 d (strongest ds).
Proof.
  unfold strongest. rewrite !bool_decide_elem_of_cons.
  destruct d, (bool_decide (SUPPRESS ∈ ds)), (bool_decide (SUSPEND ∈ ds));
    reflexivity.
Qed.

Lemma max_strongest (rest : list Decision) (first : Decision) :
  _Enum.max first rest = strongest (first :: rest).
Proof.
  unfold _Enum.max. revert first.
  induction rest as [|d rest IH]; intros first.
  - destruct first; reflexivity.
  - cbn [foldl]. rewrite IH, !strongest_cons.
    apply eq_sym, max2_assoc.
Qed.

Lemma or_empty_dict_decisions (hooks_decisions : list Decisions) (event : Event) :
  strongest ((fun d => get_decision d event) <$> or_empty_dict hooks_decisions)
  = strongest ((fun d => get_decision d event) <$> hooks_decisions).
Proof. destruct hooks_decisions; reflexivity. Qed.

Lemma merged_decision_strongest (hooks_decisions : list Decisions) (event : Event) :
  merged_decision (or_empty_dict hooks_decisions) event
  = inr (strongest ((fun d => get_decision d event) <$> hooks_decisions)).
Proof.
  rewrite <- or_empty_dict_decisions. unfold merged_decision.
  destruct hooks_decisions as [|d ds]; cbn [or_empty_dict fmap list_fmap].
  - reflexivity.
  - now rewrite max_strongest.
Qed.

(** C2. Merging the decisions of several hooks takes their maximum in the
    order ALLOW(0) < SUSPEND(1) < SUPPRESS(2). The binary merge is commutative
    and associative; over any collection of hook answers the merge is SUPPRESS
    when some hook says SUPPRESS for the event, else SUSPEND when some hook
    says SUSPEND, else ALLOW; a hook with no entry for the event counts as
    ALLOW. *)
Theorem decision_merge_is_maximum :
  (forall a b, _Enum.n (_Enum.max2 a b) = Z.max (_Enum.n a) (_Enum.n b))
  /\ (forall a b, _Enum.max2 a b = _Enum.max2 b a)
  /\ (forall a b c,
        _Enum.max2 a (_Enum.max2 b c) = _Enum.max2 (_Enum.max2 a b) c)
  /\ (forall (decisions : Decisions) (event : Event),
        decisions !! KeyboardEvent.key event = None ->
        get_decision decisions event = ALLOW)
  /\ (forall (hooks_decisions : list Decisions) (event : Event),
        merged_decision (or_empty_dict hooks_decisions) event
        = inr (if bool_decide (Exists (fun d => get_decision d event = SUPPRESS)
                                 hooks_decisions)
               then SUPPRESS
               else if bool_decide (Exists (fun d => get_decision d event = SUSPEND)
                                      hooks_decisions)
               then SUSPEND
               else ALLOW)).
Proof.
  split; [exact max2_n|].
  split; [exact max2_comm|].
  split; [exact max2_assoc|].
  split.
  - intros decisions event Hnone. unfold get_decision. now rewrite Hnone.
  - intros hooks_decisions event.
    rewrite merged_decision_strongest. unfold strongest. f_equal.
    assert (Hin : forall x, x ∈ (fun d => get_decision d event) <$> hooks_decisions
                  <-> Exists (fun d => get_decision d event = x) hooks_decisions).
    { intros x. rewrite list_elem_of_fmap, Exists_exists.
      split.
      - intros (d & -> & Hd). exists d. split; [exact Hd|reflexivity].
      - intros (d & Hd & <-). exists d. split; [reflexivity|exact Hd]. }
    now rewrite (bool_decide_ext _ _ (Hin SUPPRESS)),
                (bool_decide_ext _ _ (Hin SUSPEND)).
Qed.

(** ** Simple hooks and key hooks *)

Lemma simple_hook_process_event (h : _SimpleHook.t) (event : Event) :
  _SimpleHook.process_event h event
  = ({[ KeyboardEvent.key event :=
          match _SimpleHook.callback h event with
          | RDecision d => d
          | ROther => ALLOW
          end ]}, 1%nat).
Proof. reflexivity. Qed.

(** C5, as the code has it. A key hook runs its callback exactly when the
    event's scan code is among its scan codes. It then answers with the
    callback's result when that is ALLOW or SUPPRESS, and with SUPPRESS for
    any other result (SUSPEND included); for any other scan code the callback
    is not run and the answer is ALLOW. The answer has an entry for the event
    alone. *)
Theorem key_hook_process_event (h : _KeyHook.t) (event : Event) :
  let '(decisions, calls) := _KeyHook.process_event h event in
  dom decisions = {[ KeyboardEvent.key event ]}
  /\ (calls = 1%nat <-> KeyboardEvent.scan_code event ∈ _KeyHook.scan_codes h)
  /\ (calls = 0%nat <-> KeyboardEvent.scan_code event ∉ _KeyHook.scan_codes h)
  /\ get_decision decisions event
     = if bool_decide (KeyboardEvent.scan_code event ∈ _KeyHook.scan_codes h)
       then match _KeyHook.callback h with
            | RDecision ALLOW => ALLOW
            | RDecision SUPPRESS => SUPPRESS
            | RDecision SUSPEND => SUPPRESS
            | ROther => SUPPRESS
            end
       else ALLOW.
Proof.
  unfold _KeyHook.process_event, get_decision.
  destruct (decide (KeyboardEvent.scan_code event ∈ _KeyHook.scan_codes h))
    as [Hin|Hout].
  - rewrite !(bool_decide_eq_true_2 _ Hin).
    rewrite dom_singleton_L, lookup_singleton_eq. cbn.
    split; [reflexivity|]. split; [tauto|]. split; [split; [discriminate|tauto]|].
    destruct (_KeyHook.callback h) as [[]|]; reflexivity.
  - rewrite !(bool_decide_eq_false_2 _ Hout).
    rewrite dom_singleton_L, lookup_singleton_eq. cbn.
    split; [reflexivity|]. split; [split; [discriminate|tauto]|].
    split; [tauto|reflexivity].
Qed.

(** C5, the claim as stated fails: a key hook whose callback returns no
    decision (here [None]) answers SUPPRESS for its key, not ALLOW. *)
Lemma key_hook_other_result_suppresses :
  let h := _KeyHook.mk [30] ROther in
  let event := sample_event KEY_DOWN 30 0 in
  _KeyHook.process_event h event = ({[ KeyboardEvent.key event := SUPPRESS ]}, 1%nat)
  /\ get_decision (fst (_KeyHook.process_event h event)) event <> ALLOW.
Proof. split; [reflexivity|]. vm_compute. discriminate. Qed.

(** ** The replaying guard *)

(** C4, as the code has it. While [is_replaying] is set, [process_sync_event]
    returns True at once: no hook runs, nothing is injected, and the physically
    pressed keys, the active modifiers, the suspended list, the async queue and
    the guard itself are unchanged. The logically pressed keys do change: the
    scan code is added on a key down and discarded on a key up. *)
Theorem replaying_event_is_allowed `{Platform} (l : _KeyboardListener.t)
    (event : Event) :
  _KeyboardListener.is_replaying l = true ->
  exists l',
    _KeyboardListener.process_sync_event l event = (l', [], inr true)
    /\ _KeyboardListener.physically_pressed_keys l'
       = _KeyboardListener.physically_pressed_keys l
    /\ _KeyboardListener.active_modifiers l' = _KeyboardListener.active_modifiers l
    /\ _KeyboardListener.suspended_event_pairs l'
       = _KeyboardListener.suspended_event_pairs l
    /\ _KeyboardListener.async_events_queue l'
       = _KeyboardListener.async_events_queue l
    /\ _KeyboardListener.suppressing_hooks l' = _KeyboardListener.suppressing_hooks l
    /\ _KeyboardListener.nonsuppressing_hooks l'
       = _KeyboardListener.nonsuppressing_hooks l
    /\ _KeyboardListener.is_replaying l' = true
    /\ _KeyboardListener.logically_pressed_keys l'
       = match KeyboardEvent.event_type event with
         | KEY_DOWN => _KeyboardListener.logically_pressed_keys l
                       ∪ {[ KeyboardEvent.scan_code event ]}
         | KEY_UP => _KeyboardListener.logically_pressed_keys l
                     ∖ {[ KeyboardEvent.scan_code event ]}
         end.
Proof.
  intros Hreplaying.
  exists (_KeyboardListener.allow_event l (KeyboardEvent.event_type event)
            (KeyboardEvent.scan_code event)).
  unfold _KeyboardListener.process_sync_event. rewrite Hreplaying.
  cbn. repeat split; try reflexivity. exact Hreplaying.
Qed.

Lemma replaying_event_is_allowed_witness :
  exists l',
    @_KeyboardListener.process_sync_event sample_platform replaying_listener
      (sample_event KEY_DOWN 30 7) = (l', [], inr true)
    /\ _KeyboardListener.physically_pressed_keys l' = {[ 30 ]}
    /\ _KeyboardListener.logically_pressed_keys l' = ∅ ∪ {[ 30 ]}.
Proof.
  destruct (@replaying_event_is_allowed sample_platform replaying_listener
              (sample_event KEY_DOWN 30 7) eq_refl)
    as (l' & Hrun & Hphys & _ & _ & _ & _ & _ & _ & Hlog).
  exists l'. split; [exact Hrun|]. split; [exact Hphys|exact Hlog].
Defined.

(** C4, the claim as stated fails: an event processed under the replaying
    guard does change the listener, namely its logically pressed keys. *)
Lemma replaying_event_changes_logical_keys :
  let l' := fst (fst (@_KeyboardListener.process_sync_event sample_platform
                        replaying_listener (sample_event KEY_DOWN 30 7))) in
  _KeyboardListener.logically_pressed_keys l'
  <> _KeyboardListener.logically_pressed_keys replaying_listener
  /\ 30 ∈ _KeyboardListener.logically_pressed_keys l'.
Proof.
  cbn. split.
  - intros Heq. assert (Hin : 30 ∈ (∅ : gset Z)) by (rewrite <- Heq; set_solver).
    set_solver.
  - set_solver.
Qed.

(** ** [list.remove] on an item taken from the list *)

Section ListRemove.
Context {A K : Type} `{EqDecision K} (key : A -> K).

Lemma list_remove_Permutation (x : A) (l l' : list A) :
  list_remove key x l = inr l' -> key <$> l ≡ₚ key x :: (key <$> l').
Proof.
  revert l'. induction l as [|y l IH]; intros l'; cbn [list_remove].
  - discriminate.
  - destruct (decide (key y = key x)) as [Heq|Hne].
    + intros [= <-]. cbn. now rewrite Heq.
    + destruct (list_remove key x l) as [e|rest] eqn:Hrest; [discriminate|].
      intros [= <-]. cbn. rewrite (IH rest eq_refl). apply Permutation_swap.
Qed.

Lemma list_remove_elem_of (x : A) (l : list A) :
  key x ∈ key <$> l -> exists l', list_remove key x l = inr l'.
Proof.
  induction l as [|y l IH]; cbn [list_remove fmap list_fmap].
  - intros Hin. now apply elem_of_nil in Hin.
  - intros Hin. destruct (decide (key y = key x)) as [Heq|Hne]; [eauto|].
    apply elem_of_cons in Hin as [Hin|Hin]; [congruence|].
    destruct (IH Hin) as [l' ->]. eauto.
Qed.

(** An item of a list that is still owed to be removed can be removed, and
    what remains still holds the other items owed. *)
Lemma list_remove_submseteq (x : A) (ks : list K) (l : list A) :
  key x :: ks ⊆+ key <$> l ->
  exists l', list_remove key x l = inr l' /\ ks ⊆+ key <$> l'.
Proof.
  intros Hsub.
  destruct (list_remove_elem_of x l) as [l' Hl'].
  { eapply elem_of_submseteq; [apply list_elem_of_here|exact Hsub]. }
  exists l'. split; [exact Hl'|].
  rewrite (list_remove_Permutation _ _ _ Hl') in Hsub.
  now apply (submseteq_app_inv_l _ _ [key x]).
Qed.

End ListRemove.

(** ** Frame properties of the listener's replay machinery *)

Lemma same_but_logical_refl (l : _KeyboardListener.t) : same_but_logical l l.
Proof. repeat split. Qed.

Lemma same_but_logical_trans (l1 l2 l3 : _KeyboardListener.t) :
  same_but_logical l1 l2 -> same_but_logical l2 l3 -> same_but_logical l1 l3.
Proof.
  unfold same_but_logical.
  intros (?&?&?&?&?&?&?) (?&?&?&?&?&?&?). repeat split; congruence.
Qed.

Lemma same_but_resolved_refl (l : _KeyboardListener.t) : same_but_resolved l l.
Proof. repeat split. Qed.

Lemma same_but_resolved_trans (l1 l2 l3 : _KeyboardListener.t) :
  same_but_resolved l1 l2 -> same_but_resolved l2 l3 -> same_but_resolved l1 l3.
Proof.
  unfold same_but_resolved.
  intros (?&?&?&?&?&?) (?&?&?&?&?&?). repeat split; congruence.
Qed.

Lemma same_but_logical_resolved (l l' : _KeyboardListener.t) :
  same_but_logical l l' -> same_but_resolved l l'.
Proof. unfold same_but_logical, same_but_resolved. tauto. Qed.

Section ListenerFrames.
Context `{Platform}.

Lemma os_inject_frame (l : _KeyboardListener.t) (event_type : EventType)
    (scan_code : Z) :
  same_but_logical l (fst (_KeyboardListener.os_inject l event_type scan_code))
  /\ snd (_KeyboardListener.os_inject l event_type scan_code)
     = [_KeyboardListener.Injected event_type scan_code].
Proof.
  unfold _KeyboardListener.os_inject. destruct driver_echo; cbn.
  - split; [repeat split|reflexivity].
  - split; [apply same_but_logical_refl|reflexivity].
Qed.

Lemma os_inject_all_foldl_frame (event_type : EventType) (scan_codes : list Z)
    (l : _KeyboardListener.t) (out : list _KeyboardListener.Output) :
  let r := foldl (fun '(l, out) sc =>
                    let '(l', out') :=
                      _KeyboardListener.os_inject l event_type sc in
                    (l', out ++ out'))
                 (l, out) scan_codes in
  same_but_logical l (fst r)
  /\ snd r = out ++ (_KeyboardListener.Injected event_type <$> scan_codes).
Proof.
  revert l out. induction scan_codes as [|sc scs IH]; intros l out; cbn [foldl].
  - cbn. split; [apply same_but_logical_refl|now rewrite app_nil_r].
  - destruct (os_inject_frame l event_type sc) as [Hframe Hout].
    destruct (_KeyboardListener.os_inject l event_type sc) as [l1 out1].
    cbn [fst snd] in Hframe, Hout. subst out1.
    destruct (IH l1 (out ++ [_KeyboardListener.Injected event_type sc]))
      as [Hframe' Hout'].
    split.
    + eapply same_but_logical_trans; [exact Hframe|exact Hframe'].
    + rewrite Hout'. cbn [fmap list_fmap]. now rewrite <- app_assoc.
Qed.

Lemma os_inject_all_frame (l : _KeyboardListener.t) (event_type : EventType)
    (scan_codes : list Z) :
  same_but_logical l (fst (_KeyboardListener.os_inject_all l event_type scan_codes))
  /\ snd (_KeyboardListener.os_inject_all l event_type scan_codes)
     = (_KeyboardListener.Injected event_type <$> scan_codes).
Proof.
  unfold _KeyboardListener.os_inject_all.
  apply (os_inject_all_foldl_frame event_type scan_codes l []).
Qed.

Lemma replay_frame (l : _KeyboardListener.t) (temp : gset Z) (event : Event)
    (mods : gset Z) :
  same_but_logical l (fst (fst (_KeyboardListener.replay l temp event mods))).
Proof.
  unfold _KeyboardListener.replay.
  destruct (os_inject_all_frame l KEY_UP (elements (temp ∖ mods))) as [F1 _].
  destruct (_KeyboardListener.os_inject_all l KEY_UP _) as [l1 out1].
  destruct (os_inject_all_frame l1 KEY_DOWN
              (elements (mods ∖ (temp ∩ mods)))) as [F2 _].
  destruct (_KeyboardListener.os_inject_all l1 KEY_DOWN _) as [l2 out2].
  destruct (os_inject_frame l2 (KeyboardEvent.event_type event)
              (KeyboardEvent.scan_code event)) as [F3 _].
  destruct (_KeyboardListener.os_inject l2 _ _) as [l3 out3].
  cbn [fst snd] in *.
  eapply same_but_logical_trans; [exact F1|].
  eapply same_but_logical_trans; [exact F2|exact F3].
Qed.

End ListenerFrames.

(** ** Suspension *)

Section Suspension.
Context `{Platform}.

Lemma remove_pair_submseteq (l : _KeyboardListener.t) (pair : Event * gset Z)
    (ks : list (EventKey * gset Z)) :
  _KeyboardListener.pair_key pair :: ks
    ⊆+ _KeyboardListener.pair_key <$> _KeyboardListener.suspended_event_pairs l ->
  exists l',
    _KeyboardListener.remove_pair l pair = inr l'
    /\ same_but_resolved l l'
    /\ ks ⊆+ _KeyboardListener.pair_key <$> _KeyboardListener.suspended_event_pairs l'.
Proof.
  intros Hsub. unfold _KeyboardListener.remove_pair.
  destruct (list_remove_submseteq _ _ _ _ Hsub) as (pairs' & -> & Hsub').
  eexists. split; [reflexivity|]. split; [repeat split|exact Hsub'].
Qed.

(** The loop over the suspended events never raises, and touches nothing but
    the suspended list and the logically pressed keys. *)
Lemma resolve_suspended_ok (answers : list Decisions)
    (pairs : list (Event * gset Z)) :
  forall (l : _KeyboardListener.t) (temp : gset Z)
         (out : list _KeyboardListener.Output),
    _KeyboardListener.pair_key <$> pairs
      ⊆+ _KeyboardListener.pair_key <$> _KeyboardListener.suspended_event_pairs l ->
    exists l' temp' out',
      _KeyboardListener.resolve_suspended (or_empty_dict answers) pairs l temp out
      = (l', temp', out', inr ())
      /\ same_but_resolved l l'.
Proof.
  induction pairs as [|[se sm] rest IH]; intros l temp out Hsub.
  - cbn. eexists _, _, _. split; [reflexivity|apply same_but_resolved_refl].
  - cbn [_KeyboardListener.resolve_suspended].
    rewrite merged_decision_strongest.
    destruct (strongest _).
    + pose proof (replay_frame l temp se sm) as Hframe.
      destruct (_KeyboardListener.replay l temp se sm) as [[l1 temp1] out1].
      cbn [fst] in Hframe.
      assert (Hsub1 : _KeyboardListener.pair_key (se, sm)
                        :: (_KeyboardListener.pair_key <$> rest)
                      ⊆+ _KeyboardListener.pair_key
                           <$> _KeyboardListener.suspended_event_pairs l1).
      { destruct Hframe as (_ & _ & Hpairs & _). rewrite Hpairs. exact Hsub. }
      destruct (remove_pair_submseteq l1 (se, sm) _ Hsub1)
        as (l2 & -> & F2 & Hsub2).
      destruct (IH l2 temp1 (out ++ out1) Hsub2) as (l' & temp' & out' & -> & F').
      eexists _, _, _. split; [reflexivity|].
      eapply same_but_resolved_trans; [|exact F'].
      eapply same_but_resolved_trans; [|exact F2].
      now apply same_but_logical_resolved.
    + assert (Hsub1 : _KeyboardListener.pair_key <$> rest
                      ⊆+ _KeyboardListener.pair_key
                           <$> _KeyboardListener.suspended_event_pairs l).
      { etrans; [|exact Hsub]. cbn. apply submseteq_cons. reflexivity. }
      destruct (IH l temp out Hsub1) as (l' & temp' & out' & -> & F').
      eexists _, _, _. split; [reflexivity|exact F'].
    + destruct (remove_pair_submseteq l (se, sm) _ Hsub)
        as (l2 & -> & F2 & Hsub2).
      destruct (IH l2 temp out Hsub2) as (l' & temp' & out' & -> & F').
      eexists _, _, _. split; [reflexivity|].
      eapply same_but_resolved_trans; [exact F2|exact F'].
Qed.

(** What [run_sync_hooks] does once every hook has answered. *)
Lemma run_sync_hooks_answered (l : _KeyboardListener.t) (event : Event)
    (hooks' : list Hook) (answers : list Decisions) :
  _KeyboardListener.run_hooks (_KeyboardListener.suppressing_hooks l) event
    (_KeyboardListener.physically_pressed_keys l)
    (_KeyboardListener.logically_pressed_keys l)
    (_KeyboardListener.active_modifiers l) = (hooks', inr answers) ->
  let d := strongest ((fun a => get_decision a event) <$> answers) in
  exists l5 out,
    _KeyboardListener.run_sync_hooks l event
    = (match d with
       | SUSPEND =>
           _KeyboardListener.set_suspended_event_pairs l5
             (_KeyboardListener.suspended_event_pairs l5
              ++ [(event, _KeyboardListener.active_modifiers l)])
       | _ => l5
       end, out,
       inr match d with
           | ALLOW => ALLOW
           | _ => SUPPRESS
           end)
    /\ _KeyboardListener.physically_pressed_keys l5
       = _KeyboardListener.physically_pressed_keys l
    /\ _KeyboardListener.active_modifiers l5 = _KeyboardListener.active_modifiers l
    /\ _KeyboardListener.is_replaying l5 = false
    /\ _KeyboardListener.suppressing_hooks l5 = hooks'
    /\ _KeyboardListener.async_events_queue l5
       = _KeyboardListener.async_events_queue l.
Proof.
  intros Hrun d. unfold _KeyboardListener.run_sync_hooks. rewrite Hrun.
  set (l0 := _KeyboardListener.set_suppressing_hooks l hooks').
  set (l1 := _KeyboardListener.set_is_replaying l0 true).
  destruct (resolve_suspended_ok answers
              (_KeyboardListener.suspended_event_pairs l1) l1
              (_KeyboardListener.active_modifiers l0) [])
    as (l2 & temp & out & -> & F2); [reflexivity|].
  pose proof (os_inject_all_frame l2 KEY_DOWN
                (elements (_KeyboardListener.active_modifiers l2 ∖ temp))) as [F3 _].
  destruct (_KeyboardListener.os_inject_all l2 KEY_DOWN _) as [l3 out3].
  pose proof (os_inject_all_frame l3 KEY_UP
                (elements (temp ∖ _KeyboardListener.active_modifiers l3))) as [F4 _].
  destruct (_KeyboardListener.os_inject_all l3 KEY_UP _) as [l4 out4].
  cbn [fst] in F3, F4.
  rewrite merged_decision_strongest. fold d.
  assert (F : same_but_resolved l1 l4).
  { eapply same_but_resolved_trans; [exact F2|].
    apply same_but_logical_resolved.
    eapply same_but_logical_trans; [exact F3|exact F4]. }
  destruct F as (Hp & Hm & _ & Hh & _ & Hq). cbn in Hp, Hm, Hh, Hq.
  exists (_KeyboardListener.set_is_replaying l4 false), (out ++ out3 ++ out4).
  split.
  - destruct d; cbn; rewrite ?Hm; reflexivity.
  - cbn. auto.
Qed.

(** C3. When the merged decision of the suppressing hooks for an event is
    SUSPEND, [process_sync_event] appends the pair of the event and a copy of
    the active modifiers (as they are after the event was taken into account)
    to the suspended list and tells the driver to suppress. Whatever the
    merged decision, [run_sync_hooks] returns ALLOW or SUPPRESS, never
    SUSPEND, and the driver receives the boolean for "allow". *)
Theorem suspended_event_is_stored_and_suppressed (l : _KeyboardListener.t)
    (event : Event) (hooks' : list Hook) (answers : list Decisions) :
  _KeyboardListener.is_replaying l = false ->
  _KeyboardListener.run_hooks
    (_KeyboardListener.suppressing_hooks (_KeyboardListener.note_event l event))
    event
    (_KeyboardListener.physically_pressed_keys (_KeyboardListener.note_event l event))
    (_KeyboardListener.logically_pressed_keys (_KeyboardListener.note_event l event))
    (_KeyboardListener.active_modifiers (_KeyboardListener.note_event l event))
  = (hooks', inr answers) ->
  exists l' out d,
    merged_decision (or_empty_dict answers) event = inr d
    /\ _KeyboardListener.process_sync_event l event
       = (l', out, inr (bool_decide (d = ALLOW)))
    /\ snd (_KeyboardListener.run_sync_hooks
              (_KeyboardListener.note_event l event) event)
       = inr (if bool_decide (d = ALLOW) then ALLOW else SUPPRESS)
    /\ (d = SUSPEND ->
        exists kept,
          _KeyboardListener.suspended_event_pairs l'
          = kept ++ [(event, _KeyboardListener.active_modifiers
                               (_KeyboardListener.note_event l event))]
          /\ _KeyboardListener.active_modifiers l'
             = _KeyboardListener.active_modifiers
                 (_KeyboardListener.note_event l event)).
Proof.
  intros Hreplaying Hrun.
  destruct (run_sync_hooks_answered _ _ _ _ Hrun)
    as (l5 & out & Hsync & _ & Hm & _).
  set (d := strongest ((fun a => get_decision a event) <$> answers)) in Hsync.
  unfold _KeyboardListener.process_sync_event.
  rewrite Hreplaying, Hsync.
  destruct d eqn:Hd.
  - eexists _, out, ALLOW. rewrite merged_decision_strongest. fold d.
    rewrite Hd. repeat split; try reflexivity. discriminate.
  - eexists _, out, SUSPEND. rewrite merged_decision_strongest. fold d.
    rewrite Hd. repeat split; try reflexivity.
    intros _. exists (_KeyboardListener.suspended_event_pairs l5).
    split; [reflexivity|exact Hm].
  - eexists _, out, SUPPRESS. rewrite merged_decision_strongest. fold d.
    rewrite Hd. repeat split; try reflexivity. discriminate.
Qed.

End Suspension.

Lemma suspended_event_is_stored_and_suppressed_witness :
  exists l' out d,
    merged_decision
      (or_empty_dict [{[ KeyboardEvent.key (sample_event KEY_DOWN 29 3) := SUSPEND ]}])
      (sample_event KEY_DOWN 29 3) = inr d
    /\ @_KeyboardListener.process_sync_event sample_platform suspending_listener
         (sample_event KEY_DOWN 29 3) = (l', out, inr (bool_decide (d = ALLOW)))
    /\ snd (@_KeyboardListener.run_sync_hooks sample_platform
              (@_KeyboardListener.note_event sample_platform suspending_listener
                 (sample_event KEY_DOWN 29 3))
              (sample_event KEY_DOWN 29 3))
       = inr (if bool_decide (d = ALLOW) then ALLOW else SUPPRESS)
    /\ (d = SUSPEND ->
        exists kept,
          _KeyboardListener.suspended_event_pairs l'
          = kept ++ [(sample_event KEY_DOWN 29 3,
                      _KeyboardListener.active_modifiers
                        (@_KeyboardListener.note_event sample_platform
                           suspending_listener (sample_event KEY_DOWN 29 3)))]
          /\ _KeyboardListener.active_modifiers l'
             = _KeyboardListener.active_modifiers
                 (@_KeyboardListener.note_event sample_platform
                    suspending_listener (sample_event KEY_DOWN 29 3))).
Proof.
  exact (@suspended_event_is_stored_and_suppressed sample_platform
           suspending_listener (sample_event KEY_DOWN 29 3)
           (_KeyboardListener.suppressing_hooks suspending_listener)
           [{[ KeyboardEvent.key (sample_event KEY_DOWN 29 3) := SUSPEND ]}]
           eq_refl eq_refl).
Defined.

(** ** Allow-only hooks *)

Section AllowOnly.
Context `{Platform}.

Lemma strongest_all_allow (ds : list Decision) :
  Forall (fun d => d = ALLOW) ds -> strongest ds = ALLOW.
Proof.
  induction 1 as [|d ds -> _ IH]; [reflexivity|].
  now rewrite strongest_cons, IH.
Qed.

Lemma run_hooks_allow_only (Inv : Hook -> Prop) (event : Event)
    (physical logical mods : gset Z) (hooks : list Hook) :
  (forall h event physical logical mods,
     Inv h ->
     exists h' decisions calls,
       Hook_process_event h event physical logical mods
       = inr (h', decisions, calls)
       /\ Inv h'
       /\ get_decision decisions event = ALLOW) ->
  Forall Inv hooks ->
  exists hooks' answers,
    _KeyboardListener.run_hooks hooks event physical logical mods
    = (hooks', inr answers)
    /\ Forall Inv hooks'
    /\ Forall (fun d => d = ALLOW) ((fun a => get_decision a event) <$> answers).
Proof.
  intros Hstep. induction 1 as [|h hooks Hh _ IH]; cbn [_KeyboardListener.run_hooks].
  - exists [], []. repeat split; constructor.
  - destruct (Hstep h event physical logical mods Hh)
      as (h' & d & calls & -> & Hh' & Hd).
    destruct IH as (hooks' & answers & -> & Hinv & Hall).
    exists (h' :: hooks'), (d :: answers). cbn.
    split; [reflexivity|]. split; constructor; assumption.
Qed.

(** One event through a listener that holds no suspended event and only
    allow-only hooks. *)
Lemma process_sync_event_allow_only (Inv : Hook -> Prop)
    (l : _KeyboardListener.t) (event : Event) :
  (forall h event physical logical mods,
     Inv h ->
     exists h' decisions calls,
       Hook_process_event h event physical logical mods
       = inr (h', decisions, calls)
       /\ Inv h'
       /\ get_decision decisions event = ALLOW) ->
  Forall Inv (_KeyboardListener.suppressing_hooks l) ->
  _KeyboardListener.is_replaying l = false ->
  _KeyboardListener.suspended_event_pairs l = [] ->
  exists l',
    _KeyboardListener.process_sync_event l event = (l', [], inr true)
    /\ Forall Inv (_KeyboardListener.suppressing_hooks l')
    /\ _KeyboardListener.is_replaying l' = false
    /\ _KeyboardListener.suspended_event_pairs l' = [].
Proof.
  intros Hstep Hinv Hreplaying Hpairs.
  unfold _KeyboardListener.process_sync_event. rewrite Hreplaying.
  unfold _KeyboardListener.run_sync_hooks.
  destruct (run_hooks_allow_only Inv event
              (_KeyboardListener.physically_pressed_keys
                 (_KeyboardListener.note_event l event))
              (_KeyboardListener.logically_pressed_keys
                 (_KeyboardListener.note_event l event))
              (_KeyboardListener.active_modifiers
                 (_KeyboardListener.note_event l event))
              (_KeyboardListener.suppressing_hooks
                 (_KeyboardListener.note_event l event)) Hstep Hinv)
    as (hooks' & answers & -> & Hinv' & Hall).
  cbn [_KeyboardListener.set_suppressing_hooks _KeyboardListener.set_is_replaying
       _KeyboardListener.suspended_event_pairs _KeyboardListener.note_event
       _KeyboardListener.active_modifiers].
  rewrite Hpairs. cbn [_KeyboardListener.resolve_suspended].
  rewrite difference_diag_L, elements_empty.
  cbn [_KeyboardListener.os_inject_all foldl _KeyboardListener.active_modifiers].
  rewrite difference_diag_L, elements_empty. cbn [foldl].
  rewrite merged_decision_strongest, (strongest_all_allow _ Hall).
  eexists. split; [reflexivity|]. cbn. auto.
Qed.

(** C1. A listener that is not replaying, holds no suspended event and has
    only allow-only suppressing hooks lets every Down/Up event of any finite
    sequence through: each call returns True, and what reaches the rest of the
    system is the input sequence itself, with no injected key, nothing lost,
    duplicated or reordered. No event is suspended along the way. *)
Theorem allow_only_hooks_pass_every_event (l : _KeyboardListener.t)
    (events : list Event) :
  _KeyboardListener.is_replaying l = false ->
  _KeyboardListener.suspended_event_pairs l = [] ->
  allow_only (_KeyboardListener.suppressing_hooks l) ->
  exists l',
    _KeyboardListener.process_events l events
    = (l', _KeyboardListener.Passed <$> events, (fun _ => inr true) <$> events)
    /\ _KeyboardListener.suspended_event_pairs l' = []
    /\ _KeyboardListener.is_replaying l' = false
    /\ allow_only (_KeyboardListener.suppressing_hooks l').
Proof.
  intros Hreplaying Hpairs (Inv & Hinv & Hstep).
  revert l Hreplaying Hpairs Hinv.
  induction events as [|event events IH]; intros l Hreplaying Hpairs Hinv.
  - exists l. cbn. repeat split; try assumption. exists Inv. auto.
  - cbn [_KeyboardListener.process_events].
    destruct (process_sync_event_allow_only Inv l event Hstep Hinv Hreplaying Hpairs)
      as (l1 & -> & Hinv1 & Hreplaying1 & Hpairs1).
    destruct (IH l1 Hreplaying1 Hpairs1 Hinv1) as (l2 & -> & Hrest).
    exists l2. split; [reflexivity|exact Hrest].
Qed.

Lemma plainly_allows_allow_only (hooks : list Hook) :
  Forall plainly_allows hooks -> allow_only hooks.
Proof.
  intros Hall. exists plainly_allows. split; [exact Hall|].
  intros [s|k|hk] event physical logical mods Hh; cbn in Hh; [| |contradiction].
  - eexists _, _, _. cbn [Hook_process_event].
    rewrite simple_hook_process_event.
    split; [reflexivity|]. split; [exact Hh|].
    unfold get_decision. rewrite lookup_singleton_eq. cbn [default].
    destruct (Hh event) as [H1 H2]. revert H1 H2.
    destruct (_SimpleHook.callback s event) as [[]|]; intros;
      first [reflexivity|congruence].
  - cbn [Hook_process_event]. unfold _KeyHook.process_event. rewrite Hh.
    destruct (bool_decide _); eexists _, _, _;
      (split; [reflexivity|]; split; [exact Hh|]);
      unfold get_decision; now rewrite lookup_singleton_eq.
Qed.

End AllowOnly.

Lemma allowing_listener_allow_only :
  @allow_only sample_platform (_KeyboardListener.suppressing_hooks allowing_listener).
Proof.
  apply plainly_allows_allow_only. repeat constructor.
  - cbn. destruct (_ =? _); discriminate.
  - cbn. destruct (_ =? _); discriminate.
Defined.

Lemma allow_only_hooks_pass_every_event_witness :
  exists l',
    @_KeyboardListener.process_events sample_platform allowing_listener
      [sample_event KEY_DOWN 29 1; sample_event KEY_DOWN 30 2;
       sample_event KEY_UP 30 3; sample_event KEY_UP 29 4]
    = (l',
       _KeyboardListener.Passed
         <$> [sample_event KEY_DOWN 29 1; sample_event KEY_DOWN 30 2;
              sample_event KEY_UP 30 3; sample_event KEY_UP 29 4],
       (fun _ => inr true)
         <$> [sample_event KEY_DOWN 29 1; sample_event KEY_DOWN 30 2;
              sample_event KEY_UP 30 3; sample_event KEY_UP 29 4])
    /\ _KeyboardListener.suspended_event_pairs l' = []
    /\ _KeyboardListener.is_replaying l' = false
    /\ @allow_only sample_platform (_KeyboardListener.suppressing_hooks l').
Proof.
  exact (@allow_only_hooks_pass_every_event sample_platform allowing_listener _
           eq_refl eq_refl allowing_listener_allow_only).
Defined.

(** ** The transition table *)

Lemma kept_below_refl (i : Z) (t : gmap (Z * list Z) Z) : kept_below i t t.
Proof. intros k v _ Hk. exact Hk. Qed.

Lemma kept_below_trans (i : Z) (t1 t2 t3 : gmap (Z * list Z) Z) :
  kept_below i t1 t2 -> kept_below i t2 t3 -> kept_below i t1 t3.
Proof. intros H12 H23 k v Hlt Hk. eauto. Qed.

Lemma kept_below_le (i j : Z) (t t' : gmap (Z * list Z) Z) :
  i <= j -> kept_below j t t' -> kept_below i t t'.
Proof. intros Hle Hkept k v Hlt. apply Hkept. lia. Qed.

Lemma subseteq_kept_below (i : Z) (t t' : gmap (Z * list Z) Z) :
  t ⊆ t' -> kept_below i t t'.
Proof. intros Hsub k v _ Hk. eapply lookup_weaken; eassumption. Qed.

Lemma insert_kept_below (i : Z) (chord : list Z) (v : Z) (t : gmap (Z * list Z) Z) :
  kept_below i t (<[(i, chord) := v]> t).
Proof.
  intros k w Hlt Hk. rewrite lookup_insert_ne; [exact Hk|].
  intros <-. cbn in Hlt. lia.
Qed.

Lemma dd_get_subseteq (t : gmap (Z * list Z) Z) (k : Z * list Z) :
  t ⊆ fst (dd_get t k).
Proof.
  unfold dd_get. destruct (t !! k) eqn:Hk; cbn; [reflexivity|].
  now apply insert_subseteq.
Qed.

Lemma get_final_state_subseteq (sequence : list (list Z)) :
  forall (t : gmap (Z * list Z) Z) (state : Z),
    t ⊆ fst (_HotkeyHook.get_final_state t sequence state).
Proof.
  induction sequence as [|x rest IH]; intros t state;
    cbn [_HotkeyHook.get_final_state]; [reflexivity|].
  pose proof (dd_get_subseteq t (state, x)) as Hsub.
  destruct (dd_get t (state, x)) as [t' state']. cbn [fst] in Hsub.
  etrans; [exact Hsub|apply IH].
Qed.

Lemma final_states_spec (history : list (list Z)) (previous_inputs : list Z)
    (js : list nat) :
  forall t : gmap (Z * list Z) Z,
    t ⊆ fst (_HotkeyHook.final_states t history previous_inputs js)
    /\ length (snd (_HotkeyHook.final_states t history previous_inputs js))
       = length js.
Proof.
  induction js as [|j js IH]; intros t; cbn [_HotkeyHook.final_states].
  - split; reflexivity.
  - pose proof (get_final_state_subseteq
                  (drop j history ++ [previous_inputs]) t 0) as Hsub.
    destruct (_HotkeyHook.get_final_state t _ 0) as [t1 s]. cbn [fst] in Hsub.
    destruct (IH t1) as [Hsub' Hlen].
    destruct (_HotkeyHook.final_states t1 history previous_inputs js) as [t2 ss].
    cbn [fst snd] in *. split; [etrans; eassumption|cbn; now rewrite Hlen].
Qed.

Lemma failure_link_ok (i : Z) (history : list (list Z))
    (t : gmap (Z * list Z) Z) (previous_inputs : list Z) :
  history <> [] ->
  exists t', _HotkeyHook.failure_link i history t previous_inputs = inr t'
             /\ kept_below i t t'.
Proof.
  intros Hhistory. unfold _HotkeyHook.failure_link.
  destruct (final_states_spec history previous_inputs
              (seq 1 (length history)) t) as [Hsub Hlen].
  destruct (_HotkeyHook.final_states t history previous_inputs _) as [t1 finals].
  cbn [fst snd] in Hsub, Hlen. rewrite length_seq in Hlen.
  destruct finals as [|s finals].
  - destruct history; [contradiction|discriminate].
  - cbn. eexists. split; [reflexivity|].
    eapply kept_below_trans; [apply subseteq_kept_below, Hsub|].
    apply insert_kept_below.
Qed.

Lemma failure_links_ok (i : Z) (history : list (list Z)) (inputs : list (list Z)) :
  history <> [] ->
  forall t : gmap (Z * list Z) Z,
    exists t', _HotkeyHook.failure_links i history t inputs = inr t'
               /\ kept_below i t t'.
Proof.
  intros Hhistory. induction inputs as [|p inputs IH]; intros t;
    cbn [_HotkeyHook.failure_links].
  - exists t. split; [reflexivity|apply kept_below_refl].
  - destruct (failure_link_ok i history t p Hhistory) as (t1 & -> & K1).
    destruct (IH t1) as (t2 & Ht2 & K2). cbn.
    exists t2. split; [exact Ht2|]. eapply kept_below_trans; eassumption.
Qed.

Lemma failure_links_history_ok (i : Z) (history : list (list Z))
    (t : gmap (Z * list Z) Z) :
  exists t',
    _HotkeyHook.failure_links i history t (remove_dups history) = inr t'
    /\ kept_below i t t'.
Proof.
  destruct history as [|h history].
  - exists t. split; [reflexivity|apply kept_below_refl].
  - now apply failure_links_ok.
Qed.

(** The product loop of step [i]: earlier states are untouched, every chord
    of the product leads to [i + 1], and the loop variable is bound once the
    product is not empty. *)
Lemma product_loop_spec (i : Z) (inputs : list (list Z)) :
  forall (t : gmap (Z * list Z) Z) (last : option (list Z)),
    let r := foldl (_HotkeyHook.product_step i) (t, last) inputs in
    kept_below i t (fst r)
    /\ (forall k, t !! k = Some (i + 1) -> fst r !! k = Some (i + 1))
    /\ (forall chord, chord ∈ inputs -> fst r !! (i, sorted chord) = Some (i + 1))
    /\ (inputs <> [] -> is_Some (snd r)).
Proof.
  induction inputs as [|p inputs IH]; intros t last; cbn [foldl].
  - cbn. split; [apply kept_below_refl|]. split; [auto|].
    split; [intros chord Hin; now apply elem_of_nil in Hin|contradiction].
  - unfold _HotkeyHook.product_step at 2. cbn [fst].
    destruct (IH (<[(i, sorted p) := i + 1]> t) (Some p)) as (K & Hsame & Hin & Hlast).
    split; [|split; [|split]].
    + eapply kept_below_trans; [apply insert_kept_below|exact K].
    + intros k Hk. apply Hsame.
      destruct (decide (k = (i, sorted p))) as [->|Hne].
      * apply lookup_insert_eq.
      * now rewrite lookup_insert_ne.
    + intros chord Hchord. apply elem_of_cons in Hchord as [->|Hchord].
      * apply Hsame, lookup_insert_eq.
      * now apply Hin.
    + intros _. destruct inputs as [|q inputs]; [cbn; eauto|].
      apply Hlast. discriminate.
Qed.

Lemma product_nonempty (lists : list (list Z)) :
  Forall (fun l => l <> []) lists -> product lists <> [].
Proof.
  induction 1 as [|l lists Hl _ IH]; cbn [product]; [discriminate|].
  destruct l as [|x l]; [contradiction|].
  destruct (product lists) as [|p ps]; [contradiction|]. discriminate.
Qed.

Lemma build_steps_spec (steps : list Step.t) :
  Forall (fun step => Forall (fun key => Key.scan_codes key <> []) (Step.keys step))
         steps ->
  forall (i : Z) (t : gmap (Z * list Z) Z) (history : list (list Z))
         (last : option (list Z)),
    exists t' history' last',
      _HotkeyHook.build_steps i steps (t, history, last) = inr (t', history', last')
      /\ kept_below i t t'
      /\ forall (n : nat) step chord,
           steps !! n = Some step ->
           chord ∈ product (Key.scan_codes <$> Step.keys step) ->
           t' !! (i + Z.of_nat n, sorted chord) = Some (i + Z.of_nat n + 1).
Proof.
  induction 1 as [|step steps Hstep _ IH]; intros i t history last;
    cbn [_HotkeyHook.build_steps].
  - eexists _, _, _. split; [reflexivity|]. split; [apply kept_below_refl|].
    intros n step chord Hn. now rewrite lookup_nil in Hn.
  - unfold _HotkeyHook.build_step.
    destruct (failure_links_history_ok i history t) as (t1 & -> & K1). cbn.
    destruct (product_loop_spec i (product (Key.scan_codes <$> Step.keys step))
                t1 last) as (K2 & _ & Hin & Hlast).
    destruct (foldl (_HotkeyHook.product_step i) (t1, last) _) as [t2 last2].
    cbn [fst snd] in K2, Hin, Hlast.
    destruct Hlast as [p ->].
    { apply product_nonempty. apply Forall_fmap.
      eapply Forall_impl; [exact Hstep|]. auto. }
    cbn.
    destruct (IH (i + 1) t2 (history ++ [p]) (Some p))
      as (t' & history' & last' & -> & K3 & Hrest).
    eexists _, _, _. split; [reflexivity|]. split.
    + eapply kept_below_trans; [exact K1|].
      eapply kept_below_trans; [exact K2|].
      eapply kept_below_le; [|exact K3]. lia.
    + intros [|n] step' chord Hn Hchord.
      * injection Hn as <-. rewrite Z.add_0_r.
        apply K3; [cbn; lia|]. now apply Hin.
      * cbn in Hn.
        replace (i + Z.of_nat (S n)) with (i + 1 + Z.of_nat n) by lia.
        eapply Hrest; eassumption.
Qed.

(** C7. For a hotkey whose keys all have scan codes, the transition table
    built at registration exists and, for each step index [i], sends every
    sorted tuple of scan codes taken one from each key of step [i] (the
    Cartesian product of the keys' scan codes) from state [i] to state
    [i + 1]; a (state, chord) pair that is not in the table reads as
    state 0. *)
Theorem transition_table_advances_on_chords (hotkey : Hotkey.t) :
  keys_have_scan_codes hotkey ->
  exists transitions,
    _HotkeyHook.build_hotkey_transition_table hotkey = inr transitions
    /\ (forall (i : nat) step chord,
          Hotkey.steps hotkey !! i = Some step ->
          chord ∈ product (Key.scan_codes <$> Step.keys step) ->
          transitions !! (Z.of_nat i, sorted chord) = Some (Z.of_nat i + 1)
          /\ snd (dd_get transitions (Z.of_nat i, sorted chord)) = Z.of_nat i + 1)
    /\ (forall k, transitions !! k = None -> snd (dd_get transitions k) = 0).
Proof.
  intros Hkeys. unfold _HotkeyHook.build_hotkey_transition_table.
  destruct (build_steps_spec (Hotkey.steps hotkey) Hkeys 0 ∅ [] None)
    as (t & history & last & -> & _ & Hchords).
  exists t. cbn. split; [reflexivity|]. split.
  - intros i step chord Hi Hchord.
    pose proof (Hchords i step chord Hi Hchord) as Hlookup.
    rewrite !Z.add_0_l in Hlookup.
    split; [exact Hlookup|]. unfold dd_get. now rewrite Hlookup.
  - intros k Hk. unfold dd_get. now rewrite Hk.
Qed.

Example parse_sample_hotkey :
  @parse_hotkey sample_platform (AVal (VStr "ctrl+a, b")) = inr sample_hotkey.
Proof. by_evaluation. Qed.

Lemma sample_hotkey_keys : keys_have_scan_codes sample_hotkey.
Proof. repeat constructor; discriminate. Qed.

Lemma transition_table_advances_on_chords_witness :
  exists transitions,
    _HotkeyHook.build_hotkey_transition_table sample_hotkey = inr transitions
    /\ (forall (i : nat) step chord,
          Hotkey.steps sample_hotkey !! i = Some step ->
          chord ∈ product (Key.scan_codes <$> Step.keys step) ->
          transitions !! (Z.of_nat i, sorted chord) = Some (Z.of_nat i + 1)
          /\ snd (dd_get transitions (Z.of_nat i, sorted chord)) = Z.of_nat i + 1)
    /\ (forall k, transitions !! k = None -> snd (dd_get transitions k) = 0).
Proof.
  exact (transition_table_advances_on_chords sample_hotkey sample_hotkey_keys).
Defined.

(** The table of the sample hotkey, entry by entry: the two chords of
    [ctrl+a] lead from 0 to 1 and [b] leads from 1 to 2; the recorded input of
    step 0 (the last tuple of the product, unsorted) got the default when the
    failure link was computed, and the link stored for it from state 1 is 0. *)
Example sample_hotkey_table :
  _HotkeyHook.build_hotkey_transition_table sample_hotkey
  = inr (<[(0, [29; 30]) := 1]>
          (<[(0, [30; 97]) := 1]>
            (<[(0, [97; 30]) := 0]>
              (<[(1, [97; 30]) := 0]> (<[(1, [48]) := 2]> ∅))))).
Proof. by_evaluation. Qed.

(** ** The state of a hotkey hook stays within its steps *)

Lemma dd_get_in_range (n : Z) (t : gmap (Z * list Z) Z) (k : Z * list Z) :
  0 <= n -> in_range n t ->
  in_range n (fst (dd_get t k)) /\ 0 <= snd (dd_get t k) <= n.
Proof.
  intros Hn Ht. unfold dd_get. destruct (t !! k) as [v|] eqn:Hk; cbn.
  - split; [exact Ht|]. exact (map_Forall_lookup_1 _ _ _ _ Ht Hk).
  - split; [|lia]. apply map_Forall_insert_2; [lia|exact Ht].
Qed.

Lemma get_final_state_in_range (n : Z) (sequence : list (list Z)) :
  0 <= n ->
  forall (t : gmap (Z * list Z) Z) (state : Z),
    in_range n t -> 0 <= state <= n ->
    in_range n (fst (_HotkeyHook.get_final_state t sequence state))
    /\ 0 <= snd (_HotkeyHook.get_final_state t sequence state) <= n.
Proof.
  intros Hn. induction sequence as [|x rest IH]; intros t state Ht Hstate;
    cbn [_HotkeyHook.get_final_state]; [now split|].
  destruct (dd_get_in_range n t (state, x) Hn Ht) as [Ht' Hstate'].
  destruct (dd_get t (state, x)) as [t' state']. now apply IH.
Qed.

Lemma final_states_in_range (n : Z) (history : list (list Z))
    (previous_inputs : list Z) (js : list nat) :
  0 <= n ->
  forall t : gmap (Z * list Z) Z,
    in_range n t ->
    in_range n (fst (_HotkeyHook.final_states t history previous_inputs js))
    /\ Forall (fun s => 0 <= s <= n)
              (snd (_HotkeyHook.final_states t history previous_inputs js)).
Proof.
  intros Hn. induction js as [|j js IH]; intros t Ht;
    cbn [_HotkeyHook.final_states]; [now split|].
  destruct (get_final_state_in_range n (drop j history ++ [previous_inputs])
              Hn t 0 Ht) as [Ht1 Hs]; [lia|].
  destruct (_HotkeyHook.get_final_state t _ 0) as [t1 s]. cbn [fst snd] in *.
  destruct (IH t1 Ht1) as [Ht2 Hss].
  destruct (_HotkeyHook.final_states t1 history previous_inputs js) as [t2 ss].
  cbn [fst snd] in *. split; [exact Ht2|now constructor].
Qed.

Lemma foldl_max_in_range (n : Z) (rest : list Z) :
  forall x, 0 <= x <= n -> Forall (fun s => 0 <= s <= n) rest ->
            0 <= foldl Z.max x rest <= n.
Proof.
  induction rest as [|y rest IH]; intros x Hx Hrest; cbn [foldl]; [exact Hx|].
  inversion Hrest; subst. apply IH; [lia|assumption].
Qed.

Lemma failure_links_in_range (n i : Z) (history inputs : list (list Z)) :
  0 <= n ->
  forall t t' : gmap (Z * list Z) Z,
    in_range n t ->
    _HotkeyHook.failure_links i history t inputs = inr t' ->
    in_range n t'.
Proof.
  intros Hn. induction inputs as [|p inputs IH]; intros t t' Ht;
    cbn [_HotkeyHook.failure_links].
  - now intros [= <-].
  - unfold _HotkeyHook.failure_link.
    destruct (final_states_in_range n history p (seq 1 (length history)) Hn t Ht)
      as [Ht1 Hfinals].
    destruct (_HotkeyHook.final_states t history p _) as [t1 finals].
    cbn [fst snd] in Ht1, Hfinals.
    destruct finals as [|s finals]; cbn; [discriminate|].
    inversion Hfinals; subst.
    apply IH. apply map_Forall_insert_2; [|exact Ht1].
    now apply foldl_max_in_range.
Qed.

Lemma product_loop_in_range (n i : Z) (inputs : list (list Z)) :
  0 <= i + 1 <= n ->
  forall (t : gmap (Z * list Z) Z) (last : option (list Z)),
    in_range n t ->
    in_range n (fst (foldl (_HotkeyHook.product_step i) (t, last) inputs)).
Proof.
  intros Hi. induction inputs as [|p inputs IH]; intros t last Ht;
    cbn [foldl]; [exact Ht|].
  apply IH. cbn. now apply map_Forall_insert_2.
Qed.

Lemma build_steps_in_range (n : Z) (steps : list Step.t) :
  forall (i : Z) (t : gmap (Z * list Z) Z) (history : list (list Z))
         (last : option (list Z)) acc,
    0 <= i -> i + Z.of_nat (length steps) <= n ->
    in_range n t ->
    _HotkeyHook.build_steps i steps (t, history, last) = inr acc ->
    in_range n (fst (fst acc)).
Proof.
  induction steps as [|step steps IH]; intros i t history last acc Hi Hn Ht;
    cbn [_HotkeyHook.build_steps].
  - now intros [= <-].
  - unfold _HotkeyHook.build_step. cbn [length] in Hn.
    destruct (_HotkeyHook.failure_links i history t (remove_dups history))
      as [e|t1] eqn:Hlinks; cbn; [discriminate|].
    assert (Ht1 : in_range n t1).
    { eapply failure_links_in_range; [|exact Ht|exact Hlinks]. lia. }
    pose proof (product_loop_in_range n i
                  (product (Key.scan_codes <$> Step.keys step))
                  ltac:(lia) t1 last Ht1) as Ht2.
    destruct (foldl (_HotkeyHook.product_step i) (t1, last) _) as [t2 last2].
    cbn [fst] in Ht2.
    destruct last2 as [p|]; cbn; [|discriminate].
    apply IH; [lia|lia|exact Ht2].
Qed.

Lemma split_modifiers_length `{Platform} (keys : list Key.t) :
  forall ms others,
    Step.split_modifiers keys = inr (ms, others) ->
    length keys = (length ms + length others)%nat.
Proof.
  induction keys as [|key keys IH]; intros ms others; cbn [Step.split_modifiers].
  - now intros [= <- <-].
  - destruct (Step.key_is_modifier key) as [e|b]; cbn; [discriminate|].
    destruct (Step.split_modifiers keys) as [e|[ms' others']]; cbn; [discriminate|].
    specialize (IH _ _ eq_refl).
    destruct b; intros [= <- <-]; cbn; lia.
Qed.

Lemma Step_init_has_main_key `{Platform} (keys : list Key.t) (step : Step.t) :
  Step.__init__ keys = inr step -> step_has_main_key step.
Proof.
  unfold Step.__init__.
  destruct (Step.split_modifiers keys) as [e|[ms others]] eqn:Hsplit; cbn;
    [discriminate|].
  apply split_modifiers_length in Hsplit.
  case_bool_decide as Hlen; intros [= <-]; intros Hstd; cbn in *; [|discriminate].
  destruct others; cbn in *; [lia|eauto].
Qed.

Lemma insert_by_time_desc_Permutation (e : Event) (l : list Event) :
  _HotkeyHook.insert_by_time_desc e l ≡ₚ e :: l.
Proof.
  induction l as [|y l IH]; cbn [_HotkeyHook.insert_by_time_desc]; [reflexivity|].
  destruct (_ <? _); [|reflexivity].
  rewrite IH. apply Permutation_swap.
Qed.

Lemma sorted_by_time_desc_Permutation (l : list Event) :
  _HotkeyHook.sorted_by_time_desc l ≡ₚ l.
Proof.
  unfold _HotkeyHook.sorted_by_time_desc.
  induction l as [|e l IH]; cbn [foldr]; [reflexivity|].
  now rewrite insert_by_time_desc_Permutation, IH.
Qed.

(** The loop that drops suspended events only removes events that are still
    in the list: it never raises. *)
Lemma drop_useless_ok (order : list Event) :
  forall (suspended : list Event) (n_left : Z),
    KeyboardEvent.key <$> order ⊆+ KeyboardEvent.key <$> suspended ->
    exists suspended',
      _HotkeyHook.drop_useless order suspended n_left = inr suspended'.
Proof.
  induction order as [|e order IH]; intros suspended n_left Hsub;
    cbn [_HotkeyHook.drop_useless]; [eauto|].
  destruct (n_left <=? 0).
  - destruct (list_remove_submseteq KeyboardEvent.key e _ suspended Hsub)
      as (suspended' & -> & Hsub'). cbn. now apply IH.
  - cbn. apply IH. etrans; [|exact Hsub]. cbn. apply submseteq_cons. reflexivity.
Qed.

Section HotkeyHookRange.
Context `{Platform}.

Lemma match_input_in_range (hk : Hotkey.t) (h : _HotkeyHook.t) (step : Step.t)
    (is_main_key : bool) (event : Event) (physical mods : gset Z) :
  hook_in_range hk h ->
  exists h',
    _HotkeyHook.match_input h step is_main_key event physical mods = inr h'
    /\ hook_in_range hk h'.
Proof.
  intros (Hlen & Hsteps & Htable & Hstate). unfold _HotkeyHook.match_input.
  destruct (_ || _ || _).
  - destruct (dd_get_in_range (Z.of_nat (length (Hotkey.steps hk))) (_HotkeyHook.transitions h)
                (_HotkeyHook.state h,
                 if Step.is_standard step
                 then sorted (KeyboardEvent.scan_code event :: elements mods)
                 else sorted (elements physical))
                ltac:(lia) Htable) as [Htable' Hstate'].
    destruct (dd_get _ _) as [t' state']. cbn [fst snd] in Htable', Hstate'.
    destruct (drop_useless_ok
                (_HotkeyHook.sorted_by_time_desc
                   (_HotkeyHook.suspended_events h ++ [event]))
                (_HotkeyHook.suspended_events h ++ [event])
                (_HotkeyHook.useful_presses
                   (py_take state' (Hotkey.steps (_HotkeyHook.hotkey h)))))
      as [suspended' ->].
    { now rewrite sorted_by_time_desc_Permutation. }
    cbn. eexists. split; [reflexivity|]. hook_range.
  - eexists. split; [reflexivity|]. hook_range.
Qed.

Lemma timeout_reset_in_range (hk : Hotkey.t) (h : _HotkeyHook.t) (event : Event) :
  hook_in_range hk h -> hook_in_range hk (_HotkeyHook.timeout_reset h event).
Proof.
  intros (Hlen & Hsteps & Htable & Hstate). unfold _HotkeyHook.timeout_reset.
  destruct (_HotkeyHook.timed_out h event); hook_range.
Qed.

Lemma key_up_branch_in_range (hk : Hotkey.t) (h : _HotkeyHook.t) (event : Event) :
  hook_in_range hk h -> hook_in_range hk (fst (_HotkeyHook.key_up_branch h event)).
Proof.
  intros (Hlen & Hsteps & Htable & Hstate). unfold _HotkeyHook.key_up_branch.
  repeat (destruct (bool_decide _)); hook_range.
Qed.

Lemma complete_in_range (hk : Hotkey.t) (h : _HotkeyHook.t) (is_main_key : bool)
    (event : Event) (logical : gset Z) (events_to_suppress : list Event) :
  hook_in_range hk h ->
  hook_in_range hk
    (fst (fst (_HotkeyHook.complete h is_main_key event logical events_to_suppress))).
Proof.
  intros (Hlen & Hsteps & Htable & Hstate). unfold _HotkeyHook.complete.
  destruct (_HotkeyHook.triggers h is_main_key event).
  - destruct (match _HotkeyHook.callback h with
              | RDecision ALLOW => _
              | _ => _
              end) as [ets releases].
    hook_range.
  - hook_range.
Qed.

(** One call of [process_event] on a hook over at least one step: the step
    lookup is in bounds, nothing raises, and the range is kept. *)
Lemma process_event_in_range (hk : Hotkey.t) (h : _HotkeyHook.t) (event : Event)
    (physical logical mods : gset Z) :
  (1 <= length (Hotkey.steps hk))%nat ->
  hook_in_range hk h ->
  exists step h' decisions calls,
    py_index (Hotkey.steps hk)
             (Z.min (_HotkeyHook.state h)
                    (Z.of_nat (length (Hotkey.steps hk)) - 1)) = inr step
    /\ _HotkeyHook.process_event h event physical logical mods
       = inr (h', decisions, calls)
    /\ hook_in_range hk h'.
Proof.
  intros Hn Hrange. pose proof Hrange as (Hlen & Hsteps & Htable & Hstate).
  unfold _HotkeyHook.process_event. rewrite Hlen.
  assert (Hindex : exists step,
             py_index (Hotkey.steps hk)
                      (Z.min (_HotkeyHook.state h)
                             (Z.of_nat (length (Hotkey.steps hk)) - 1)) = inr step
             /\ step ∈ Hotkey.steps hk).
  { unfold py_index.
    destruct (Z.min _ _ <? 0) eqn:Hneg; [lia|]. rewrite Hneg.
    destruct (lookup_lt_is_Some_2 (Hotkey.steps hk)
                (Z.to_nat (Z.min (_HotkeyHook.state h)
                                 (Z.of_nat (length (Hotkey.steps hk)) - 1))))
      as [step Hstep]; [lia|].
    rewrite Hstep. exists step. split; [reflexivity|].
    eapply list_elem_of_lookup_2, Hstep. }
  destruct Hindex as (step & Hindex & Hin). rewrite Hindex. cbn.
  assert (Hmain : exists b, _HotkeyHook.is_main_key_of step event = inr b).
  { unfold _HotkeyHook.is_main_key_of.
    destruct (Step.is_standard step) eqn:Hstd; [|eauto].
    rewrite Forall_forall in Hsteps.
    destruct (Hsteps step Hin Hstd) as [k ->]. eauto. }
  destruct Hmain as [is_main_key ->]. cbn.
  assert (Hbranch : exists h1 ets,
             match KeyboardEvent.event_type event with
             | KEY_DOWN =>
                 if bool_decide (KeyboardEvent.scan_code event ∈ _modifier_scan_codes)
                    && Step.is_standard step
                 then inr (h, [])
                 else if _HotkeyHook.state h <? Z.of_nat (length (Hotkey.steps hk))
                 then _HotkeyHook.match_input
                        (_HotkeyHook.timeout_reset h event) step is_main_key event
                        physical mods ≫= (fun self' => inr (self', []))
                 else inr (h, [])
             | KEY_UP => inr (_HotkeyHook.key_up_branch h event)
             end = inr (h1, ets) /\ hook_in_range hk h1).
  { destruct (KeyboardEvent.event_type event).
    - destruct (_ && _); [eauto|].
      destruct (_ <? _); [|eauto].
      destruct (match_input_in_range hk (_HotkeyHook.timeout_reset h event) step
                  is_main_key event physical mods) as (h1 & -> & Hh1).
      { now apply timeout_reset_in_range. }
      cbn. eauto.
    - pose proof (key_up_branch_in_range hk h event Hrange) as Hup.
      destruct (_HotkeyHook.key_up_branch h event) as [h1 ets]. eauto. }
  destruct Hbranch as (h1 & ets & -> & Hh1). cbn.
  pose proof (complete_in_range hk h1 is_main_key event logical ets Hh1) as Hh2.
  destruct (_HotkeyHook.complete h1 is_main_key event logical ets)
    as [[h2 ets'] calls]. cbn [fst] in Hh2.
  exists step. eexists _, _, _. split; [reflexivity|]. split; [reflexivity|exact Hh2].
Qed.

End HotkeyHookRange.

Section HotkeyHookState.
Context `{Platform}.

Lemma init_in_range (hotkey : Hotkey.t) (timeout : Z) (trigger_on_release : bool)
    (callback : CallbackResult) :
  keys_have_scan_codes hotkey ->
  Forall step_has_main_key (Hotkey.steps hotkey) ->
  exists h,
    _HotkeyHook.__init__ hotkey timeout trigger_on_release callback = inr h
    /\ _HotkeyHook.state h = 0
    /\ hook_in_range hotkey h.
Proof.
  intros Hkeys Hmain.
  unfold _HotkeyHook.__init__, _HotkeyHook.build_hotkey_transition_table.
  destruct (build_steps_spec (Hotkey.steps hotkey) Hkeys 0 ∅ [] None)
    as (t & history & last & Hbuild & _).
  rewrite Hbuild. cbn. eexists. split; [reflexivity|]. split; [reflexivity|].
  unfold hook_in_range. cbn. split; [reflexivity|]. split; [exact Hmain|].
  split; [|lia].
  change t with (fst (fst (t, history, last))).
  eapply build_steps_in_range; [| | |exact Hbuild]; [lia|lia|].
  apply map_Forall_empty.
Qed.

Lemma process_calls_in_range (hk : Hotkey.t)
    (calls : list (Event * gset Z * gset Z * gset Z)) :
  (1 <= length (Hotkey.steps hk))%nat ->
  forall h, hook_in_range hk h ->
            exists h', process_calls h calls = inr h' /\ hook_in_range hk h'.
Proof.
  intros Hn. induction calls as [|[[[event physical] logical] mods] calls IH];
    intros h Hh; cbn [process_calls]; [eauto|].
  destruct (process_event_in_range hk h event physical logical mods Hn Hh)
    as (step & h1 & d & calls1 & _ & -> & Hh1).
  cbn. now apply IH.
Qed.

(** C10, as the code has it. For a hook over a hotkey with N >= 1 steps
    (keys with scan codes, standard steps with their main key, as the
    constructors build them), every finite sequence of calls to
    [process_event] runs without an exception and leaves the state in
    [0, N]; the lookup [steps[min(state, N-1)]] of the next call is in
    bounds. *)
Theorem hotkey_state_stays_in_range (hotkey : Hotkey.t) (timeout : Z)
    (trigger_on_release : bool) (callback : CallbackResult)
    (calls : list (Event * gset Z * gset Z * gset Z)) :
  keys_have_scan_codes hotkey ->
  Forall step_has_main_key (Hotkey.steps hotkey) ->
  (1 <= length (Hotkey.steps hotkey))%nat ->
  exists h h' step,
    _HotkeyHook.__init__ hotkey timeout trigger_on_release callback = inr h
    /\ process_calls h calls = inr h'
    /\ 0 <= _HotkeyHook.state h' <= Z.of_nat (length (Hotkey.steps hotkey))
    /\ py_index (Hotkey.steps (_HotkeyHook.hotkey h'))
                (Z.min (_HotkeyHook.state h')
                       (Z.of_nat (length (Hotkey.steps (_HotkeyHook.hotkey h'))) - 1))
       = inr step.
Proof.
  intros Hkeys Hmain Hn.
  destruct (init_in_range hotkey timeout trigger_on_release callback Hkeys Hmain)
    as (h & Hinit & _ & Hh).
  destruct (process_calls_in_range hotkey calls Hn h Hh) as (h' & Hcalls & Hh').
  destruct (process_event_in_range hotkey h' (sample_event KEY_DOWN 0 0) ∅ ∅ ∅ Hn Hh')
    as (step & _ & _ & _ & Hindex & _).
  destruct Hh' as (Hhk & _ & _ & Hstate).
  exists h, h', step. rewrite Hhk. auto.
Qed.

End HotkeyHookState.

Lemma sample_hotkey_main_keys :
  Forall step_has_main_key (Hotkey.steps sample_hotkey).
Proof. repeat constructor; intros _; cbn; eauto. Qed.

Lemma hotkey_state_stays_in_range_witness :
  exists h h' step,
    _HotkeyHook.__init__ sample_hotkey 10000 false ROther = inr h
    /\ @process_calls sample_platform h sample_calls = inr h'
    /\ 0 <= _HotkeyHook.state h' <= Z.of_nat (length (Hotkey.steps sample_hotkey))
    /\ py_index (Hotkey.steps (_HotkeyHook.hotkey h'))
                (Z.min (_HotkeyHook.state h')
                       (Z.of_nat (length (Hotkey.steps (_HotkeyHook.hotkey h'))) - 1))
       = inr step.
Proof.
  apply (@hotkey_state_stays_in_range sample_platform sample_hotkey 10000 false
           ROther sample_calls sample_hotkey_keys sample_hotkey_main_keys).
  cbn. lia.
Defined.

(** C10, the claim as stated fails for a hotkey with no step (N = 0), which
    [parse_hotkey] hands over unchanged when given as a [Hotkey] object: the
    hook is built, and its first [process_event] raises [IndexError] on
    [steps[min(0, -1)]]. *)
Lemma empty_hotkey_lookup_out_of_bounds :
  @parse_hotkey sample_platform (AHotkey (Hotkey.mk [])) = inr (Hotkey.mk [])
  /\ exists h,
       _HotkeyHook.__init__ (Hotkey.mk []) 1 false ROther = inr h
       /\ py_index (Hotkey.steps (_HotkeyHook.hotkey h))
                   (Z.min (_HotkeyHook.state h)
                          (Z.of_nat (length (Hotkey.steps (_HotkeyHook.hotkey h))) - 1))
          = inl IndexError
       /\ @_HotkeyHook.process_event sample_platform h (sample_event KEY_DOWN 30 0)
            {[ 30 ]} ∅ ∅ = inl IndexError.
Proof.
  split; [reflexivity|]. eexists. split; [reflexivity|]. split; reflexivity.
Qed.

(** ** The timeout of a hotkey hook *)

Lemma foldl_max_spec (ts : list Z) :
  forall t0, (foldl Z.max t0 ts ∈ t0 :: ts)
             /\ forall t, t ∈ t0 :: ts -> t <= foldl Z.max t0 ts.
Proof.
  induction ts as [|t1 ts IH]; intros t0; cbn [foldl].
  - split; [apply list_elem_of_here|].
    intros t Ht. apply list_elem_of_singleton in Ht. lia.
  - destruct (IH (Z.max t0 t1)) as [Hin Hmax]. split.
    + apply elem_of_cons in Hin as [Heq|Hin].
      * rewrite Heq. destruct (Z.max_spec t0 t1) as [[_ ->]|[_ ->]].
        -- apply list_elem_of_further, list_elem_of_here.
        -- apply list_elem_of_here.
      * now do 2 apply list_elem_of_further.
    + intros t Ht.
      assert (Hle : Z.max t0 t1 <= foldl Z.max (Z.max t0 t1) ts)
        by apply Hmax, list_elem_of_here.
      apply elem_of_cons in Ht as [->|Ht]; [lia|].
      apply elem_of_cons in Ht as [->|Ht]; [lia|].
      now apply Hmax, list_elem_of_further.
Qed.

(** The latest time is the time of a suspended event, and no suspended event
    is later. *)
Lemma latest_time_spec (suspended_events : list Event) (m : Z) :
  latest_time suspended_events = Some m ->
  (exists e, e ∈ suspended_events /\ KeyboardEvent.time e = m)
  /\ forall e, e ∈ suspended_events -> KeyboardEvent.time e <= m.
Proof.
  unfold latest_time.
  destruct (KeyboardEvent.time <$> suspended_events) as [|t0 ts] eqn:Htimes;
    [discriminate|].
  intros [= <-]. destruct (foldl_max_spec ts t0) as [Hin Hmax].
  rewrite <- Htimes in Hin, Hmax. split.
  - apply list_elem_of_fmap in Hin as (e & -> & He). eauto.
  - intros e He. apply Hmax. now apply list_elem_of_fmap_2.
Qed.

Section Timeout.
Context `{Platform}.

Lemma timed_out_iff (h : _HotkeyHook.t) (event : Event) :
  _HotkeyHook.timed_out h event = true
  <-> exists m, latest_time (_HotkeyHook.suspended_events h) = Some m
                /\ _HotkeyHook.timeout h <= KeyboardEvent.time event - m.
Proof.
  unfold _HotkeyHook.timed_out, latest_time.
  destruct (KeyboardEvent.time <$> _HotkeyHook.suspended_events h) as [|t0 ts].
  - split; [discriminate|]. intros (m & Hm & _). discriminate.
  - rewrite Z.leb_le. split.
    + intros Hle. eauto.
    + intros (m & [= <-] & Hle). exact Hle.
Qed.

(** C6, as the code has it. On a key-down event that reaches the matching
    branch (not a modifier pressed during a standard step, state below the
    number of steps), [process_event] first applies the timeout reset and
    matches on its result. The reset forces the state to 0 and clears the
    suspended events exactly when there is a suspended event and the event's
    time minus the latest suspended time is at least the timeout (equality
    included); otherwise it changes nothing. The test reads the timeout and
    the times of the events only. A key-up event never goes through the
    reset: it is handled by the key-up branch, which keeps the state and the
    events already suspended. *)
Theorem timeout_reset_before_matching (h : _HotkeyHook.t) (event : Event)
    (physical logical mods : gset Z) (step : Step.t) (is_main_key : bool) :
  py_index (Hotkey.steps (_HotkeyHook.hotkey h))
           (Z.min (_HotkeyHook.state h)
                  (Z.of_nat (length (Hotkey.steps (_HotkeyHook.hotkey h))) - 1))
  = inr step ->
  _HotkeyHook.is_main_key_of step event = inr is_main_key ->
  (KeyboardEvent.event_type event = KEY_DOWN ->
   bool_decide (KeyboardEvent.scan_code event ∈ _modifier_scan_codes)
   && Step.is_standard step = false ->
   _HotkeyHook.state h < Z.of_nat (length (Hotkey.steps (_HotkeyHook.hotkey h))) ->
   _HotkeyHook.process_event h event physical logical mods
   = (h1 ← _HotkeyHook.match_input (_HotkeyHook.timeout_reset h event) step
             is_main_key event physical mods;
      let '(h2, events_to_suppress, calls) :=
        _HotkeyHook.complete h1 is_main_key event logical [] in
      inr (h2, _HotkeyHook.answer (_HotkeyHook.suspended_events h2)
                 events_to_suppress, calls)))
  /\ (_HotkeyHook.timeout_reset h event
      = if _HotkeyHook.timed_out h event then cleared h else h)
  /\ (_HotkeyHook.timed_out h event = true
      <-> exists m, latest_time (_HotkeyHook.suspended_events h) = Some m
                    /\ _HotkeyHook.timeout h <= KeyboardEvent.time event - m)
  /\ (forall h' event',
        KeyboardEvent.time <$> _HotkeyHook.suspended_events h'
        = KeyboardEvent.time <$> _HotkeyHook.suspended_events h ->
        _HotkeyHook.timeout h' = _HotkeyHook.timeout h ->
        KeyboardEvent.time event' = KeyboardEvent.time event ->
        _HotkeyHook.timed_out h' event' = _HotkeyHook.timed_out h event)
  /\ (KeyboardEvent.event_type event = KEY_UP ->
      _HotkeyHook.process_event h event physical logical mods
      = (let '(h1, events_to_suppress) := _HotkeyHook.key_up_branch h event in
         let '(h2, events_to_suppress', calls) :=
           _HotkeyHook.complete h1 is_main_key event logical events_to_suppress in
         inr (h2, _HotkeyHook.answer (_HotkeyHook.suspended_events h2)
                    events_to_suppress', calls))
      /\ _HotkeyHook.state (fst (_HotkeyHook.key_up_branch h event))
         = _HotkeyHook.state h
      /\ _HotkeyHook.suspended_events h
         `prefix_of` _HotkeyHook.suspended_events
                       (fst (_HotkeyHook.key_up_branch h event))).
Proof.
  intros Hindex Hmain.
  split; [|split; [|split; [|split]]].
  - intros Hdown Hmod Hstate. unfold _HotkeyHook.process_event.
    rewrite Hindex. cbn. rewrite Hmain. cbn. rewrite Hdown, Hmod.
    apply Z.ltb_lt in Hstate. rewrite Hstate.
    destruct (_HotkeyHook.match_input _ _ _ _ _ _) as [e|h1]; reflexivity.
  - reflexivity.
  - apply timed_out_iff.
  - intros h' event' Htimes Htimeout Htime. unfold _HotkeyHook.timed_out.
    now rewrite Htimes, Htimeout, Htime.
  - intros Hup. split; [|split].
    + unfold _HotkeyHook.process_event.
      rewrite Hindex. cbn. rewrite Hmain. cbn. rewrite Hup.
      destruct (_HotkeyHook.key_up_branch h event) as [h1 ets]. reflexivity.
    + unfold _HotkeyHook.key_up_branch.
      repeat (destruct (bool_decide _)); reflexivity.
    + unfold _HotkeyHook.key_up_branch.
      repeat (destruct (bool_decide _)); cbn;
        first [reflexivity|now apply prefix_app_r].
Qed.

End Timeout.

Example parse_two_step_hotkey :
  @parse_hotkey sample_platform (AVal (VStr "a, b")) = inr two_step_hotkey.
Proof. by_evaluation. Qed.

Example a_pressed_hook_reached :
  (h ← _HotkeyHook.__init__ two_step_hotkey 1 false ROther;
   @_HotkeyHook.process_event sample_platform h (sample_event KEY_DOWN 30 0)
     {[ 30 ]} ∅ ∅)
  = inr (a_pressed_hook,
         {[ KeyboardEvent.key (sample_event KEY_DOWN 30 0) := SUSPEND ]}, 0%nat).
Proof. by_evaluation. Qed.

(** With [b] pressed within a timeout of two ticks the hotkey fires, and
    the hook is idle again. *)
Example b_in_time_triggers :
  outcome
    (@_HotkeyHook.process_event sample_platform
       (_HotkeyHook.mk ROther two_step_hotkey 2 false
          (_HotkeyHook.transitions a_pressed_hook) 1
          [sample_event KEY_DOWN 30 0] ∅)
       (sample_event KEY_DOWN 48 1) {[ 48 ]} ∅ ∅)
  = inr (0, [],
         [(KeyboardEvent.key (sample_event KEY_DOWN 30 0), SUPPRESS);
          (KeyboardEvent.key (sample_event KEY_DOWN 48 1), SUPPRESS)], 1%nat).
Proof. by_evaluation. Qed.

Lemma timeout_reset_before_matching_witness :
  @_HotkeyHook.process_event sample_platform a_pressed_hook
    (sample_event KEY_DOWN 48 1) {[ 48 ]} ∅ ∅
  = (h1 ← _HotkeyHook.match_input
             (_HotkeyHook.timeout_reset a_pressed_hook (sample_event KEY_DOWN 48 1))
             (Step.mk [Key.mk (VStr "b") [48]] [] true (Some (Key.mk (VStr "b") [48])))
             true (sample_event KEY_DOWN 48 1) {[ 48 ]} ∅;
     let '(h2, events_to_suppress, calls) :=
       _HotkeyHook.complete h1 true (sample_event KEY_DOWN 48 1) ∅ [] in
     inr (h2, _HotkeyHook.answer (_HotkeyHook.suspended_events h2)
                events_to_suppress, calls))
  /\ (_HotkeyHook.timed_out a_pressed_hook (sample_event KEY_DOWN 48 1) = true
      <-> exists m,
            latest_time (_HotkeyHook.suspended_events a_pressed_hook) = Some m
            /\ _HotkeyHook.timeout a_pressed_hook
               <= KeyboardEvent.time (sample_event KEY_DOWN 48 1) - m).
Proof.
  pose proof (@timeout_reset_before_matching sample_platform a_pressed_hook
                (sample_event KEY_DOWN 48 1) {[ 48 ]} ∅ ∅
                (Step.mk [Key.mk (VStr "b") [48]] [] true
                         (Some (Key.mk (VStr "b") [48])))
                true eq_refl eq_refl) as (Hmatch & _ & Hiff & _).
  split; [|exact Hiff].
  apply Hmatch; reflexivity.
Defined.

Example chord_a_pressed_hook_reached :
  (h ← _HotkeyHook.__init__ chord_hotkey 1 false ROther;
   @_HotkeyHook.process_event sample_platform h (sample_event KEY_DOWN 30 0)
     {[ 30 ]} ∅ ∅)
  = inr (chord_a_pressed_hook,
         {[ KeyboardEvent.key (sample_event KEY_DOWN 30 0) := SUSPEND ]}, 0%nat).
Proof. by_evaluation. Qed.

(** C6, the claim as stated fails twice. With hotkey [a, b] and timeout 1,
    [a] down at time 0 and [b] down at time 1: the elapsed time equals the
    timeout and does not exceed it, yet the hook resets, and the hotkey does
    not fire. With the chord [a+b], [a] down at time 0 and up at time 100:
    the elapsed time exceeds the timeout and the step is not standard, yet
    the key-up event resets nothing. *)
Lemma timeout_reset_at_equality_and_not_on_key_up :
  (~ _HotkeyHook.timeout a_pressed_hook
     < KeyboardEvent.time (sample_event KEY_DOWN 48 1) - 0
   /\ latest_time (_HotkeyHook.suspended_events a_pressed_hook) = Some 0
   /\ _HotkeyHook.timeout_reset a_pressed_hook (sample_event KEY_DOWN 48 1)
      = cleared a_pressed_hook
   /\ outcome (@_HotkeyHook.process_event sample_platform a_pressed_hook
                 (sample_event KEY_DOWN 48 1) {[ 48 ]} ∅ ∅)
      = inr (0, [], [], 0%nat))
  /\ (_HotkeyHook.timeout chord_a_pressed_hook
      < KeyboardEvent.time (sample_event KEY_UP 30 100) - 0
      /\ latest_time (_HotkeyHook.suspended_events chord_a_pressed_hook) = Some 0
      /\ Step.is_standard <$> Hotkey.steps chord_hotkey = [false]
      /\ outcome (@_HotkeyHook.process_event sample_platform chord_a_pressed_hook
                    (sample_event KEY_UP 30 100) ∅ ∅ ∅)
         = inr (0, [sample_event KEY_DOWN 30 0; sample_event KEY_UP 30 100],
                [(KeyboardEvent.key (sample_event KEY_DOWN 30 0), SUSPEND);
                 (KeyboardEvent.key (sample_event KEY_UP 30 100), SUSPEND)],
                0%nat)).
Proof.
  split.
  - split; [cbn; lia|]. split; [reflexivity|]. split; [reflexivity|].
    by_evaluation.
  - split; [cbn; lia|]. split; [reflexivity|]. split; [reflexivity|].
    by_evaluation.
Qed.

(** ** Unknown keys at parse time *)

Lemma map_res_Forall2 {A B : Type} (f : A -> Res B) (l : list A) :
  forall ys, map_res f l = inr ys -> Forall2 (fun x y => f x = inr y) l ys.
Proof.
  induction l as [|x l IH]; intros ys; cbn [map_res].
  - intros [= <-]. constructor.
  - destruct (f x) as [e|y] eqn:Hy; cbn; [discriminate|].
    destruct (map_res f l) as [e|ys']; cbn; [discriminate|].
    intros [= <-]. constructor; [exact Hy|now apply IH].
Qed.

Lemma Key_init_scan_codes (label scan_codes : PyVal) (key : Key.t) :
  Key.__init__ label scan_codes = inr key -> Key.scan_codes key <> [].
Proof.
  unfold Key.__init__. destruct (py_tuple scan_codes) as [e|items]; cbn;
    [discriminate|].
  destruct (all_numbers items) as [[|c cs]|]; [discriminate| |discriminate].
  now intros [= <-].
Qed.

Section UnknownKeys.
Context `{Platform}.




(** A name that is no sided modifier and that [map_name] does not know (it
    raises, or it lists no entry) makes [key_to_scan_codes] raise
    [ValueError]. *)
Lemma unmapped_name_raises_at (depth : nat) (name normalized : string) :
  normalize_name name = inr normalized ->
  normalized ∉ sided_modifiers ->
  map_name normalized = None \/ map_name normalized = Some [] ->
  key_to_scan_codes_at (S depth) (VStr name) true = inl ValueError.
Proof.
  intros Hnorm Hsided Hmap.
  cbn [key_to_scan_codes_at]. rewrite Hnorm. cbn [mbind Res_bind].
  rewrite (bool_decide_eq_false_2 _ Hsided).
  destruct Hmap as [-> | ->]; reflexivity.
Qed.

Lemma unmapped_name_raises_ValueError (name normalized : string) :
  normalize_name name = inr normalized ->
  normalized ∉ sided_modifiers ->
  map_name normalized = None \/ map_name normalized = Some [] ->
  key_to_scan_codes (VStr name) true = inl ValueError.
Proof.
  exact (unmapped_name_raises_at (Nat.pred recursion_limit) name normalized).
Qed.

#[local] Arguments key_to_scan_codes : simpl never.
#[local] Arguments key_of : simpl never.

Lemma key_of_scan_codes (k : PyVal) (key : Key.t) :
  key_of k = inr key -> Key.scan_codes key <> [].
Proof.
  unfold key_of. destruct (key_to_scan_codes k true) as [e|codes];
    [discriminate|].
  exact (Key_init_scan_codes k (VTuple (VInt <$> codes)) key).
Qed.









(** *** Which exception it is *)












End UnknownKeys.



Example unknown_key_name_error :
  @parse_hotkey sample_platform (AVal (VStr "ctrl+a, q")) = inl ValueError
  /\ @parse_hotkey sample_platform (AVal (VStr "shift+a")) = inl AssertionError
  /\ @parse_hotkey sample_platform (AVal (VList [VStr "ctrl"; VStr "q"]))
     = inl ValueError
  /\ @parse_hotkey sample_platform (AVal (VTuple [VStr "q"])) = inl ValueError
  /\ @parse_hotkey sample_platform (AVal (VList [VStr "shift"]))
     = inl AssertionError.
Proof. repeat split; by_evaluation. Qed.


(** ** The wire record of an event *)

Lemma strings_of_JStr (l : list string) :
  KeyboardEvent.strings_of (KeyboardEvent.JStr <$> l) = Some l.
Proof.
  induction l as [|s l IH]; cbn [fmap list_fmap KeyboardEvent.strings_of];
    [reflexivity|].
  fold (fmap (M:=list) KeyboardEvent.JStr l). now rewrite IH.
Qed.

(** The record always has the same eight fields, in this order; there is an
    [is_numpad] field and no [is_keypad] field. *)
Lemma wire_record_fields (e : Event) :
  (KeyboardEvent.to_json e).*1
  = ["event_type"; "scan_code"; "name"; "time"; "device"; "is_numpad";
     "modifiers"; "char"]
  /\ KeyboardEvent.field (KeyboardEvent.to_json e) "is_keypad" = None.
Proof. split; reflexivity. Qed.

(** Reading a record back calls the constructor on the fields of the
    event. *)
Lemma of_json_to_json `{Platform} (now : Z) (e : Event) :
  KeyboardEvent.of_json now (KeyboardEvent.to_json e)
  = KeyboardEvent.__init__ now (KeyboardEvent.event_type e)
      (KeyboardEvent.scan_code e) (KeyboardEvent.name e)
      (Some (KeyboardEvent.time e)) (KeyboardEvent.device e)
      (Some (KeyboardEvent.modifiers e)) (KeyboardEvent.is_numpad e)
      (KeyboardEvent.char e).
Proof.
  destruct e as [event_type scan_code name time device modifiers is_numpad char].
  unfold KeyboardEvent.of_json, KeyboardEvent.to_json.
  cbv [KeyboardEvent.event_type KeyboardEvent.scan_code KeyboardEvent.name
       KeyboardEvent.time KeyboardEvent.device KeyboardEvent.modifiers
       KeyboardEvent.is_numpad KeyboardEvent.char].
  replace (forallb _ _) with true by (vm_compute; reflexivity).
  cbv [negb].
  replace (KeyboardEvent.field _ "event_type")
    with (Some (KeyboardEvent.JStr match event_type with
                                   | KEY_DOWN => "down"
                                   | KEY_UP => "up"
                                   end)) by reflexivity.
  replace (KeyboardEvent.field _ "scan_code")
    with (Some (KeyboardEvent.JNum scan_code)) by reflexivity.
  replace (KeyboardEvent.field _ "name")
    with (Some (KeyboardEvent.json_of_option KeyboardEvent.JStr name))
    by reflexivity.
  replace (KeyboardEvent.field _ "time")
    with (Some (KeyboardEvent.JNum time)) by reflexivity.
  replace (KeyboardEvent.field _ "device")
    with (Some (KeyboardEvent.json_of_option KeyboardEvent.JStr device))
    by reflexivity.
  replace (KeyboardEvent.field _ "modifiers")
    with (Some (KeyboardEvent.JList (KeyboardEvent.JStr <$> modifiers)))
    by reflexivity.
  replace (KeyboardEvent.field _ "is_numpad")
    with (Some (KeyboardEvent.json_of_option KeyboardEvent.JBool is_numpad))
    by reflexivity.
  replace (KeyboardEvent.field _ "char")
    with (Some (KeyboardEvent.JStr char)) by reflexivity.
  rewrite strings_of_JStr.
  destruct event_type, name, device, is_numpad; reflexivity.
Qed.

(** Reading a record back gives the very same event as long as normalising
    its name again changes nothing (an event with no name included). *)
Lemma json_round_trip_stable_name `{Platform} (now : Z) (e : Event) :
  match KeyboardEvent.name e with
  | None => True
  | Some s => s <> EmptyString /\ normalize_name s = inr s
  end ->
  KeyboardEvent.of_json now (KeyboardEvent.to_json e) = inr e.
Proof.
  rewrite of_json_to_json.
  destruct e as [event_type scan_code name time device modifiers is_numpad char].
  cbv [KeyboardEvent.event_type KeyboardEvent.scan_code KeyboardEvent.name
       KeyboardEvent.time KeyboardEvent.device KeyboardEvent.modifiers
       KeyboardEvent.is_numpad KeyboardEvent.char].
  unfold KeyboardEvent.__init__.
  destruct name as [[|c s]|]; intros Hname.
  - now destruct Hname.
  - destruct Hname as [_ ->]. reflexivity.
  - reflexivity.
Qed.

Example nobreakspace_event_built :
  @KeyboardEvent.__init__ sample_platform 0 KEY_DOWN 57 (Some "nobreakspace")
    (Some 5) None None None "" = inr nobreakspace_event.
Proof. vm_compute. reflexivity. Qed.

(** C9, where the code departs from it. The record written for an event has
    no [is_keypad] field (the flag travels as [is_numpad], next to [device],
    [modifiers] and [char]); and reading back the record of the event named
    by a single space yields an event named [space], which [__eq__] tells
    apart from the original. *)
Theorem json_round_trip_renames_space :
  KeyboardEvent.field (KeyboardEvent.to_json nobreakspace_event) "is_keypad" = None
  /\ KeyboardEvent.field (KeyboardEvent.to_json nobreakspace_event) "is_numpad"
     = Some KeyboardEvent.JNull
  /\ exists e',
       @KeyboardEvent.of_json sample_platform 0
         (KeyboardEvent.to_json nobreakspace_event) = inr e'
       /\ KeyboardEvent.name e' = Some "space"
       /\ KeyboardEvent.name nobreakspace_event = Some " "
       /\ KeyboardEvent.__eq__ nobreakspace_event e' = false.
Proof.
  split; [reflexivity|]. split; [reflexivity|].
  eexists. split; [vm_compute; reflexivity|].
  split; [reflexivity|]. split; reflexivity.
Qed.

(** * Further properties of the listener *)

(** [list.remove] drops the item itself when no earlier item equals it. *)
Lemma list_remove_first {A K : Type} `{EqDecision K} (key : A -> K) (x : A)
    (pre rest : list A) :
  Forall (fun y => key y <> key x) pre ->
  list_remove key x (pre ++ x :: rest) = inr (pre ++ rest).
Proof.
  induction 1 as [|y pre Hy _ IH]; cbn [list_remove app].
  - now rewrite decide_True.
  - rewrite decide_False by exact Hy. now rewrite IH.
Qed.

Lemma verdict_of_key (answers : list Decisions) (e e' : Event) :
  KeyboardEvent.key e = KeyboardEvent.key e' ->
  verdict_of answers e = verdict_of answers e'.
Proof.
  intros Hkey. unfold verdict_of. f_equal.
  apply list_fmap_ext. intros _ a _. unfold get_decision. now rewrite Hkey.
Qed.

Section ListenerBookkeeping.
Context `{Platform}.

Lemma os_inject_all_nil (l : _KeyboardListener.t) (event_type : EventType) :
  _KeyboardListener.os_inject_all l event_type [] = (l, []).
Proof. reflexivity. Qed.

(** The replay of a suspended event ends with the injection of the event. *)
Lemma replay_output (l : _KeyboardListener.t) (temp : gset Z) (event : Event)
    (mods : gset Z) :
  exists before,
    snd (_KeyboardListener.replay l temp event mods)
    = before ++ [replayed (event, mods)].
Proof.
  unfold _KeyboardListener.replay.
  destruct (_KeyboardListener.os_inject_all l KEY_UP _) as [l1 out1].
  destruct (_KeyboardListener.os_inject_all l1 KEY_DOWN _) as [l2 out2].
  destruct (os_inject_frame l2 (KeyboardEvent.event_type event)
              (KeyboardEvent.scan_code event)) as [_ Hout].
  destruct (_KeyboardListener.os_inject l2 _ _) as [l3 out3].
  cbn [fst snd] in *. subst out3.
  exists (out1 ++ out2). now rewrite <- app_assoc.
Qed.

(** The loop over the suspended events never raises; it keeps exactly the
    pairs whose merged decision is SUSPEND, in their order, and injects each
    pair whose merged decision is ALLOW, in their order. *)
Lemma resolve_suspended_exact (answers : list Decisions)
    (todo : list (Event * gset Z)) :
  forall (l : _KeyboardListener.t) (temp : gset Z)
         (out : list _KeyboardListener.Output) (kept : list (Event * gset Z)),
    _KeyboardListener.suspended_event_pairs l = kept ++ todo ->
    Forall (stays_suspended answers) kept ->
    exists l' temp' out1,
      _KeyboardListener.resolve_suspended (or_empty_dict answers) todo l temp out
      = (l', temp', out ++ out1, inr ())
      /\ same_but_resolved l l'
      /\ _KeyboardListener.suspended_event_pairs l'
         = kept ++ filter (stays_suspended answers) todo
      /\ sublist (replayed <$> filter (allowed_now answers) todo) out1
      /\ (filter (allowed_now answers) todo = [] ->
          temp' = temp /\ out1 = []
          /\ _KeyboardListener.logically_pressed_keys l'
             = _KeyboardListener.logically_pressed_keys l).
Proof.
  induction todo as [|[se sm] rest IH]; intros l temp out kept Hpairs Hkept.
  - cbn. exists l, temp, []. rewrite app_nil_r in Hpairs. rewrite !app_nil_r.
    split; [reflexivity|]. split; [apply same_but_resolved_refl|].
    split; [exact Hpairs|]. split; [constructor|]. auto.
  - cbn [_KeyboardListener.resolve_suspended].
    rewrite merged_decision_strongest. fold (verdict_of answers se).
    assert (Hremove : verdict_of answers se <> SUSPEND ->
               forall l1,
                 _KeyboardListener.suspended_event_pairs l1
                 = _KeyboardListener.suspended_event_pairs l ->
                 _KeyboardListener.remove_pair l1 (se, sm)
                 = inr (_KeyboardListener.set_suspended_event_pairs l1
                          (kept ++ rest))).
    { intros Hd l1 Hl1. unfold _KeyboardListener.remove_pair.
      rewrite Hl1, Hpairs, list_remove_first; [reflexivity|].
      eapply Forall_impl; [exact Hkept|]. intros [e m] He Heq.
      apply Hd. rewrite <- He. unfold stays_suspended. cbn [fst].
      apply verdict_of_key. unfold _KeyboardListener.pair_key in Heq.
      cbn [fst snd] in Heq. congruence. }
    destruct (verdict_of answers se) eqn:Hd.
    + rewrite filter_cons_False by (unfold stays_suspended; cbn [fst]; congruence).
      rewrite filter_cons_True by exact Hd.
      pose proof (replay_frame l temp se sm) as Hframe.
      destruct (replay_output l temp se sm) as [before Hout].
      destruct (_KeyboardListener.replay l temp se sm) as [[l1 temp1] out1].
      cbn [fst snd] in Hframe, Hout. subst out1.
      rewrite (Hremove ltac:(discriminate) l1)
        by (destruct Hframe as (_ & _ & Hp & _); exact Hp).
      destruct (IH (_KeyboardListener.set_suspended_event_pairs l1 (kept ++ rest))
                  temp1 (out ++ before ++ [replayed (se, sm)]) kept eq_refl Hkept)
        as (l' & temp' & out2 & -> & F' & Hp' & Hsub & _).
      exists l', temp', ((before ++ [replayed (se, sm)]) ++ out2).
      split; [now rewrite !app_assoc|].
      split.
      { eapply same_but_resolved_trans; [|exact F'].
        apply same_but_logical_resolved in Hframe.
        eapply same_but_resolved_trans; [exact Hframe|repeat split]. }
      split; [exact Hp'|]. split.
      { cbn [fmap list_fmap]. rewrite <- app_assoc.
        apply sublist_inserts_l. cbn [app]. now apply sublist_skip. }
      discriminate.
    + rewrite filter_cons_True by exact Hd.
      rewrite filter_cons_False by (unfold allowed_now; cbn [fst]; congruence).
      destruct (IH l temp out (kept ++ [(se, sm)])) as
        (l' & temp' & out1 & -> & F' & Hp' & Hsub & Hnone).
      { now rewrite <- app_assoc. }
      { apply Forall_app. split; [exact Hkept|]. now repeat constructor. }
      exists l', temp', out1. split; [reflexivity|]. split; [exact F'|].
      split; [now rewrite <- app_assoc in Hp'|]. split; [exact Hsub|exact Hnone].
    + rewrite filter_cons_False by (unfold stays_suspended; cbn [fst]; congruence).
      rewrite filter_cons_False by (unfold allowed_now; cbn [fst]; congruence).
      rewrite (Hremove ltac:(discriminate) l eq_refl).
      destruct (IH (_KeyboardListener.set_suspended_event_pairs l (kept ++ rest))
                  temp out kept eq_refl Hkept)
        as (l' & temp' & out1 & -> & F' & Hp' & Hsub & Hnone).
      exists l', temp', out1. split; [reflexivity|].
      split; [eapply same_but_resolved_trans; [|exact F']; repeat split|].
      split; [exact Hp'|]. split; [exact Hsub|exact Hnone].
Qed.

(** What [run_sync_hooks] leaves behind once every hook has answered. *)
Lemma run_sync_hooks_resolved (l : _KeyboardListener.t) (event : Event)
    (hooks' : list Hook) (answers : list Decisions) :
  _KeyboardListener.run_hooks (_KeyboardListener.suppressing_hooks l) event
    (_KeyboardListener.physically_pressed_keys l)
    (_KeyboardListener.logically_pressed_keys l)
    (_KeyboardListener.active_modifiers l) = (hooks', inr answers) ->
  exists l5 out,
    _KeyboardListener.run_sync_hooks l event
    = (match verdict_of answers event with
       | SUSPEND =>
           _KeyboardListener.set_suspended_event_pairs l5
             (_KeyboardListener.suspended_event_pairs l5
              ++ [(event, _KeyboardListener.active_modifiers l)])
       | _ => l5
       end, out,
       inr match verdict_of answers event with
           | ALLOW => ALLOW
           | _ => SUPPRESS
           end)
    /\ _KeyboardListener.suspended_event_pairs l5
       = filter (stays_suspended answers) (_KeyboardListener.suspended_event_pairs l)
    /\ sublist (replayed <$> filter (allowed_now answers)
                               (_KeyboardListener.suspended_event_pairs l)) out
    /\ (filter (allowed_now answers) (_KeyboardListener.suspended_event_pairs l) = [] ->
        out = []
        /\ _KeyboardListener.logically_pressed_keys l5
           = _KeyboardListener.logically_pressed_keys l)
    /\ _KeyboardListener.suppressing_hooks l5 = hooks'
    /\ _KeyboardListener.is_replaying l5 = false.
Proof.
  intros Hrun. unfold _KeyboardListener.run_sync_hooks. rewrite Hrun.
  set (l0 := _KeyboardListener.set_suppressing_hooks l hooks').
  set (l1 := _KeyboardListener.set_is_replaying l0 true).
  destruct (resolve_suspended_exact answers
              (_KeyboardListener.suspended_event_pairs l1) l1
              (_KeyboardListener.active_modifiers l0) [] [] eq_refl)
    as (l2 & temp & out & -> & F2 & Hp2 & Hsub & Hnone); [constructor|].
  cbn [app] in *.
  pose proof (os_inject_all_frame l2 KEY_DOWN
                (elements (_KeyboardListener.active_modifiers l2 ∖ temp))) as [F3 O3].
  destruct (_KeyboardListener.os_inject_all l2 KEY_DOWN _) as [l3 out3] eqn:E3.
  pose proof (os_inject_all_frame l3 KEY_UP
                (elements (temp ∖ _KeyboardListener.active_modifiers l3))) as [F4 O4].
  destruct (_KeyboardListener.os_inject_all l3 KEY_UP _) as [l4 out4] eqn:E4.
  cbn [fst snd] in F3, F4, O3, O4.
  rewrite merged_decision_strongest. fold (verdict_of answers event).
  assert (F : same_but_logical l2 l4)
    by (eapply same_but_logical_trans; [exact F3|exact F4]).
  destruct F2 as (_ & Hm2 & _ & Hh2 & _). cbn in Hm2, Hh2.
  destruct F as (_ & Hm & Hp & _ & Hh & _).
  exists (_KeyboardListener.set_is_replaying l4 false), (out ++ out3 ++ out4).
  split; [|split; [|split; [|split; [|split; [|reflexivity]]]]].
  - destruct (verdict_of answers event); cbn; rewrite ?Hm, ?Hm2; reflexivity.
  - cbn. rewrite Hp. exact Hp2.
  - now apply sublist_inserts_r.
  - intros Hno. destruct (Hnone Hno) as (-> & -> & Hlog).
    assert (Hdiff : _KeyboardListener.active_modifiers l2
                    ∖ _KeyboardListener.active_modifiers l0 = ∅)
      by (rewrite Hm2; cbn; apply difference_diag_L).
    rewrite Hdiff, elements_empty, os_inject_all_nil in E3.
    injection E3 as <- <-.
    assert (Hdiff' : _KeyboardListener.active_modifiers l0
                     ∖ _KeyboardListener.active_modifiers l2 = ∅)
      by (rewrite Hm2; cbn; apply difference_diag_L).
    rewrite Hdiff', elements_empty, os_inject_all_nil in E4.
    injection E4 as <- <-.
    split; [reflexivity|]. cbn. exact Hlog.
  - cbn. now rewrite Hh, Hh2.
Qed.




(** Whatever the hooks do, [run_sync_hooks] leaves the pressed keys, the
    active modifiers, the queue and the non-suppressing hooks as they are,
    and returns with the guard clear when it was clear. *)
Lemma run_sync_hooks_frame (l : _KeyboardListener.t) (event : Event) :
  let l' := fst (fst (_KeyboardListener.run_sync_hooks l event)) in
  _KeyboardListener.physically_pressed_keys l'
  = _KeyboardListener.physically_pressed_keys l
  /\ _KeyboardListener.active_modifiers l' = _KeyboardListener.active_modifiers l
  /\ _KeyboardListener.async_events_queue l'
     = _KeyboardListener.async_events_queue l
  /\ _KeyboardListener.nonsuppressing_hooks l'
     = _KeyboardListener.nonsuppressing_hooks l
  /\ (_KeyboardListener.is_replaying l = false ->
      _KeyboardListener.is_replaying l' = false).
Proof.
  destruct (_KeyboardListener.run_hooks (_KeyboardListener.suppressing_hooks l)
              event (_KeyboardListener.physically_pressed_keys l)
              (_KeyboardListener.logically_pressed_keys l)
              (_KeyboardListener.active_modifiers l)) as [hooks' [e|answers]] eqn:Hrun.
  - unfold _KeyboardListener.run_sync_hooks. rewrite Hrun. cbn. auto.
  - unfold _KeyboardListener.run_sync_hooks. rewrite Hrun.
    set (l0 := _KeyboardListener.set_suppressing_hooks l hooks').
    set (l1 := _KeyboardListener.set_is_replaying l0 true).
    destruct (resolve_suspended_ok answers
                (_KeyboardListener.suspended_event_pairs l1) l1
                (_KeyboardListener.active_modifiers l0) [])
      as (l2 & temp & out & -> & F2); [reflexivity|].
    pose proof (os_inject_all_frame l2 KEY_DOWN
                  (elements (_KeyboardListener.active_modifiers l2 ∖ temp)))
      as [F3 _].
    destruct (_KeyboardListener.os_inject_all l2 KEY_DOWN _) as [l3 out3].
    pose proof (os_inject_all_frame l3 KEY_UP
                  (elements (temp ∖ _KeyboardListener.active_modifiers l3)))
      as [F4 _].
    destruct (_KeyboardListener.os_inject_all l3 KEY_UP _) as [l4 out4].
    cbn [fst] in F3, F4.
    rewrite merged_decision_strongest.
    assert (F : same_but_resolved l1 l4).
    { eapply same_but_resolved_trans; [exact F2|].
      apply same_but_logical_resolved.
      eapply same_but_logical_trans; [exact F3|exact F4]. }
    destruct F as (Hp & Hm & _ & _ & Hn & Hq). cbn in Hp, Hm, Hn, Hq.
    destruct (strongest _); cbn; auto.
Qed.

End ListenerBookkeeping.

Section ListenerProperties.
Context `{Platform}.

(** What one call of [process_sync_event] does to the fields the hooks have
    no hand in. *)
Lemma process_sync_event_frame (l : _KeyboardListener.t) (event : Event) :
  let l' := fst (fst (_KeyboardListener.process_sync_event l event)) in
  _KeyboardListener.is_replaying l' = _KeyboardListener.is_replaying l
  /\ _KeyboardListener.nonsuppressing_hooks l'
     = _KeyboardListener.nonsuppressing_hooks l
  /\ _KeyboardListener.physically_pressed_keys l'
     = _KeyboardListener.physically_pressed_keys
         (if _KeyboardListener.is_replaying l then l
          else _KeyboardListener.note_event l event)
  /\ _KeyboardListener.active_modifiers l'
     = _KeyboardListener.active_modifiers
         (if _KeyboardListener.is_replaying l then l
          else _KeyboardListener.note_event l event)
  /\ _KeyboardListener.async_events_queue l'
     = _KeyboardListener.async_events_queue
         (if _KeyboardListener.is_replaying l then l
          else _KeyboardListener.note_event l event).
Proof.
  unfold _KeyboardListener.process_sync_event.
  destruct (_KeyboardListener.is_replaying l) eqn:Hreplaying.
  - cbn. rewrite Hreplaying. auto.
  - pose proof (run_sync_hooks_frame (_KeyboardListener.note_event l event) event)
      as (Hp & Hm & Hq & Hn & Hr).
    destruct (_KeyboardListener.run_sync_hooks _ event) as [[l1 out] [e|[]]];
      cbn [fst] in *; cbn; rewrite Hr by exact Hreplaying; auto.
Qed.

(** X1. The active modifiers are always the physically pressed keys that are
    modifier scan codes: a listener in which this holds keeps it through any
    sequence of events, whatever its hooks decide, replay or raise. *)
Theorem active_modifiers_are_the_pressed_modifiers (l : _KeyboardListener.t)
    (events : list Event) :
  modifiers_consistent l ->
  modifiers_consistent (fst (fst (_KeyboardListener.process_events l events))).
Proof.
  revert l. induction events as [|event events IH]; intros l Hl; [exact Hl|].
  cbn [_KeyboardListener.process_events].
  pose proof (process_sync_event_frame l event) as (_ & _ & Hp & Hm & _).
  destruct (_KeyboardListener.process_sync_event l event) as [[l1 out] verdict].
  cbn [fst] in Hp, Hm.
  assert (Hl1 : modifiers_consistent l1).
  { unfold modifiers_consistent in *. rewrite Hp, Hm.
    destruct (_KeyboardListener.is_replaying l); [exact Hl|].
    unfold _KeyboardListener.note_event. cbn. rewrite Hl.
    apply set_eq. intros x.
    destruct (bool_decide_reflect
                (KeyboardEvent.scan_code event ∈ _modifier_scan_codes)) as [Hin|Hout];
      destruct (KeyboardEvent.event_type event);
      rewrite ?elem_of_intersection, ?elem_of_union, ?elem_of_difference,
        ?elem_of_intersection, ?elem_of_singleton;
      intuition (subst; auto; congruence). }
  destruct verdict as [e|v]; [exact Hl1|].
  specialize (IH l1 Hl1).
  destruct (_KeyboardListener.process_events l1 events) as [[l2 outs] verdicts].
  exact IH.
Qed.

(** X2. The replaying guard is left as it was found by every call of
    [process_sync_event], hence by any sequence of events: a listener that is
    not replaying is never left replaying, whatever its hooks decide or raise
    and however many suspended events are replayed. *)
Theorem replaying_guard_is_restored (l : _KeyboardListener.t)
    (events : list Event) :
  _KeyboardListener.is_replaying
    (fst (fst (_KeyboardListener.process_events l events)))
  = _KeyboardListener.is_replaying l.
Proof.
  revert l. induction events as [|event events IH]; intros l; [reflexivity|].
  cbn [_KeyboardListener.process_events].
  pose proof (process_sync_event_frame l event) as (Hr & _).
  destruct (_KeyboardListener.process_sync_event l event) as [[l1 out] verdict].
  cbn [fst] in Hr.
  destruct verdict as [e|v]; [exact Hr|].
  specialize (IH l1).
  destruct (_KeyboardListener.process_events l1 events) as [[l2 outs] verdicts].
  cbn [fst] in *. congruence.
Qed.

(** X3. With the guard clear, the physically pressed keys and the queue of
    the non-suppressing hooks depend on the events alone: after a sequence of
    events (up to and including the first one on which a hook raises), the
    pressed keys are those of the events folded in order and the queue has
    received exactly these events, once each and in order, whatever the
    suppressing hooks decided. *)
Theorem pressed_keys_and_queue_follow_the_events (l : _KeyboardListener.t)
    (events : list Event) :
  _KeyboardListener.is_replaying l = false ->
  let '(l', _, verdicts) := _KeyboardListener.process_events l events in
  let seen := take (length verdicts) events in
  _KeyboardListener.physically_pressed_keys l'
  = foldl (fun keys event => pressed_after event keys)
          (_KeyboardListener.physically_pressed_keys l) seen
  /\ _KeyboardListener.async_events_queue l'
     = _KeyboardListener.async_events_queue l ++ seen
  /\ ((forall e, inl e ∉ verdicts) -> seen = events).
Proof.
  revert l. induction events as [|event events IH]; intros l Hreplaying.
  - cbn. rewrite app_nil_r. auto.
  - cbn [_KeyboardListener.process_events].
    pose proof (process_sync_event_frame l event) as (Hr & _ & Hp & _ & Hq).
    destruct (_KeyboardListener.process_sync_event l event) as [[l1 out] verdict].
    cbn [fst] in Hr, Hp, Hq. rewrite Hreplaying in Hr, Hp, Hq.
    destruct verdict as [e|v].
    + cbn. rewrite Hp, Hq. cbn. split; [reflexivity|]. split; [reflexivity|].
      intros Hall. destruct (Hall e). apply list_elem_of_here.
    + specialize (IH l1 Hr).
      destruct (_KeyboardListener.process_events l1 events) as [[l2 outs] verdicts].
      destruct IH as (IHp & IHq & IHall).
      cbn [length take foldl]. rewrite IHp, IHq, Hp, Hq. cbn.
      split; [reflexivity|]. split; [now rewrite <- app_assoc|].
      intros Hall. f_equal. apply IHall.
      intros e He. apply (Hall e). now apply list_elem_of_further.
Qed.


Lemma filter_no_answer (pairs : list (Event * gset Z)) :
  filter (stays_suspended []) pairs = []
  /\ filter (allowed_now []) pairs = pairs.
Proof.
  induction pairs as [|pair pairs [IH1 IH2]]; [split; reflexivity|].
  rewrite filter_cons_False by discriminate.
  rewrite filter_cons_True by reflexivity.
  now rewrite IH1, IH2.
Qed.

(** X5. A listener left without suppressing hooks while events are suspended
    lets the next event through and, on that occasion, injects every suspended
    event again in the order of suspension and forgets them all. *)
Theorem without_hooks_suspended_events_are_flushed (l : _KeyboardListener.t)
    (event : Event) :
  _KeyboardListener.is_replaying l = false ->
  _KeyboardListener.suppressing_hooks l = [] ->
  exists l' out,
    _KeyboardListener.process_sync_event l event = (l', out, inr true)
    /\ _KeyboardListener.suspended_event_pairs l' = []
    /\ sublist (replayed <$> _KeyboardListener.suspended_event_pairs l) out.
Proof.
  intros Hreplaying Hhooks.
  assert (Hrun : _KeyboardListener.run_hooks
                   (_KeyboardListener.suppressing_hooks
                      (_KeyboardListener.note_event l event)) event
                   (_KeyboardListener.physically_pressed_keys
                      (_KeyboardListener.note_event l event))
                   (_KeyboardListener.logically_pressed_keys
                      (_KeyboardListener.note_event l event))
                   (_KeyboardListener.active_modifiers
                      (_KeyboardListener.note_event l event)) = ([], inr [])).
  { cbn [_KeyboardListener.note_event _KeyboardListener.suppressing_hooks].
    now rewrite Hhooks. }
  destruct (run_sync_hooks_resolved _ _ _ _ Hrun)
    as (l5 & out & Hsync & Hpairs & Hsub & _).
  destruct (filter_no_answer (_KeyboardListener.suspended_event_pairs l))
    as [Hnone Hall].
  cbn [_KeyboardListener.note_event _KeyboardListener.suspended_event_pairs]
    in Hpairs, Hsub.
  rewrite Hnone in Hpairs. rewrite Hall in Hsub.
  unfold _KeyboardListener.process_sync_event.
  rewrite Hreplaying, Hsync.
  change (verdict_of [] event) with ALLOW. cbv iota.
  eexists _, out. split; [reflexivity|]. split; [exact Hpairs|exact Hsub].
Qed.

(** X6. The listener injects keys only to replay a suspended event: when no
    suspended event is allowed by the hooks' answers, a call injects nothing,
    and the logically pressed keys change only by the event at hand, and only
    when it is allowed. An event that is suppressed or suspended is counted
    as physically pressed but not as logically pressed. *)
Theorem nothing_is_injected_without_a_replay (l : _KeyboardListener.t)
    (event : Event) (answers : list Decisions) :
  _KeyboardListener.is_replaying l = false ->
  hooks_answers l event = inr answers ->
  filter (allowed_now answers) (_KeyboardListener.suspended_event_pairs l) = [] ->
  exists l',
    _KeyboardListener.process_sync_event l event
    = (l', [], inr (bool_decide (verdict_of answers event = ALLOW)))
    /\ _KeyboardListener.logically_pressed_keys l'
       = (if bool_decide (verdict_of answers event = ALLOW)
          then pressed_after event (_KeyboardListener.logically_pressed_keys l)
          else _KeyboardListener.logically_pressed_keys l)
    /\ _KeyboardListener.physically_pressed_keys l'
       = pressed_after event (_KeyboardListener.physically_pressed_keys l).
Proof.
  intros Hreplaying Hanswers Hno. unfold hooks_answers in Hanswers.
  destruct (_KeyboardListener.run_hooks _ _ _ _ _) as [hooks' r] eqn:Hrun.
  cbn [snd] in Hanswers. subst r.
  destruct (run_sync_hooks_resolved _ _ _ _ Hrun)
    as (l5 & out & Hsync & _ & _ & Hnone & _).
  destruct (Hnone Hno) as [-> Hlog].
  pose proof (run_sync_hooks_frame (_KeyboardListener.note_event l event) event)
    as (Hp & _).
  unfold _KeyboardListener.process_sync_event.
  rewrite Hreplaying. rewrite Hsync in Hp |- *. cbn [fst] in Hp.
  destruct (verdict_of answers event);
    eexists; (split; [reflexivity|]); cbn [bool_decide decide_rel];
    cbn [_KeyboardListener.logically_pressed_keys
         _KeyboardListener.physically_pressed_keys _KeyboardListener.allow_event
         _KeyboardListener.set_logically_pressed_keys
         _KeyboardListener.set_suspended_event_pairs] in Hp, Hlog |- *;
    rewrite Hlog, Hp; split; reflexivity.
Qed.

(** X7. When a suppressing hook raises, [process_sync_event] raises the same
    exception before anything is replayed: nothing is injected, the suspended
    events and the logically pressed keys are as before, and the guard is not
    left set; the event has been counted as physically pressed and queued for
    the non-suppressing hooks all the same. *)
Theorem raising_hook_aborts_the_event (l : _KeyboardListener.t) (event : Event)
    (e : Exn) :
  _KeyboardListener.is_replaying l = false ->
  hooks_answers l event = inl e ->
  exists l',
    _KeyboardListener.process_sync_event l event = (l', [], inl e)
    /\ _KeyboardListener.suspended_event_pairs l'
       = _KeyboardListener.suspended_event_pairs l
    /\ _KeyboardListener.logically_pressed_keys l'
       = _KeyboardListener.logically_pressed_keys l
    /\ _KeyboardListener.is_replaying l' = false
    /\ _KeyboardListener.physically_pressed_keys l'
       = pressed_after event (_KeyboardListener.physically_pressed_keys l)
    /\ _KeyboardListener.async_events_queue l'
       = _KeyboardListener.async_events_queue l ++ [event].
Proof.
  intros Hreplaying Hanswers. unfold hooks_answers in Hanswers.
  destruct (_KeyboardListener.run_hooks _ _ _ _ _) as [hooks' r] eqn:Hrun.
  cbn [snd] in Hanswers. subst r.
  unfold _KeyboardListener.process_sync_event, _KeyboardListener.run_sync_hooks.
  rewrite Hreplaying, Hrun.
  eexists. split; [reflexivity|].
  cbn [_KeyboardListener.set_suppressing_hooks _KeyboardListener.note_event
       _KeyboardListener.suspended_event_pairs
       _KeyboardListener.logically_pressed_keys _KeyboardListener.is_replaying
       _KeyboardListener.physically_pressed_keys
       _KeyboardListener.async_events_queue].
  auto.
Qed.

End ListenerProperties.

Lemma active_modifiers_are_the_pressed_modifiers_witness :
  @modifiers_consistent sample_platform
    (fst (fst (@_KeyboardListener.process_events sample_platform
                 suspending_listener
                 [sample_event KEY_DOWN 29 1; sample_event KEY_DOWN 30 2;
                  sample_event KEY_UP 29 3]))).
Proof.
  apply (@active_modifiers_are_the_pressed_modifiers sample_platform
           suspending_listener).
  vm_compute. reflexivity.
Defined.

Lemma pressed_keys_and_queue_follow_the_events_witness :
  let '(l', _, verdicts) :=
    @_KeyboardListener.process_events sample_platform suspending_listener
      [sample_event KEY_DOWN 29 1; sample_event KEY_DOWN 30 2;
       sample_event KEY_UP 29 3] in
  let seen := take (length verdicts)
                [sample_event KEY_DOWN 29 1; sample_event KEY_DOWN 30 2;
                 sample_event KEY_UP 29 3] in
  _KeyboardListener.physically_pressed_keys l'
  = foldl (fun keys event => pressed_after event keys)
          (_KeyboardListener.physically_pressed_keys suspending_listener) seen
  /\ _KeyboardListener.async_events_queue l'
     = _KeyboardListener.async_events_queue suspending_listener ++ seen
  /\ ((forall e, inl e ∉ verdicts) ->
      seen = [sample_event KEY_DOWN 29 1; sample_event KEY_DOWN 30 2;
              sample_event KEY_UP 29 3]).
Proof.
  exact (@pressed_keys_and_queue_follow_the_events sample_platform
           suspending_listener
           [sample_event KEY_DOWN 29 1; sample_event KEY_DOWN 30 2;
            sample_event KEY_UP 29 3] eq_refl).
Defined.


(** Two suspended events replayed with their modifiers: the key 30 goes
    down with no modifier held, then the modifier 29 is pressed for the
    release of 30, and it is released again at the end. *)
Example replay_with_modifiers :
  snd (fst (@_KeyboardListener.process_sync_event sample_platform
              orphaned_listener (sample_event KEY_DOWN 48 3)))
  = [_KeyboardListener.Injected KEY_DOWN 30;
     _KeyboardListener.Injected KEY_DOWN 29;
     _KeyboardListener.Injected KEY_UP 30;
     _KeyboardListener.Injected KEY_UP 29].
Proof. by_evaluation. Qed.

Lemma without_hooks_suspended_events_are_flushed_witness :
  exists l' out,
    @_KeyboardListener.process_sync_event sample_platform orphaned_listener
      (sample_event KEY_DOWN 48 3)
    = (l', out, inr true)
    /\ _KeyboardListener.suspended_event_pairs l' = []
    /\ sublist [_KeyboardListener.Injected KEY_DOWN 30;
                _KeyboardListener.Injected KEY_UP 30] out.
Proof.
  exact (@without_hooks_suspended_events_are_flushed sample_platform
           orphaned_listener (sample_event KEY_DOWN 48 3) eq_refl eq_refl).
Defined.

Lemma nothing_is_injected_without_a_replay_witness :
  exists l',
    @_KeyboardListener.process_sync_event sample_platform suspending_listener
      (sample_event KEY_DOWN 30 2)
    = (l', [], inr false)
    /\ _KeyboardListener.logically_pressed_keys l'
       = _KeyboardListener.logically_pressed_keys suspending_listener
    /\ _KeyboardListener.physically_pressed_keys l'
       = pressed_after (sample_event KEY_DOWN 30 2)
           (_KeyboardListener.physically_pressed_keys suspending_listener).
Proof.
  exact (@nothing_is_injected_without_a_replay sample_platform
           suspending_listener (sample_event KEY_DOWN 30 2)
           [{[ KeyboardEvent.key (sample_event KEY_DOWN 30 2) := SUSPEND ]}]
           eq_refl eq_refl eq_refl).
Defined.

Lemma raising_hook_aborts_the_event_witness :
  exists l',
    @_KeyboardListener.process_sync_event sample_platform raising_listener
      (sample_event KEY_DOWN 30 1)
    = (l', [], inl IndexError)
    /\ _KeyboardListener.suspended_event_pairs l'
       = _KeyboardListener.suspended_event_pairs raising_listener
    /\ _KeyboardListener.logically_pressed_keys l'
       = _KeyboardListener.logically_pressed_keys raising_listener
    /\ _KeyboardListener.is_replaying l' = false
    /\ _KeyboardListener.physically_pressed_keys l'
       = pressed_after (sample_event KEY_DOWN 30 1)
           (_KeyboardListener.physically_pressed_keys raising_listener)
    /\ _KeyboardListener.async_events_queue l'
       = _KeyboardListener.async_events_queue raising_listener
         ++ [sample_event KEY_DOWN 30 1].
Proof.
  exact (@raising_hook_aborts_the_event sample_platform raising_listener
           (sample_event KEY_DOWN 30 1) IndexError eq_refl eq_refl).
Defined.

(** * Further properties of the hotkey hook *)

Lemma table_read_lookup (t : gmap (Z * list Z) Z) (k : Z * list Z) :
  table_read t k = default 0 (t !! k).
Proof. unfold table_read, dd_get. now destruct (t !! k). Qed.

Lemma dd_get_table_read (t : gmap (Z * list Z) Z) (k k' : Z * list Z) :
  table_read (fst (dd_get t k)) k' = table_read t k'.
Proof.
  rewrite !table_read_lookup. unfold dd_get.
  destruct (t !! k) as [v|] eqn:Hk; cbn [fst]; [reflexivity|].
  destruct (decide (k' = k)) as [->|Hne].
  - now rewrite lookup_insert_eq, Hk.
  - now rewrite lookup_insert_ne.
Qed.

Lemma same_settings_refl (h : _HotkeyHook.t) : same_settings h h.
Proof. repeat split. Qed.

Lemma same_settings_trans (h1 h2 h3 : _HotkeyHook.t) :
  same_settings h1 h2 -> same_settings h2 h3 -> same_settings h1 h3.
Proof.
  intros (?&?&?&?&R12) (?&?&?&?&R23).
  repeat split; first [congruence|intros k; now rewrite R23, R12].
Qed.

(** [list.remove] leaves a sublist. *)
Lemma list_remove_sublist {A K : Type} `{EqDecision K} (key : A -> K) (x : A)
    (l l' : list A) :
  list_remove key x l = inr l' -> sublist l' l.
Proof.
  revert l'. induction l as [|y l IH]; intros l'; cbn [list_remove];
    [discriminate|].
  destruct (decide (key y = key x)).
  - intros [= <-]. now apply sublist_cons.
  - destruct (list_remove key x l) as [e|rest]; [discriminate|].
    intros [= <-]. apply sublist_skip. now apply IH.
Qed.

Lemma drop_useless_sublist (order : list Event) :
  forall (suspended suspended' : list Event) (n_left : Z),
    _HotkeyHook.drop_useless order suspended n_left = inr suspended' ->
    sublist suspended' suspended.
Proof.
  induction order as [|e order IH]; intros suspended suspended' n_left;
    cbn [_HotkeyHook.drop_useless].
  - now intros [= <-].
  - destruct (n_left <=? 0).
    + destruct (list_remove KeyboardEvent.key e suspended) as [err|s1] eqn:Hs1;
        cbn; [discriminate|].
      intros Hrest. etrans; [eapply IH, Hrest|].
      eapply list_remove_sublist, Hs1.
    + cbn. apply IH.
Qed.

(** The keys of the returned dict: an event to suppress, with SUPPRESS, or a
    suspended event, with SUSPEND. *)
Lemma answer_lookup (suspended events_to_suppress : list Event) (k : EventKey)
    (d : Decision) :
  _HotkeyHook.answer suspended events_to_suppress !! k = Some d ->
  (d = SUPPRESS /\ k ∈ KeyboardEvent.key <$> events_to_suppress)
  \/ (d = SUSPEND /\ k ∈ KeyboardEvent.key <$> suspended).
Proof.
  unfold _HotkeyHook.answer.
  assert (Hfold : forall (dec : Decision) (l : list Event) (m : gmap EventKey Decision),
             foldl (fun d e => <[KeyboardEvent.key e := dec]> d) m l !! k = Some d ->
             (d = dec /\ k ∈ KeyboardEvent.key <$> l) \/ m !! k = Some d).
  { intros dec l. induction l as [|e l IH]; intros m; cbn [foldl]; [auto|].
    intros Hk. destruct (IH _ Hk) as [[-> Hin]|Hm].
    - left. split; [reflexivity|]. cbn. now apply list_elem_of_further.
    - destruct (decide (KeyboardEvent.key e = k)) as [<-|Hne].
      + rewrite lookup_insert_eq in Hm. injection Hm as <-.
        left. split; [reflexivity|]. cbn. apply list_elem_of_here.
      + rewrite lookup_insert_ne in Hm by exact Hne. now right. }
  intros Hk. destruct (Hfold _ _ _ Hk) as [?|Hk1]; [now left|].
  destruct (Hfold _ _ _ Hk1) as [?|Hk2]; [now right|].
  now rewrite lookup_empty in Hk2.
Qed.

Lemma mark_suppressed_subseteq (logical : gset Z) (suspended : list Event) :
  forall (ets : list Event) (releases : gset Z),
    fst (foldl (_HotkeyHook.mark_suppressed logical) (ets, releases) suspended)
    ⊆ ets ++ suspended.
Proof.
  induction suspended as [|e suspended IH]; intros ets releases; cbn [foldl].
  - now rewrite app_nil_r.
  - unfold _HotkeyHook.mark_suppressed at 2.
    etrans; [apply IH|].
    destruct (negb _).
    + now rewrite <- app_assoc.
    + intros x Hx. apply elem_of_app in Hx as [Hx|Hx]; apply elem_of_app;
        [now left|right; now apply list_elem_of_further].
Qed.

Section HotkeyHookProperties.
Context `{Platform}.

Lemma timeout_reset_same (h : _HotkeyHook.t) (event : Event) :
  same_settings h (_HotkeyHook.timeout_reset h event)
  /\ _HotkeyHook.suspended_events (_HotkeyHook.timeout_reset h event)
     ⊆ _HotkeyHook.suspended_events h.
Proof.
  unfold _HotkeyHook.timeout_reset.
  destruct (_HotkeyHook.timed_out h event); cbn.
  - split; [repeat split|]. intros x Hx. now apply elem_of_nil in Hx.
  - split; [apply same_settings_refl|reflexivity].
Qed.

Lemma match_input_same (h h' : _HotkeyHook.t) (step : Step.t)
    (is_main_key : bool) (event : Event) (physical mods : gset Z) :
  _HotkeyHook.match_input h step is_main_key event physical mods = inr h' ->
  same_settings h h'
  /\ _HotkeyHook.transitions h ⊆ _HotkeyHook.transitions h'
  /\ _HotkeyHook.suspended_events h'
     ⊆ _HotkeyHook.suspended_events h ++ [event].
Proof.
  unfold _HotkeyHook.match_input. destruct (_ || _ || _).
  - pose proof (dd_get_subseteq (_HotkeyHook.transitions h)
                  (_HotkeyHook.state h,
                   if Step.is_standard step
                   then sorted (KeyboardEvent.scan_code event :: elements mods)
                   else sorted (elements physical))) as Hsub.
    pose proof (fun k' => dd_get_table_read (_HotkeyHook.transitions h)
                  (_HotkeyHook.state h,
                   if Step.is_standard step
                   then sorted (KeyboardEvent.scan_code event :: elements mods)
                   else sorted (elements physical)) k') as Hread.
    destruct (dd_get _ _) as [t' state']. cbn [fst] in Hsub, Hread.
    destruct (_HotkeyHook.drop_useless _ _ _) as [e|suspended'] eqn:Hdrop; cbn;
      [discriminate|].
    intros [= <-]. cbn. split; [repeat split; exact Hread|].
    split; [exact Hsub|].
    apply drop_useless_sublist in Hdrop.
    now apply sublist_subseteq.
  - intros [= <-]. cbn. split; [repeat split|]. split; reflexivity.
Qed.

Lemma key_up_branch_same (h : _HotkeyHook.t) (event : Event) :
  let r := _HotkeyHook.key_up_branch h event in
  same_settings h (fst r)
  /\ _HotkeyHook.transitions (fst r) = _HotkeyHook.transitions h
  /\ _HotkeyHook.suspended_events (fst r)
     ⊆ _HotkeyHook.suspended_events h ++ [event]
  /\ snd r ⊆ [event].
Proof.
  unfold _HotkeyHook.key_up_branch.
  repeat (destruct (bool_decide _)); cbn;
    (split; [repeat split|]; split; [reflexivity|]; split);
    try reflexivity;
    try (intros x Hx; apply elem_of_app; now left);
    intros x Hx; now apply elem_of_nil in Hx.
Qed.

Lemma complete_same (h : _HotkeyHook.t) (is_main_key : bool) (event : Event)
    (logical : gset Z) (ets : list Event) :
  let r := _HotkeyHook.complete h is_main_key event logical ets in
  same_settings h (fst (fst r))
  /\ _HotkeyHook.transitions (fst (fst r)) = _HotkeyHook.transitions h
  /\ _HotkeyHook.suspended_events (fst (fst r)) ⊆ _HotkeyHook.suspended_events h
  /\ snd (fst r) ⊆ ets ++ _HotkeyHook.suspended_events h
  /\ (snd r <= 1)%nat
  /\ (snd r = 1%nat ->
      _HotkeyHook.state (fst (fst r)) = 0
      /\ _HotkeyHook.suspended_events (fst (fst r)) = []
      /\ (_HotkeyHook.callback h = RDecision ALLOW -> snd (fst r) = ets)).
Proof.
  unfold _HotkeyHook.complete.
  destruct (_HotkeyHook.triggers h is_main_key event).
  - pose proof (mark_suppressed_subseteq logical (_HotkeyHook.suspended_events h)
                  ets (_HotkeyHook.scan_code_releases_to_suppress h)) as Hmark.
    destruct (_HotkeyHook.callback h) as [[]|] eqn:Hcb;
      try destruct (foldl _ _ _) as [ets' releases]; cbn [fst snd] in *;
      (split; [repeat split; cbn; now rewrite Hcb|]; split; [reflexivity|]; split;
       [intros x Hx; now apply elem_of_nil in Hx|]; split;
       [|split; [lia|]]);
      try exact Hmark;
      try (intros x Hx; apply elem_of_app; now left);
      intros _; repeat split; intros; congruence.
  - cbn. split; [apply same_settings_refl|]. split; [reflexivity|].
    split; [reflexivity|]. split; [|split; [lia|discriminate]].
    intros x Hx. apply elem_of_app. now left.
Qed.

(** One call of [process_event] that returns. *)
Lemma process_event_same (h h' : _HotkeyHook.t) (event : Event)
    (physical logical mods : gset Z) (decisions : Decisions) (calls : nat) :
  _HotkeyHook.process_event h event physical logical mods
  = inr (h', decisions, calls) ->
  same_settings h h'
  /\ _HotkeyHook.transitions h ⊆ _HotkeyHook.transitions h'
  /\ (forall k d, decisions !! k = Some d ->
        d <> ALLOW
        /\ k ∈ KeyboardEvent.key <$> (_HotkeyHook.suspended_events h ++ [event]))
  /\ (calls <= 1)%nat
  /\ (calls = 1%nat ->
      _HotkeyHook.state h' = 0
      /\ _HotkeyHook.suspended_events h' = []
      /\ (_HotkeyHook.callback h = RDecision ALLOW ->
          KeyboardEvent.event_type event = KEY_DOWN -> decisions = ∅)).
Proof.
  unfold _HotkeyHook.process_event.
  destruct (py_index _ _) as [e|step]; cbn; [discriminate|].
  destruct (_HotkeyHook.is_main_key_of step event) as [e|is_main_key]; cbn;
    [discriminate|].
  set (branch := match KeyboardEvent.event_type event with
                 | KEY_DOWN => _
                 | KEY_UP => _
                 end).
  assert (Hbranch : forall h1 ets,
             branch = inr (h1, ets) ->
             same_settings h h1
             /\ _HotkeyHook.transitions h ⊆ _HotkeyHook.transitions h1
             /\ _HotkeyHook.suspended_events h1
                ⊆ _HotkeyHook.suspended_events h ++ [event]
             /\ ets ⊆ [event]
             /\ (KeyboardEvent.event_type event = KEY_DOWN -> ets = [])).
  { subst branch. intros h1 ets. destruct (KeyboardEvent.event_type event).
    - assert (Hidle : @inr Exn _ (h, @nil Event) = inr (h1, ets) ->
                same_settings h h1
                /\ _HotkeyHook.transitions h ⊆ _HotkeyHook.transitions h1
                /\ _HotkeyHook.suspended_events h1
                   ⊆ _HotkeyHook.suspended_events h ++ [event]
                /\ ets ⊆ [event]
                /\ (KEY_DOWN = KEY_DOWN -> ets = [])).
      { intros [= <- <-]. split; [apply same_settings_refl|].
        split; [reflexivity|]. split; [|split; [|reflexivity]].
        - intros x Hx. apply elem_of_app. now left.
        - intros x Hx. now apply elem_of_nil in Hx. }
      destruct (_ && _); [exact Hidle|].
      destruct (_ <? _); [|exact Hidle].
      destruct (_HotkeyHook.match_input _ _ _ _ _ _) as [e|h2] eqn:Hmatch; cbn;
        [discriminate|].
      intros [= <- <-].
      apply match_input_same in Hmatch as (S2 & T2 & E2).
      destruct (timeout_reset_same h event) as [S1 E1].
      split; [eapply same_settings_trans; eassumption|].
      split.
      { etrans; [|exact T2]. unfold _HotkeyHook.timeout_reset.
        now destruct (_HotkeyHook.timed_out h event). }
      split; [|split; [|reflexivity]].
      + intros x Hx. apply E2 in Hx. apply elem_of_app in Hx as [Hx|Hx];
          apply elem_of_app; [left; now apply E1|now right].
      + intros x Hx. now apply elem_of_nil in Hx.
    - pose proof (key_up_branch_same h event) as (S1 & T1 & E1 & U1).
      destruct (_HotkeyHook.key_up_branch h event) as [h1' ets'].
      intros [= <- <-]. cbn [fst snd] in *.
      split; [exact S1|]. split; [now rewrite T1|]. split; [exact E1|].
      split; [exact U1|discriminate]. }
  destruct branch as [e|[h1 ets]]; cbn; [discriminate|].
  destruct (Hbranch h1 ets eq_refl) as (S1 & T1 & E1 & U1 & D1).
  pose proof (complete_same h1 is_main_key event logical ets)
    as (S2 & T2 & E2 & U2 & C2 & F2).
  destruct (_HotkeyHook.complete h1 is_main_key event logical ets)
    as [[h2 ets'] calls']. cbn [fst snd] in *.
  intros [= <- <- <-].
  split; [eapply same_settings_trans; eassumption|].
  split; [now rewrite T2|].
  split; [|split; [exact C2|]].
  - intros k d Hk. apply answer_lookup in Hk as [[-> Hin]|[-> Hin]];
      (split; [discriminate|]);
      apply list_elem_of_fmap in Hin as (x & -> & Hx);
      apply list_elem_of_fmap_2.
    + apply U2 in Hx. apply elem_of_app in Hx as [Hx|Hx].
      * apply U1 in Hx. apply elem_of_app. now right.
      * now apply E1.
    + now apply E1, E2.
  - intros Hcalls. destruct (F2 Hcalls) as (Hstate & Hsusp & Hallow).
    split; [exact Hstate|]. split; [exact Hsusp|].
    intros Hcb Hdown. destruct S1 as (Hcb1 & _).
    rewrite Hsusp, (Hallow ltac:(congruence)), (D1 Hdown). reflexivity.
Qed.

End HotkeyHookProperties.

Lemma product_length (lists : list (list Z)) :
  forall chord, chord ∈ product lists -> length chord = length lists.
Proof.
  induction lists as [|l lists IH]; intros chord; cbn [product].
  - intros Hin. apply list_elem_of_singleton in Hin. now subst.
  - intros Hin. apply list_elem_of_bind in Hin as (x & Hin & _).
    apply list_elem_of_fmap in Hin as (rest & -> & Hrest).
    cbn. f_equal. now apply IH.
Qed.

Lemma sorted_length (l : list Z) : length (sorted l) = length l.
Proof. unfold sorted. now rewrite merge_sort_Permutation. Qed.

Lemma table_advances_subseteq (hk : Hotkey.t) (t t' : gmap (Z * list Z) Z) :
  t ⊆ t' -> table_advances hk t -> table_advances hk t'.
Proof.
  intros Hsub Ht i step chord Hi Hchord.
  eapply lookup_weaken; [|exact Hsub]. exact (Ht i step chord Hi Hchord).
Qed.

Section HotkeyHookAdvance.
Context `{Platform}.

Lemma process_calls_table (hk : Hotkey.t)
    (calls : list (Event * gset Z * gset Z * gset Z)) :
  forall h h',
    process_calls h calls = inr h' ->
    _HotkeyHook.hotkey h = hk -> table_advances hk (_HotkeyHook.transitions h) ->
    _HotkeyHook.hotkey h' = hk /\ table_advances hk (_HotkeyHook.transitions h').
Proof.
  induction calls as [|[[[event physical] logical] mods] calls IH];
    intros h h'; cbn [process_calls].
  - intros [= <-]. auto.
  - destruct (_HotkeyHook.process_event h event physical logical mods)
      as [e|[[h1 d] n]] eqn:Hcall; cbn; [discriminate|].
    intros Hrest Hhk Ht.
    apply process_event_same in Hcall as ((_ & Hhk1 & _) & Hsub & _).
    apply (IH h1 h' Hrest); [congruence|].
    eapply table_advances_subseteq; eassumption.
Qed.

Lemma reachable_table (hk : Hotkey.t) (h : _HotkeyHook.t) :
  reachable hk h ->
  _HotkeyHook.hotkey h = hk /\ table_advances hk (_HotkeyHook.transitions h).
Proof.
  intros (Hkeys & timeout & tor & cb & h0 & calls & Hinit & Hcalls).
  unfold _HotkeyHook.__init__, _HotkeyHook.build_hotkey_transition_table in Hinit.
  destruct (build_steps_spec (Hotkey.steps hk) Hkeys 0 ∅ [] None)
    as (t & history & last & Hbuild & _ & Hchords).
  rewrite Hbuild in Hinit. cbn in Hinit. injection Hinit as <-.
  apply (process_calls_table hk calls _ h Hcalls); [reflexivity|].
  intros i step chord Hi Hchord. cbn.
  specialize (Hchords i step chord Hi Hchord).
  now rewrite !Z.add_0_l in Hchords.
Qed.

(** X11. A hook built by [add_hotkey] that stands at step [i], on a key-down
    event whose input (the key with the active modifiers for a standard step,
    the pressed keys otherwise) is a chord of that step and that comes before
    the timeout: the call returns, and either it completes the hotkey (last
    step, main key, not waiting for the release), runs the callback exactly
    once and leaves the hook idle, or it runs no callback and moves the hook
    to step [i + 1]. *)
Theorem matching_chord_advances_or_fires (hk : Hotkey.t) (h : _HotkeyHook.t)
    (event : Event) (physical logical mods : gset Z) (i : nat) (step : Step.t)
    (is_main_key : bool) (chord : list Z) :
  reachable hk h ->
  _HotkeyHook.state h = Z.of_nat i ->
  Hotkey.steps hk !! i = Some step ->
  _HotkeyHook.is_main_key_of step event = inr is_main_key ->
  KeyboardEvent.event_type event = KEY_DOWN ->
  (Step.is_standard step = true ->
   KeyboardEvent.scan_code event ∉ _modifier_scan_codes) ->
  _HotkeyHook.timed_out h event = false ->
  chord ∈ product (Key.scan_codes <$> Step.keys step) ->
  input_scan_codes step event physical mods = sorted chord ->
  exists h' decisions calls,
    _HotkeyHook.process_event h event physical logical mods
    = inr (h', decisions, calls)
    /\ if bool_decide (S i = length (Hotkey.steps hk)) && is_main_key
          && negb (_HotkeyHook.trigger_on_release h)
       then calls = 1%nat /\ _HotkeyHook.state h' = 0
            /\ _HotkeyHook.suspended_events h' = []
       else calls = 0%nat /\ _HotkeyHook.state h' = Z.of_nat i + 1.
Proof.
  intros Hreach Hstate Hstep Hmain Hdown Hmod Htime Hchord Hinput.
  destruct (reachable_table hk h Hreach) as [Hhk Htable].
  pose proof (lookup_lt_Some _ _ _ Hstep) as Hlt.
  unfold _HotkeyHook.process_event. rewrite Hhk, Hstate.
  assert (Hindex : py_index (Hotkey.steps hk)
                     (Z.min (Z.of_nat i) (Z.of_nat (length (Hotkey.steps hk)) - 1))
                   = inr step).
  { unfold py_index. rewrite Z.min_l by lia.
    destruct (Z.of_nat i <? 0) eqn:Hneg; [lia|]. rewrite Hneg.
    now rewrite Nat2Z.id, Hstep. }
  rewrite Hindex. cbn. rewrite Hmain. cbn. rewrite Hdown.
  assert (Hnotmod : bool_decide (KeyboardEvent.scan_code event ∈ _modifier_scan_codes)
                    && Step.is_standard step = false).
  { destruct (Step.is_standard step); [|apply andb_false_r].
    rewrite andb_true_r. apply bool_decide_eq_false_2. now apply Hmod. }
  rewrite Hnotmod.
  destruct (Z.of_nat i <? Z.of_nat (length (Hotkey.steps hk))) eqn:Hbelow; [|lia].
  unfold _HotkeyHook.timeout_reset. rewrite Htime.
  unfold _HotkeyHook.match_input.
  fold (input_scan_codes step event physical mods). rewrite Hinput, Hstate.
  assert (Hlookup : Step.is_standard step
                    || bool_decide (length (Step.keys step) <= size physical)%nat
                    || negb is_main_key = true).
  { destruct (Step.is_standard step) eqn:Hstd; [reflexivity|].
    cbn [orb]. rewrite bool_decide_eq_true_2; [reflexivity|].
    unfold input_scan_codes in Hinput. rewrite Hstd in Hinput.
    apply (f_equal length) in Hinput. rewrite !sorted_length in Hinput.
    rewrite (product_length _ _ Hchord), length_fmap in Hinput.
    unfold size, set_size. cbn. lia. }
  rewrite Hlookup.
  unfold dd_get. rewrite (Htable i step chord Hstep Hchord).
  destruct (drop_useless_ok
              (_HotkeyHook.sorted_by_time_desc
                 (_HotkeyHook.suspended_events h ++ [event]))
              (_HotkeyHook.suspended_events h ++ [event])
              (_HotkeyHook.useful_presses
                 (py_take (Z.of_nat i + 1) (Hotkey.steps (_HotkeyHook.hotkey h)))))
    as [suspended' ->].
  { now rewrite sorted_by_time_desc_Permutation. }
  cbn. unfold _HotkeyHook.complete, _HotkeyHook.triggers. cbn. rewrite Hhk.
  destruct (bool_decide_reflect (S i = length (Hotkey.steps hk))) as [Hlast|Hmore].
  - rewrite bool_decide_eq_true_2 by lia. cbn [andb].
    destruct is_main_key; cbn [andb].
    + rewrite Hdown.
      destruct (_HotkeyHook.trigger_on_release h); cbn.
      * rewrite bool_decide_eq_false_2 by discriminate.
        eexists _, _, _. split; [reflexivity|]. cbn. auto.
      * destruct (match _HotkeyHook.callback h with
                  | RDecision ALLOW => _
                  | _ => _
                  end) as [ets releases].
        eexists _, _, _. split; [reflexivity|]. cbn. auto.
    + eexists _, _, _. split; [reflexivity|]. cbn. auto.
  - rewrite bool_decide_eq_false_2 by lia. cbn [andb].
    eexists _, _, _. split; [reflexivity|]. cbn. auto.
Qed.

(** X8. A hotkey hook's settings are fixed at construction: over any
    sequence of calls to [process_event] the callback, the hotkey, the
    timeout and the trigger mode stay the same, and the transition table
    reads the same under every key (a read may only store the default it
    returned). *)
Theorem hotkey_hook_settings_are_fixed (h h' : _HotkeyHook.t)
    (calls : list (Event * gset Z * gset Z * gset Z)) :
  process_calls h calls = inr h' -> same_settings h h'.
Proof.
  revert h. induction calls as [|[[[event physical] logical] mods] calls IH];
    intros h; cbn [process_calls].
  - intros [= <-]. apply same_settings_refl.
  - destruct (_HotkeyHook.process_event h event physical logical mods)
      as [e|[[h1 d] n]] eqn:Hcall; cbn; [discriminate|].
    intros Hrest. apply process_event_same in Hcall as (Hsame & _).
    eapply same_settings_trans; [exact Hsame|now apply IH].
Qed.

(** X9. A hotkey hook decides only on events it holds: every key of the dict
    returned by [process_event] is the event at hand or an event the hook had
    suspended, and its decision is SUSPEND or SUPPRESS, never ALLOW. Every
    other event is left to the listener's default. *)
Theorem hotkey_hook_decides_only_on_its_events (h h' : _HotkeyHook.t)
    (event : Event) (physical logical mods : gset Z) (decisions : Decisions)
    (calls : nat) (k : EventKey) (d : Decision) :
  _HotkeyHook.process_event h event physical logical mods
  = inr (h', decisions, calls) ->
  decisions !! k = Some d ->
  (d = SUSPEND \/ d = SUPPRESS)
  /\ k ∈ KeyboardEvent.key <$> (_HotkeyHook.suspended_events h ++ [event]).
Proof.
  intros Hcall Hk.
  apply process_event_same in Hcall as (_ & _ & Hkeys & _).
  destruct (Hkeys k d Hk) as [Hd Hin]. split; [|exact Hin].
  destruct d; [contradiction|auto|auto].
Qed.

(** X10. [process_event] runs the callback at most once; when it has run it,
    the hook is idle again (state 0, nothing suspended), and if the callback
    returned ALLOW on a key-down event the returned dict is empty, so that
    the listener allows the event and every event that was suspended. *)
Theorem fired_hotkey_hook_is_idle (h h' : _HotkeyHook.t) (event : Event)
    (physical logical mods : gset Z) (decisions : Decisions) (calls : nat) :
  _HotkeyHook.process_event h event physical logical mods
  = inr (h', decisions, calls) ->
  (calls <= 1)%nat
  /\ (calls = 1%nat ->
      _HotkeyHook.state h' = 0
      /\ _HotkeyHook.suspended_events h' = []
      /\ (_HotkeyHook.callback h = RDecision ALLOW ->
          KeyboardEvent.event_type event = KEY_DOWN -> decisions = ∅)).
Proof.
  intros Hcall. now apply process_event_same in Hcall as (_ & _ & _ & Hcalls).
Qed.

End HotkeyHookAdvance.

Example fresh_two_step_hook :
  _HotkeyHook.__init__ two_step_hotkey 1 false ROther
  = inr (cleared a_pressed_hook).
Proof. by_evaluation. Qed.

Lemma a_pressed_hook_reachable :
  @reachable sample_platform two_step_hotkey a_pressed_hook.
Proof.
  split; [repeat constructor; discriminate|].
  exists 1, false, ROther, (cleared a_pressed_hook),
    [(sample_event KEY_DOWN 30 0, {[ 30 ]}, ∅, ∅)].
  split; by_evaluation.
Qed.

Lemma matching_chord_advances_or_fires_witness :
  exists h' decisions calls,
    @_HotkeyHook.process_event sample_platform a_pressed_hook
      (sample_event KEY_DOWN 48 0) {[ 48 ]} ∅ ∅
    = inr (h', decisions, calls)
    /\ calls = 1%nat /\ _HotkeyHook.state h' = 0
    /\ _HotkeyHook.suspended_events h' = [].
Proof.
  exact (@matching_chord_advances_or_fires sample_platform two_step_hotkey
           a_pressed_hook (sample_event KEY_DOWN 48 0) {[ 48 ]} ∅ ∅ 1%nat
           (Step.mk [Key.mk (VStr "b") [48]] [] true (Some (Key.mk (VStr "b") [48])))
           true [48] a_pressed_hook_reachable eq_refl eq_refl eq_refl eq_refl
           (fun _ => ltac:(vm_compute; set_solver)) eq_refl
           ltac:(vm_compute; apply list_elem_of_here) eq_refl).
Defined.

Lemma hotkey_hook_settings_are_fixed_witness :
  same_settings (cleared a_pressed_hook) a_pressed_hook.
Proof.
  apply (@hotkey_hook_settings_are_fixed sample_platform (cleared a_pressed_hook)
           a_pressed_hook [(sample_event KEY_DOWN 30 0, {[ 30 ]}, ∅, ∅)]).
  by_evaluation.
Defined.

Lemma hotkey_hook_decides_only_on_its_events_witness :
  (SUSPEND = SUSPEND \/ SUSPEND = SUPPRESS)
  /\ KeyboardEvent.key (sample_event KEY_DOWN 30 0)
     ∈ KeyboardEvent.key
         <$> (_HotkeyHook.suspended_events (cleared a_pressed_hook)
              ++ [sample_event KEY_DOWN 30 0]).
Proof.
  apply (@hotkey_hook_decides_only_on_its_events sample_platform
           (cleared a_pressed_hook) a_pressed_hook (sample_event KEY_DOWN 30 0)
           {[ 30 ]} ∅ ∅
           {[ KeyboardEvent.key (sample_event KEY_DOWN 30 0) := SUSPEND ]} 0%nat).
  - by_evaluation.
  - apply lookup_singleton_eq.
Defined.

Lemma fired_hotkey_hook_is_idle_witness :
  let h := _HotkeyHook.mk (RDecision ALLOW) two_step_hotkey 2 false
             (_HotkeyHook.transitions a_pressed_hook) 1
             [sample_event KEY_DOWN 30 0] ∅ in
  let h' := _HotkeyHook.mk (RDecision ALLOW) two_step_hotkey 2 false
              (_HotkeyHook.transitions a_pressed_hook) 0 [] ∅ in
  @_HotkeyHook.process_event sample_platform h (sample_event KEY_DOWN 48 1)
    {[ 48 ]} ∅ ∅ = inr (h', ∅, 1%nat)
  /\ (1 <= 1)%nat
  /\ (1%nat = 1%nat ->
      _HotkeyHook.state h' = 0
      /\ _HotkeyHook.suspended_events h' = []
      /\ (_HotkeyHook.callback h = RDecision ALLOW ->
          KeyboardEvent.event_type (sample_event KEY_DOWN 48 1) = KEY_DOWN ->
          (∅ : gmap EventKey Decision) = ∅)).
Proof.
  assert (Hcall :
    @_HotkeyHook.process_event sample_platform
      (_HotkeyHook.mk (RDecision ALLOW) two_step_hotkey 2 false
         (_HotkeyHook.transitions a_pressed_hook) 1
         [sample_event KEY_DOWN 30 0] ∅)
      (sample_event KEY_DOWN 48 1) {[ 48 ]} ∅ ∅
    = inr (_HotkeyHook.mk (RDecision ALLOW) two_step_hotkey 2 false
             (_HotkeyHook.transitions a_pressed_hook) 0 [] ∅, ∅, 1%nat))
    by by_evaluation.
  split; [exact Hcall|].
  exact (@fired_hotkey_hook_is_idle sample_platform _ _ _ _ _ _ _ _ Hcall).
Defined.

(** * Further properties of parsing *)

Lemma is_space_not_plus (c : ascii) : is_space c = true -> Ascii.eqb c "+" = false.
Proof.
  destruct (Ascii.eqb_spec c "+") as [->|]; [|reflexivity]. discriminate.
Qed.

(** Splitting at the commas: one piece more than there are commas, and no
    plus sign is lost. *)
Lemma split_steps_count (n : nat) :
  forall s piece,
    (length s <= n)%nat ->
    length (split_steps s piece) = S (count_char "," s)
    /\ sum_list (count_char "+" <$> split_steps s piece)
       = (count_char "+" (reverse piece) + count_char "+" s)%nat.
Proof.
  assert (Hsnoc : forall c piece,
             count_char "+" (reverse (c :: piece))
             = (count_char "+" (reverse piece)
                + (if Ascii.eqb c "+" then 1 else 0))%nat).
  { intros c piece. rewrite reverse_cons.
    induction (reverse piece) as [|x l IH]; cbn; [lia|]. rewrite IH. lia. }
  induction n as [|n IH]; intros s piece Hlen.
  - destruct s; [|cbn in Hlen; lia]. cbn. split; lia.
  - destruct s as [|c rest]; [cbn; split; lia|].
    cbn [split_steps count_char]. cbn in Hlen.
    destruct (Ascii.eqb_spec c ",") as [->|Hc].
    + change (Ascii.eqb "," "+") with false. cbv iota.
      destruct rest as [|w rest']; [cbn; split; lia|].
      cbn in Hlen. destruct (is_space w) eqn:Hw.
      * destruct (IH rest' [] ltac:(lia)) as [IH1 IH2].
        cbn [length fmap list_fmap sum_list sum_list_with count_char].
        rewrite IH1, IH2, (is_space_not_plus w Hw).
        assert (Hwc : Ascii.eqb w "," = false)
          by (destruct (Ascii.eqb_spec w ",") as [->|]; [discriminate|reflexivity]).
        rewrite Hwc. cbn. split; lia.
      * destruct (IH (w :: rest') [] ltac:(cbn; lia)) as [IH1 IH2].
        cbn [length fmap list_fmap sum_list sum_list_with].
        rewrite IH1, IH2. cbn. split; lia.
    + destruct (IH rest (c :: piece) ltac:(lia)) as [IH1 IH2].
      rewrite IH1, IH2, Hsnoc. split; lia.
Qed.

(** Splitting at the plus signs: one key more than there are plus signs. *)
Lemma split_keys_count (n : nat) :
  forall s piece,
    (length s <= n)%nat ->
    length (split_keys s piece) = S (count_char "+" s).
Proof.
  induction n as [|n IH]; intros s piece Hlen.
  - destruct s; [|cbn in Hlen; lia]. reflexivity.
  - destruct s as [|c rest]; [reflexivity|].
    cbn [split_keys count_char]. cbn in Hlen.
    destruct (Ascii.eqb_spec c "+") as [->|Hc].
    + destruct rest as [|w rest']; [reflexivity|].
      cbn in Hlen. destruct (is_space w) eqn:Hw.
      * cbn [length count_char]. rewrite (IH rest' [] ltac:(lia)).
        rewrite (is_space_not_plus w Hw). lia.
      * cbn [length]. rewrite (IH (w :: rest') [] ltac:(cbn; lia)). lia.
    + destruct rest as [|p rest']; [now rewrite (IH [] _ ltac:(cbn; lia))|].
      cbn in Hlen.
      destruct (is_space c && Ascii.eqb p "+") eqn:Hsp.
      * apply andb_true_iff in Hsp as [_ Hp]. cbn [count_char]. rewrite Hp.
        destruct rest' as [|w rest'']; [reflexivity|].
        cbn in Hlen. destruct (is_space w) eqn:Hw.
        -- cbn [length count_char]. rewrite (IH rest'' [] ltac:(lia)).
           rewrite (is_space_not_plus w Hw). lia.
        -- cbn [length]. rewrite (IH (w :: rest'') [] ltac:(cbn; lia)). lia.
      * rewrite (IH (p :: rest') _ ltac:(cbn; lia)). lia.
Qed.

Section Parsing.
Context `{Platform}.

#[local] Arguments key_to_scan_codes : simpl never.
#[local] Arguments key_of : simpl never.

Lemma Step_init_keys (keys : list Key.t) (step : Step.t) :
  Step.__init__ keys = inr step -> Step.keys step = keys.
Proof.
  unfold Step.__init__.
  destruct (Step.split_modifiers keys) as [e|[ms others]]; cbn; [discriminate|].
  destruct (bool_decide _); now intros [= <-].
Qed.

(** A step built from keys that each came out of a constructor. *)
Lemma step_of_keys_ok {A : Type} (f : A -> Res Key.t) (l : list A)
    (step : Step.t) :
  (forall x key, f x = inr key -> Key.scan_codes key <> []) ->
  (keys ← map_res f l; Step.__init__ keys) = inr step ->
  length (Step.keys step) = length l
  /\ Forall (fun key => Key.scan_codes key <> []) (Step.keys step)
  /\ step_has_main_key step.
Proof.
  intros Hf. destruct (map_res f l) as [e|keys] eqn:Hkeys; cbn; [discriminate|].
  intros Hstep. apply map_res_Forall2 in Hkeys.
  rewrite (Step_init_keys _ _ Hstep). split; [|split].
  - symmetry. eapply Forall2_length, Hkeys.
  - clear Hstep. induction Hkeys; constructor; eauto.
  - eapply Step_init_has_main_key, Hstep.
Qed.

(** What [parse_hotkey] returns for a value it accepts. *)
Lemma parse_hotkey_ok (v : PyVal) (hotkey : Hotkey.t) :
  parse_hotkey (AVal v) = inr hotkey ->
  (1 <= length (Hotkey.steps hotkey))%nat
  /\ keys_have_scan_codes hotkey
  /\ Forall step_has_main_key (Hotkey.steps hotkey).
Proof.
  assert (Hone : forall (f : PyVal -> Res Key.t) l step,
             (forall x key, f x = inr key -> Key.scan_codes key <> []) ->
             (keys ← map_res f l; Step.__init__ keys) = inr step ->
             (1 <= length (Hotkey.steps (Hotkey.mk [step])))%nat
             /\ keys_have_scan_codes (Hotkey.mk [step])
             /\ Forall step_has_main_key (Hotkey.steps (Hotkey.mk [step]))).
  { intros f l step Hf Hstep.
    destruct (step_of_keys_ok f l step Hf Hstep) as (_ & Hkeys & Hmain).
    cbn. split; [lia|]. split; repeat constructor; assumption. }
  assert (Hmany : forall {A : Type} (g : A -> Res Step.t) (l : list A) steps,
             l <> [] ->
             (forall x step, g x = inr step ->
                Forall (fun key => Key.scan_codes key <> []) (Step.keys step)
                /\ step_has_main_key step) ->
             map_res g l = inr steps ->
             (1 <= length steps)%nat
             /\ keys_have_scan_codes (Hotkey.mk steps)
             /\ Forall step_has_main_key steps).
  { intros A g l steps Hl Hg Hsteps. apply map_res_Forall2 in Hsteps.
    split; [|split].
    - rewrite <- (Forall2_length _ _ _ Hsteps). destruct l; [contradiction|cbn; lia].
    - unfold keys_have_scan_codes. cbn. clear Hl.
      induction Hsteps as [|x step l steps Hx _ IH]; constructor; [|exact IH].
      now destruct (Hg x step Hx).
    - clear Hl. induction Hsteps as [|x step l steps Hx _ IH]; constructor;
        [|exact IH].
      now destruct (Hg x step Hx). }
  unfold parse_hotkey.
  destruct (match v with
            | VInt _ => inr true
            | _ => n ← py_len v; inr (bool_decide (n = 1%nat))
            end) as [e|single]; cbn [mbind Res_bind]; [discriminate|].
  destruct single.
  - destruct (key_of v) as [e|key] eqn:Hkey; cbn [mbind Res_bind]; [discriminate|].
    destruct (Step.__init__ [key]) as [e|step] eqn:Hstep; cbn [mbind Res_bind]; [discriminate|].
    intros [= <-].
    apply (Hone (fun _ => key_of v) [v] step).
    + intros _ key'. apply key_of_scan_codes.
    + cbn [map_res mbind Res_bind]. rewrite Hkey. cbn [mbind Res_bind]. exact Hstep.
  - destruct v as [|z|s|l|l]; [discriminate|discriminate| | |].
    + destruct (map_res _ (re_split_steps s)) as [e|steps] eqn:Hsteps; cbn [mbind Res_bind];
        [discriminate|].
      intros [= <-].
      eapply Hmany; [| |exact Hsteps].
      * unfold re_split_steps.
        pose proof (split_steps_count _ (String.list_ascii_of_string s) []
                      (Nat.le_refl _)) as [Hlen _].
        destruct (split_steps _ _); [discriminate|]. discriminate.
      * intros step_text step Hstep.
        destruct (step_of_keys_ok (fun name => key_of (VStr name))
                    (re_split_keys step_text) step) as (_ & Hkeys & Hmain);
          [|exact Hstep|now split].
        intros name key. apply key_of_scan_codes.
    + destruct (negb (existsb is_list l)) eqn:Hflat.
      * destruct (map_res key_of l) as [e|keys] eqn:Hkeys; cbn [mbind Res_bind]; [discriminate|].
        destruct (Step.__init__ keys) as [e|step] eqn:Hstep; cbn [mbind Res_bind]; [discriminate|].
        intros [= <-].
        apply (Hone key_of l step).
        -- intros x key. apply key_of_scan_codes.
        -- rewrite Hkeys. cbn [mbind Res_bind]. exact Hstep.
      * destruct (map_res step_of_scan_codes l) as [e|steps] eqn:Hsteps; cbn [mbind Res_bind];
          [discriminate|].
        intros [= <-].
        eapply Hmany; [| |exact Hsteps].
        -- intros ->. discriminate.
        -- intros x step. unfold step_of_scan_codes.
           destruct (py_tuple x) as [e|items]; cbn [mbind Res_bind]; [discriminate|].
           intros Hstep.
           destruct (step_of_keys_ok (Key.__init__ VNone) items step)
             as (_ & Hkeys & Hmain); [|exact Hstep|now split].
           intros item key. apply Key_init_scan_codes.
    + destruct (negb (existsb is_list l)) eqn:Hflat.
      * destruct (map_res key_of l) as [e|keys] eqn:Hkeys; cbn [mbind Res_bind]; [discriminate|].
        destruct (Step.__init__ keys) as [e|step] eqn:Hstep; cbn [mbind Res_bind]; [discriminate|].
        intros [= <-].
        apply (Hone key_of l step).
        -- intros x key. apply key_of_scan_codes.
        -- rewrite Hkeys. cbn [mbind Res_bind]. exact Hstep.
      * destruct (map_res step_of_scan_codes l) as [e|steps] eqn:Hsteps; cbn [mbind Res_bind];
          [discriminate|].
        intros [= <-].
        eapply Hmany; [| |exact Hsteps].
        -- intros ->. discriminate.
        -- intros x step. unfold step_of_scan_codes.
           destruct (py_tuple x) as [e|items]; cbn [mbind Res_bind]; [discriminate|].
           intros Hstep.
           destruct (step_of_keys_ok (Key.__init__ VNone) items step)
             as (_ & Hkeys & Hmain); [|exact Hstep|now split].
           intros item key. apply Key_init_scan_codes.
Qed.

End Parsing.

Section ParsingProperties.
Context `{Platform}.

#[local] Arguments key_to_scan_codes : simpl never.
#[local] Arguments key_of : simpl never.

Lemma steps_of_pieces_count (pieces : list (list ascii)) :
  forall steps,
    Forall2 (fun text step =>
               (keys ← map_res (fun name => key_of (VStr name)) (re_split_keys text);
                Step.__init__ keys) = inr step)
            (String.string_of_list_ascii <$> pieces) steps ->
    sum_list (length ∘ Step.keys <$> steps)
    = (length pieces + sum_list (count_char "+" <$> pieces))%nat.
Proof.
  induction pieces as [|piece pieces IH]; intros steps Hsteps;
    cbn [fmap list_fmap] in Hsteps.
  - apply Forall2_nil_inv_l in Hsteps. now subst.
  - apply Forall2_cons_inv_l in Hsteps as (step & steps' & Hstep & Hrest & ->).
    cbn [fmap list_fmap sum_list sum_list_with length compose].
    fold (fmap (M:=list) (length ∘ Step.keys) steps').
    fold (fmap (M:=list) (count_char "+") pieces).
    rewrite (IH steps' Hrest).
    destruct (step_of_keys_ok (fun name => key_of (VStr name))
                (re_split_keys (String.string_of_list_ascii piece)) step)
      as (Hlen & _); [|exact Hstep|].
    { intros name key. apply key_of_scan_codes. }
    rewrite Hlen. unfold re_split_keys.
    rewrite length_fmap, String.list_ascii_of_string_of_list_ascii.
    rewrite (split_keys_count _ piece [] (Nat.le_refl _)). unfold id. lia.
Qed.

(** X12. What [parse_hotkey] returns. A number, string, list or tuple that
    it accepts yields a hotkey with at least one step, whose keys all have at
    least one scan code and whose standard steps have a main key: what
    [_HotkeyHook] relies on when it reads [step.main_key.scan_codes] and
    builds its table. A [Hotkey] object is always accepted and returned as
    it is, without any check: that guarantee does not extend to it. *)
Theorem parsed_hotkey_is_well_formed (hotkey : HotkeyArg) (parsed : Hotkey.t) :
  parse_hotkey hotkey = inr parsed ->
  match hotkey with
  | AHotkey h => parsed = h
  | AVal _ =>
      (1 <= length (Hotkey.steps parsed))%nat
      /\ keys_have_scan_codes parsed
      /\ Forall step_has_main_key (Hotkey.steps parsed)
  end.
Proof.
  destruct hotkey as [h|v].
  - cbn [parse_hotkey]. now intros [= <-].
  - apply parse_hotkey_ok.
Qed.

(** X13. In a hotkey given as a string of more than one character, every
    comma starts a new step and every plus sign adds a key: the parsed
    hotkey has one step more than the string has commas, and as many keys,
    over all steps, as it has steps and plus signs. No key name is dropped
    or merged. *)
Theorem hotkey_string_steps_and_keys (s : string) (hotkey : Hotkey.t) :
  String.length s <> 1%nat ->
  parse_hotkey (AVal (VStr s)) = inr hotkey ->
  length (Hotkey.steps hotkey) = S (occurrences "," s)
  /\ number_of_keys hotkey = (S (occurrences "," s) + occurrences "+" s)%nat.
Proof.
  intros Hlen. unfold parse_hotkey. cbn [py_len mbind Res_bind].
  rewrite bool_decide_eq_false_2 by exact Hlen.
  destruct (map_res _ (re_split_steps s)) as [e|steps] eqn:Hsteps;
    cbn [mbind Res_bind]; [discriminate|].
  intros [= <-]. apply map_res_Forall2 in Hsteps.
  unfold number_of_keys, occurrences. cbn [Hotkey.steps].
  unfold re_split_steps in Hsteps.
  destruct (split_steps_count _ (String.list_ascii_of_string s) []
              (Nat.le_refl _)) as [Hcount Hplus].
  split.
  - rewrite <- (Forall2_length _ _ _ Hsteps), length_fmap. exact Hcount.
  - rewrite (steps_of_pieces_count _ _ Hsteps), Hcount, Hplus. reflexivity.
Qed.

(** X14. [add_hotkey] on a number, string, list or tuple that
    [parse_hotkey] accepts, or on a [Hotkey] object with at least one step
    whose keys have scan codes and whose standard steps have a main key,
    always builds its hook. It registers the hook when the value can be
    hashed; a list, or a tuple that holds one, makes [register] raise
    [TypeError], and nothing is registered. The hook built never raises:
    over any sequence of calls to [process_event] it answers, and its state
    stays between 0 and the number of steps. *)
Theorem added_hotkey_hook_never_raises (listener : _KeyboardListener.t)
    (hotkey : HotkeyArg) (parsed : Hotkey.t) (callback : CallbackResult)
    (suppress : bool) (timeout : Z) (trigger_on_release : bool) :
  parse_hotkey hotkey = inr parsed ->
  (forall h, hotkey = AHotkey h ->
             (1 <= length (Hotkey.steps h))%nat
             /\ keys_have_scan_codes h
             /\ Forall step_has_main_key (Hotkey.steps h)) ->
  exists h,
    add_hotkey listener hotkey callback suppress timeout trigger_on_release
    = (if id_hashable (hotkey_id hotkey)
       then inr (append_hook listener (HotkeyHook h) suppress)
       else inl TypeError)
    /\ _HotkeyHook.hotkey h = parsed
    /\ _HotkeyHook.state h = 0
    /\ forall calls,
         exists h',
           process_calls h calls = inr h'
           /\ 0 <= _HotkeyHook.state h' <= Z.of_nat (length (Hotkey.steps parsed)).
Proof.
  intros Hparse Hobject.
  assert (Hok : (1 <= length (Hotkey.steps parsed))%nat
                /\ keys_have_scan_codes parsed
                /\ Forall step_has_main_key (Hotkey.steps parsed)).
  { destruct hotkey as [h|v].
    - cbn [parse_hotkey] in Hparse. injection Hparse as <-. now apply Hobject.
    - exact (parse_hotkey_ok v parsed Hparse). }
  destruct Hok as (Hn & Hkeys & Hmain).
  destruct (init_in_range parsed timeout trigger_on_release callback Hkeys Hmain)
    as (h & Hinit & Hstate & Hrange).
  exists h. unfold add_hotkey. rewrite Hparse. cbn [mbind Res_bind].
  rewrite Hinit. cbn [mbind Res_bind].
  split.
  { unfold register. cbn [forallb id_hashable].
    rewrite andb_true_r. reflexivity. }
  split; [now destruct Hrange|]. split; [exact Hstate|].
  intros calls.
  destruct (process_calls_in_range parsed calls Hn h Hrange) as (h' & Hcalls & Hh').
  exists h'. split; [exact Hcalls|]. now destruct Hh' as (_ & _ & _ & Hs).
Qed.

End ParsingProperties.

Lemma parsed_hotkey_is_well_formed_witness :
  (1 <= length (Hotkey.steps sample_hotkey))%nat
  /\ keys_have_scan_codes sample_hotkey
  /\ Forall step_has_main_key (Hotkey.steps sample_hotkey).
Proof.
  apply (@parsed_hotkey_is_well_formed sample_platform
           (AVal (VStr "ctrl+a, b"))).
  by_evaluation.
Defined.

Lemma hotkey_string_steps_and_keys_witness :
  length (Hotkey.steps sample_hotkey) = S (occurrences "," "ctrl+a, b")
  /\ number_of_keys sample_hotkey
     = (S (occurrences "," "ctrl+a, b") + occurrences "+" "ctrl+a, b")%nat.
Proof.
  apply (@hotkey_string_steps_and_keys sample_platform "ctrl+a, b").
  - cbn. lia.
  - by_evaluation.
Defined.

Lemma added_hotkey_hook_never_raises_witness :
  exists h,
    @add_hotkey sample_platform _KeyboardListener.__init__
      (AVal (VStr "ctrl+a, b")) ROther true 1 false
    = inr (append_hook _KeyboardListener.__init__ (HotkeyHook h) true)
    /\ _HotkeyHook.hotkey h = sample_hotkey
    /\ _HotkeyHook.state h = 0
    /\ forall calls,
         exists h',
           @process_calls sample_platform h calls = inr h'
           /\ 0 <= _HotkeyHook.state h'
              <= Z.of_nat (length (Hotkey.steps sample_hotkey)).
Proof.
  apply (@added_hotkey_hook_never_raises sample_platform
           _KeyboardListener.__init__ (AVal (VStr "ctrl+a, b")) sample_hotkey
           ROther true 1 false).
  - by_evaluation.
  - discriminate.
Defined.

(** A list is parsed like a tuple, but it cannot serve as an id: [add_hotkey]
    on the list of the scan codes 29 and 30 raises [TypeError] and registers
    nothing, and on the tuple of the same codes it registers its hook. *)
Example add_hotkey_list_and_tuple :
  @add_hotkey sample_platform _KeyboardListener.__init__
    (AVal (VList [VInt 29; VInt 30])) ROther true 1 false
  = inl TypeError
  /\ (fun listener => length (_KeyboardListener.suppressing_hooks listener))
       <$> @add_hotkey sample_platform _KeyboardListener.__init__
             (AVal (VTuple [VInt 29; VInt 30])) ROther true 1 false
     = inr 1%nat.
Proof. split; by_evaluation. Qed.

(** * Scan codes of a key, and sending keys *)

Lemma ordered_keys_NoDup (l : list Z) : NoDup (ordered_keys l).
Proof.
  unfold ordered_keys.
  assert (Hfold : forall acc, NoDup acc ->
             NoDup (foldl (fun acc c => if bool_decide (c ∈ acc) then acc
                                        else acc ++ [c]) acc l)).
  { induction l as [|c l IH]; intros acc Hacc; cbn [foldl]; [exact Hacc|].
    apply IH. case_bool_decide as Hin; [exact Hacc|].
    apply NoDup_app. split; [exact Hacc|]. split; [|apply NoDup_singleton].
    intros x Hx Hxc. apply list_elem_of_singleton in Hxc. now subst. }
  apply Hfold, NoDup_nil_2.
Qed.

Section ScanCodes.
Context `{Platform}.

Lemma key_to_scan_codes_at_NoDup (depth : nat) :
  forall (name : string) (error_if_missing : bool) (codes : list Z),
    key_to_scan_codes_at depth (VStr name) error_if_missing = inr codes ->
    NoDup codes.
Proof.
  induction depth as [|depth IH]; intros name error_if_missing codes;
    cbn [key_to_scan_codes_at]; [discriminate|].
  destruct (normalize_name name) as [e|normalized]; cbn [mbind Res_bind];
    [discriminate|].
  destruct (bool_decide (normalized ∈ sided_modifiers)).
  - destruct (key_to_scan_codes_at depth (VStr ("left " +:+ normalized)) false)
      as [e|left_codes] eqn:Hleft; cbn [mbind Res_bind]; [discriminate|].
    destruct (key_to_scan_codes_at depth (VStr ("right " +:+ normalized)) false)
      as [e|right_codes] eqn:Hright; cbn [mbind Res_bind]; [discriminate|].
    intros [= <-]. apply NoDup_app. split; [eapply IH, Hleft|].
    split.
    + intros x Hx Hfilter. apply list_elem_of_filter in Hfilter as [Hnot _].
      contradiction.
    + apply NoDup_filter. eapply IH, Hright.
  - destruct (bool_decide _ && error_if_missing); [discriminate|].
    intros [= <-]. destruct (map_name normalized); [|apply NoDup_nil_2].
    apply ordered_keys_NoDup.
Qed.

(** X15. The scan codes [key_to_scan_codes] returns for a key name never
    repeat: the entries of [map_name] are reduced to their first occurrences,
    and for a sided modifier the right-hand codes already among the left-hand
    ones are left out. *)
Theorem scan_codes_of_a_name_do_not_repeat (name : string)
    (error_if_missing : bool) (codes : list Z) :
  key_to_scan_codes (VStr name) error_if_missing = inr codes -> NoDup codes.
Proof. apply key_to_scan_codes_at_NoDup. Qed.

(** For a list of keys the tuples are just concatenated, and may repeat. *)
Example scan_codes_of_a_list_may_repeat (z : Z) :
  key_to_scan_codes (VList [VInt z; VInt z]) true = inr [z; z].
Proof. reflexivity. Qed.

End ScanCodes.

Lemma scan_codes_of_a_name_do_not_repeat_witness : NoDup [29; 97].
Proof.
  apply (@scan_codes_of_a_name_do_not_repeat sample_platform "CTRL" true).
  by_evaluation.
Defined.

Lemma held_after_app (calls calls' : list OsCall) (held : gset Z) :
  held_after (calls ++ calls') held = held_after calls' (held_after calls held).
Proof. unfold held_after. apply foldl_app. Qed.

Lemma held_after_presses (cs : list Z) :
  forall held, held_after (OsPress <$> cs) held = held ∪ list_to_set cs.
Proof.
  induction cs as [|c cs IH]; intros held; cbn.
  - apply set_eq. intros x. rewrite elem_of_union, elem_of_empty. tauto.
  - change (held_after (OsPress <$> cs) (held ∪ {[ c ]})
            = held ∪ ({[ c ]} ∪ list_to_set cs)).
    rewrite IH. apply set_eq. intros x. rewrite !elem_of_union. tauto.
Qed.

Lemma held_after_releases (cs : list Z) :
  forall held, held_after (OsRelease <$> cs) held = held ∖ list_to_set cs.
Proof.
  induction cs as [|c cs IH]; intros held; cbn.
  - apply set_eq. intros x. rewrite elem_of_difference, elem_of_empty. tauto.
  - change (held_after (OsRelease <$> cs) (held ∖ {[ c ]})
            = held ∖ ({[ c ]} ∪ list_to_set cs)).
    rewrite IH. apply set_eq. intros x.
    rewrite !elem_of_difference, elem_of_union. tauto.
Qed.

Lemma os_calls_ok (call : Z -> OsCall) (keys : list Key.t) :
  Forall (fun key => Key.scan_codes key <> []) keys ->
  os_calls call keys
  = (call <$> ((fun key => default 0 (head (Key.scan_codes key))) <$> keys),
     inr ()).
Proof.
  induction 1 as [|key keys Hkey _ IH]; cbn [os_calls]; [reflexivity|].
  destruct (Key.scan_codes key) as [|c cs] eqn:Hcodes; [contradiction|].
  cbn. rewrite IH, Hcodes. reflexivity.
Qed.

Lemma send_steps_ok (do_press do_release : bool) (steps : list Step.t) :
  Forall (fun step => Forall (fun key => Key.scan_codes key <> []) (Step.keys step))
         steps ->
  send_steps steps do_press do_release
  = (steps ≫= (fun step =>
                 (if do_press then OsPress <$> first_scan_codes step else [])
                 ++ (if do_release
                     then OsRelease <$> reverse (first_scan_codes step)
                     else [])),
     inr ()).
Proof.
  induction 1 as [|step steps Hstep _ IH]; cbn [send_steps]; [reflexivity|].
  rewrite IH.
  assert (Hrev : Forall (fun key => Key.scan_codes key <> [])
                        (reverse (Step.keys step)))
    by (apply Forall_reverse; exact Hstep).
  destruct do_press, do_release;
    rewrite ?(os_calls_ok _ _ Hstep), ?(os_calls_ok _ _ Hrev);
    cbn [mbind list_bind app]; unfold first_scan_codes;
    rewrite ?fmap_reverse, <- ?app_assoc; reflexivity.
Qed.

Lemma held_after_steps (steps : list Step.t) :
  forall held,
    held_after
      (steps ≫= (fun step => (OsPress <$> first_scan_codes step)
                             ++ (OsRelease <$> reverse (first_scan_codes step))))
      held
    = held ∖ list_to_set (steps ≫= first_scan_codes).
Proof.
  induction steps as [|step steps IH]; intros held; cbn [mbind list_bind].
  - cbn. apply set_eq. intros x. rewrite elem_of_difference, elem_of_empty. tauto.
  - rewrite !held_after_app, IH, held_after_presses, held_after_releases.
    apply set_eq. intros x.
    rewrite !elem_of_difference, !elem_of_list_to_set, elem_of_union,
      elem_of_list_to_set, elem_of_app, elem_of_reverse.
    tauto.
Qed.

Section Sending.
Context `{Platform}.

(** X16. [send] on a value that [parse_hotkey] accepts never raises (every
    key has a first scan code) and goes through the steps in order: in each
    step it presses the first scan code of every key, in the order of the
    keys, and then releases them in the opposite order; [press] and
    [release] make the presses alone and the releases alone. After a full
    [send] the keys of the hotkey are up and no other key has changed. *)
Theorem send_presses_and_releases_in_mirror_order (v : PyVal)
    (hotkey : Hotkey.t) (do_press do_release : bool) (held : gset Z) :
  parse_hotkey (AVal v) = inr hotkey ->
  send (AVal v) do_press do_release
  = (Hotkey.steps hotkey
       ≫= (fun step =>
             (if do_press then OsPress <$> first_scan_codes step else [])
             ++ (if do_release
                 then OsRelease <$> reverse (first_scan_codes step)
                 else [])),
     inr ())
  /\ held_after (fst (send (AVal v) true true)) held
     = held ∖ list_to_set (Hotkey.steps hotkey ≫= first_scan_codes).
Proof.
  intros Hparse.
  destruct (parse_hotkey_ok v hotkey Hparse) as (_ & Hkeys & _).
  unfold send. rewrite Hparse, !send_steps_ok by exact Hkeys.
  split; [reflexivity|]. cbn [fst]. apply held_after_steps.
Qed.

End Sending.

Lemma send_presses_and_releases_in_mirror_order_witness :
  @send sample_platform (AVal (VStr "ctrl+a, b")) true true
  = ([OsPress 29; OsPress 30; OsRelease 30; OsRelease 29;
      OsPress 48; OsRelease 48], inr ())
  /\ held_after
       (fst (@send sample_platform (AVal (VStr "ctrl+a, b")) true true))
       {[ 29; 42 ]}
     = {[ 29; 42 ]} ∖ list_to_set (Hotkey.steps sample_hotkey ≫= first_scan_codes).
Proof.
  apply (@send_presses_and_releases_in_mirror_order sample_platform
           (VStr "ctrl+a, b") sample_hotkey true true).
  by_evaluation.
Defined.

(** * Events and key names *)

(** X17. [KeyboardEvent.__eq__] is an equivalence relation that compares
    exactly the fields of [key] (the modifiers, the numpad flag and the
    character play no part), and equal events hash alike: events can serve
    as dict keys, and a decision stored under an event is found again under
    any event equal to it. *)
Theorem equal_events_hash_alike (a b c : Event) (decisions : Decisions) :
  (KeyboardEvent.__eq__ a b = true <-> KeyboardEvent.key a = KeyboardEvent.key b)
  /\ KeyboardEvent.__eq__ a a = true
  /\ KeyboardEvent.__eq__ a b = KeyboardEvent.__eq__ b a
  /\ (KeyboardEvent.__eq__ a b = true -> KeyboardEvent.__eq__ b c = true ->
      KeyboardEvent.__eq__ a c = true)
  /\ (KeyboardEvent.__eq__ a b = true ->
      __hash__ a = __hash__ b
      /\ get_decision decisions a = get_decision decisions b).
Proof.
  assert (Hiff : forall x y,
             KeyboardEvent.__eq__ x y = true
             <-> KeyboardEvent.key x = KeyboardEvent.key y).
  { intros x y. unfold KeyboardEvent.__eq__, KeyboardEvent.key.
    rewrite !andb_true_iff, !bool_decide_eq_true. split.
    - intros [[[[-> ->] ->] ->] ->]. reflexivity.
    - intros [= -> -> -> -> ->]. auto. }
  split; [apply Hiff|]. split; [now apply Hiff|]. split; [|split].
  - destruct (KeyboardEvent.__eq__ a b) eqn:Hab, (KeyboardEvent.__eq__ b a) eqn:Hba;
      try reflexivity.
    + apply Hiff in Hab. symmetry in Hab. apply Hiff in Hab. congruence.
    + apply Hiff in Hba. symmetry in Hba. apply Hiff in Hba. congruence.
  - intros Hab Hbc. apply Hiff. apply Hiff in Hab, Hbc. congruence.
  - intros Hab. apply Hiff in Hab. split.
    + unfold __hash__. unfold KeyboardEvent.key in Hab.
      injection Hab as -> -> -> -> _. reflexivity.
    + unfold get_decision. now rewrite Hab.
Qed.

Section JsonAndNames.
Context `{Platform}.

(** X18. Reading back the record written by [to_json] never raises and never
    reads the clock; the event it builds has the same type, scan code, time,
    device, modifiers, numpad flag and character, and its name is the
    recorded name normalised once more (no name when none was recorded).
    Hence the event read back equals the original exactly when normalising
    its name again gives the same name. *)
Theorem json_round_trip_keeps_all_but_the_name (now : Z) (e : Event) :
  exists e',
    KeyboardEvent.of_json now (KeyboardEvent.to_json e) = inr e'
    /\ KeyboardEvent.event_type e' = KeyboardEvent.event_type e
    /\ KeyboardEvent.scan_code e' = KeyboardEvent.scan_code e
    /\ KeyboardEvent.time e' = KeyboardEvent.time e
    /\ KeyboardEvent.device e' = KeyboardEvent.device e
    /\ KeyboardEvent.modifiers e' = KeyboardEvent.modifiers e
    /\ KeyboardEvent.is_numpad e' = KeyboardEvent.is_numpad e
    /\ KeyboardEvent.char e' = KeyboardEvent.char e
    /\ match KeyboardEvent.name e with
       | None | Some EmptyString => KeyboardEvent.name e' = None
       | Some s => normalize_name s = inr (default s (KeyboardEvent.name e'))
                   /\ is_Some (KeyboardEvent.name e')
       end
    /\ (KeyboardEvent.__eq__ e e' = true
        <-> KeyboardEvent.name e' = KeyboardEvent.name e).
Proof.
  rewrite of_json_to_json. unfold KeyboardEvent.__init__.
  destruct e as [event_type scan_code name time device modifiers is_numpad char].
  cbv [KeyboardEvent.event_type KeyboardEvent.scan_code KeyboardEvent.name
       KeyboardEvent.time KeyboardEvent.device KeyboardEvent.modifiers
       KeyboardEvent.is_numpad KeyboardEvent.char].
  assert (Heq : forall name',
             KeyboardEvent.__eq__
               (KeyboardEvent.mk event_type scan_code name time device modifiers
                  is_numpad char)
               (KeyboardEvent.mk event_type scan_code name' time device modifiers
                  is_numpad char) = true
             <-> name' = name).
  { intros name'. unfold KeyboardEvent.__eq__. cbn.
    rewrite !bool_decide_eq_true_2 by reflexivity. cbn.
    rewrite bool_decide_eq_true. split; congruence. }
  destruct name as [[|c s]|].
  - eexists. split; [reflexivity|]. cbn. repeat split; try reflexivity; apply Heq.
  - unfold normalize_name.
    rewrite bool_decide_eq_false_2 by discriminate.
    eexists. split; [reflexivity|]. cbn.
    repeat split; try reflexivity; try apply Heq. eauto.
  - eexists. split; [reflexivity|]. cbn. repeat split; try reflexivity; apply Heq.
Qed.

End JsonAndNames.

Lemma lower_ascii_facts (c : ascii) :
  lower_ascii (lower_ascii c) = lower_ascii c
  /\ Ascii.eqb (lower_ascii c) "_" = Ascii.eqb c "_"
  /\ lower_ascii " " = " "%char.
Proof.
  destruct c as [[] [] [] [] [] [] [] []]; vm_compute; auto.
Qed.

Lemma lower_length (s : string) : String.length (lower s) = String.length s.
Proof. induction s as [|c s IH]; cbn; [reflexivity|now rewrite IH]. Qed.

Lemma lower_idempotent (s : string) : lower (lower s) = lower s.
Proof.
  induction s as [|c s IH]; cbn; [reflexivity|].
  destruct (lower_ascii_facts c) as (-> & _). now rewrite IH.
Qed.

Lemma underscores_to_spaces_length (s : string) :
  String.length (underscores_to_spaces s) = String.length s.
Proof. induction s as [|c s IH]; cbn; [reflexivity|now rewrite IH]. Qed.

Lemma lower_underscores_to_spaces (s : string) :
  lower (underscores_to_spaces s) = underscores_to_spaces (lower s).
Proof.
  induction s as [|c s IH]; cbn; [reflexivity|].
  destruct (lower_ascii_facts c) as (_ & -> & Hspace). rewrite IH.
  destruct (Ascii.eqb c "_"); [now rewrite Hspace|reflexivity].
Qed.

Lemma has_underscore_underscores_to_spaces (s : string) :
  has_underscore (underscores_to_spaces s) = false.
Proof.
  induction s as [|c s IH]; cbn; [reflexivity|]. rewrite IH.
  destruct (Ascii.eqb_spec c "_") as [->|Hc]; [reflexivity|].
  rewrite orb_false_r. now apply Ascii.eqb_neq.
Qed.

Lemma underscores_to_spaces_without (s : string) :
  has_underscore s = false -> underscores_to_spaces s = s.
Proof.
  induction s as [|c s IH]; cbn; [reflexivity|].
  intros Hs. apply orb_false_iff in Hs as [-> Hs]. now rewrite IH.
Qed.

Section KeyNames.
Context `{Platform}.

(** X19. [normalize_name] accepts every non-empty name, and for a name of
    more than one character it ignores the case of the letters and reads
    underscores as spaces: the name, its lower-case form and its form with
    spaces for underscores are normalised to the same canonical name. *)
Theorem normalize_name_ignores_case_and_underscores (name : string) :
  (1 < String.length name)%nat ->
  (exists canonical, normalize_name name = inr canonical)
  /\ normalize_name (lower name) = normalize_name name
  /\ normalize_name (underscores_to_spaces name) = normalize_name name.
Proof.
  intros Hlen.
  assert (Hnonempty : forall s, (1 < String.length s)%nat ->
             bool_decide (s = EmptyString) = false).
  { intros s Hs. apply bool_decide_eq_false_2. intros ->. cbn in Hs. lia. }
  assert (Hnot_ : forall s, (1 < String.length s)%nat -> String.eqb s "_" = false).
  { intros s Hs. apply String.eqb_neq. intros ->. cbn in Hs. lia. }
  unfold normalize_name.
  rewrite !Hnonempty
    by (rewrite ?lower_length, ?underscores_to_spaces_length; exact Hlen).
  rewrite lower_length, underscores_to_spaces_length.
  rewrite !bool_decide_eq_true_2 by exact Hlen.
  rewrite lower_idempotent, lower_underscores_to_spaces.
  rewrite has_underscore_underscores_to_spaces, andb_false_r.
  rewrite !Hnot_ by (rewrite ?lower_length; exact Hlen).
  cbn [negb andb].
  split; [eauto|]. split; [reflexivity|].
  destruct (has_underscore (lower name)) eqn:Hunder; [reflexivity|].
  now rewrite underscores_to_spaces_without.
Qed.

End KeyNames.

Lemma normalize_name_ignores_case_and_underscores_witness :
  (exists canonical, @normalize_name sample_platform "Left_CTRL" = inr canonical)
  /\ @normalize_name sample_platform (lower "Left_CTRL")
     = @normalize_name sample_platform "Left_CTRL"
  /\ @normalize_name sample_platform (underscores_to_spaces "Left_CTRL")
     = @normalize_name sample_platform "Left_CTRL".
Proof.
  apply (@normalize_name_ignores_case_and_underscores sample_platform "Left_CTRL").
  cbn. lia.
Defined.

(** * Typed strings *)

Lemma str_len_cons (c : ascii) (s : string) :
  str_len (String c s)
  = ((if is_continuation c then 0 else 1) + str_len s)%nat.
Proof.
  unfold str_len. cbn [String.list_ascii_of_string].
  destruct (is_continuation c) eqn:Hc.
  - now rewrite filter_cons_False by (rewrite Hc; discriminate).
  - now rewrite filter_cons_True by exact Hc.
Qed.

Lemma prefix_str_len (needle : string) :
  forall s, String.prefix needle s = true -> (str_len needle <= str_len s)%nat.
Proof.
  induction needle as [|a needle IH]; intros s; [unfold str_len; cbn; lia|].
  destruct s as [|b s]; cbn [String.prefix]; [discriminate|].
  destruct (Ascii.ascii_dec a b) as [->|]; [|discriminate].
  intros Hprefix. rewrite !str_len_cons. specialize (IH s Hprefix). lia.
Qed.

(** A string has at least as many characters as any string found in it. *)
Lemma contains_str_len (needle s : string) :
  contains needle s = true -> (str_len needle <= str_len s)%nat.
Proof.
  induction s as [|c s IH]; cbn [contains].
  - rewrite orb_false_r. apply prefix_str_len.
  - intros Hc. apply orb_true_iff in Hc as [Hc|Hc].
    + now apply prefix_str_len.
    + rewrite str_len_cons. specialize (IH Hc). lia.
Qed.

(** A one-character key name is none of the names [get_typed_strings]
    treats apart. *)
Lemma character_key_is_plain (name : string) :
  str_len name = 1%nat ->
  contains "shift" name = false
  /\ String.eqb name "caps lock" = false
  /\ String.eqb name "backspace" = false
  /\ String.eqb name "delete" = false.
Proof.
  intros Hlen. split; [|split; [|split]].
  - destruct (contains "shift" name) eqn:Hc; [|reflexivity].
    apply contains_str_len in Hc. rewrite Hlen in Hc.
    change (str_len "shift") with 5%nat in Hc. lia.
  - destruct (String.eqb_spec name "caps lock") as [->|]; [|reflexivity].
    discriminate Hlen.
  - destruct (String.eqb_spec name "backspace") as [->|]; [|reflexivity].
    discriminate Hlen.
  - destruct (String.eqb_spec name "delete") as [->|]; [|reflexivity].
    discriminate Hlen.
Qed.

Lemma append_nil_r (s : string) : s +:+ "" = s.
Proof.
  induction s as [|c s IH]; [reflexivity|].
  change (String c (s +:+ "") = String c s). now rewrite IH.
Qed.

Lemma append_assoc (s1 s2 s3 : string) : (s1 +:+ s2) +:+ s3 = s1 +:+ s2 +:+ s3.
Proof.
  induction s1 as [|c s1 IH]; [reflexivity|].
  change (String c ((s1 +:+ s2) +:+ s3) = String c (s1 +:+ s2 +:+ s3)).
  now rewrite IH.
Qed.

Lemma list_ascii_of_string_app (s1 s2 : string) :
  String.list_ascii_of_string (s1 +:+ s2)
  = String.list_ascii_of_string s1 ++ String.list_ascii_of_string s2.
Proof.
  induction s1 as [|c s1 IH]; [reflexivity|].
  change (c :: String.list_ascii_of_string (s1 +:+ s2)
          = c :: (String.list_ascii_of_string s1 ++ String.list_ascii_of_string s2)).
  now rewrite IH.
Qed.

(** [s[:-1]] undoes the addition of one well-formed character. *)
Lemma drop_last_appended (s c : string) :
  str_len c = 1%nat ->
  starts_character c = true ->
  drop_last (s +:+ c) = s.
Proof.
  destruct c as [|byte rest]; [discriminate|].
  cbn [starts_character]. intros Hlen Hstart.
  apply negb_true_iff in Hstart.
  rewrite str_len_cons, Hstart in Hlen.
  assert (Hrest : Forall (fun b => is_continuation b = true)
                         (String.list_ascii_of_string rest)).
  { unfold str_len in Hlen.
    assert (Hnone : filter (fun b => is_continuation b = false)
                           (String.list_ascii_of_string rest) = [])
      by (destruct (filter _ _); [reflexivity|cbn in Hlen; lia]).
    clear Hlen. induction (String.list_ascii_of_string rest) as [|b l IH];
      constructor.
    - destruct (is_continuation b) eqn:Hb; [reflexivity|].
      rewrite filter_cons_True in Hnone by exact Hb. discriminate.
    - apply IH. destruct (is_continuation b) eqn:Hb.
      + now rewrite filter_cons_False in Hnone by (rewrite Hb; discriminate).
      + rewrite filter_cons_True in Hnone by exact Hb. discriminate. }
  unfold drop_last. rewrite list_ascii_of_string_app.
  cbn [String.list_ascii_of_string]. rewrite reverse_app, reverse_cons.
  assert (Hdrop : forall l tail,
             Forall (fun b => is_continuation b = true) l ->
             without_last (l ++ byte :: tail) = tail).
  { intros l tail Hl. induction Hl as [|b l Hb _ IH]; cbn [app without_last].
    - now rewrite Hstart.
    - now rewrite Hb. }
  rewrite <- app_assoc. cbn [app].
  rewrite (Hdrop _ _ (proj2 (Forall_reverse _ _) Hrest)).
  now rewrite reverse_involutive, String.string_of_list_ascii_of_string.
Qed.

(** One event of a character key: a key-down adds the character, put in
    upper case when exactly one of shift and caps lock is on; a key-up does
    nothing. *)
Lemma typed_step_character (str_upper : string -> string)
    (darwin allow_backspace : bool) (st : TypedState) (event : Event)
    (c : string) :
  typed_char event = Some c ->
  typed_step str_upper darwin allow_backspace st event
  = inr (match KeyboardEvent.event_type event with
         | KEY_DOWN =>
             mkTypedState (shift_pressed st) (capslock_pressed st)
               (typed st
                +:+ (if xorb (shift_pressed st) (capslock_pressed st)
                     then str_upper c else c))
         | KEY_UP => st
         end, []).
Proof.
  unfold typed_char, typed_step.
  destruct (KeyboardEvent.name event) as [name|]; [|discriminate].
  cbn [mbind option_bind]. unfold char_of_key_name.
  destruct (String.eqb_spec name "space") as [->|Hspace].
  - intros [= <-].
    change (contains "shift" "space") with false.
    change (String.eqb "space" "caps lock") with false.
    change (bool_decide (str_len " " = 1%nat)) with true.
    replace (String.eqb "space" (if darwin then "delete" else "backspace"))
      with false by (now destruct darwin).
    cbv iota. rewrite andb_false_r. cbn [andb].
    destruct (KeyboardEvent.event_type event), (xorb _ _); reflexivity.
  - case_bool_decide as Hlen; [|discriminate]. intros [= <-].
    destruct (character_key_is_plain name Hlen) as (-> & -> & Hb & Hd).
    replace (String.eqb name (if darwin then "delete" else "backspace"))
      with false by (destruct darwin; congruence).
    rewrite andb_false_r. cbn [andb].
    destruct (KeyboardEvent.event_type event), (xorb _ _); reflexivity.
Qed.

(** A run of character keys, from any state. *)
Lemma typed_characters_run (str_upper : string -> string)
    (darwin allow_backspace : bool) (events : list Event) :
  Forall (fun e => is_Some (typed_char e)) events ->
  forall (shift caps : bool) (text : string) (rest : list Event),
    get_typed_strings_from str_upper darwin allow_backspace
      (mkTypedState shift caps text) (events ++ rest)
    = get_typed_strings_from str_upper darwin allow_backspace
        (mkTypedState shift caps
           (text +:+ joined ((if xorb shift caps then str_upper else id)
                               <$> pressed_chars events)))
        rest.
Proof.
  induction 1 as [|event events [c Hc] _ IH]; intros shift caps text rest.
  - cbn. now rewrite append_nil_r.
  - cbn [app get_typed_strings_from].
    rewrite (typed_step_character _ _ _ _ _ c Hc).
    unfold pressed_chars. cbn [shift_pressed capslock_pressed typed].
    destruct (KeyboardEvent.event_type event) eqn:Htype.
    + rewrite filter_cons_True by exact Htype. cbn [omap list_omap].
      rewrite Hc. cbn [fmap list_fmap joined foldr].
      rewrite IH. fold (pressed_chars events).
      rewrite append_assoc.
      destruct (xorb shift caps);
        destruct (get_typed_strings_from _ _ _ _ rest); reflexivity.
    + rewrite filter_cons_False by (rewrite Htype; discriminate).
      destruct text; rewrite IH;
        destruct (get_typed_strings_from _ _ _ _ rest); reflexivity.
Qed.

(** X20. [get_typed_strings] reproduces what was typed on character keys: a
    sequence of events of keys whose name is one character, whatever the
    character, and of the key named [space] yields the single string of the
    characters of its key-down events. With a shift key held from the start
    each character is put in upper case by [str.upper], and a final
    backspace removes the last character of what was typed, so that the
    string is the one typed before the last key when that key gave one
    character. *)
Theorem typed_characters_are_reproduced (str_upper : string -> string)
    (darwin allow_backspace : bool)
    (events : list Event) (shift backspace : Event) :
  Forall (fun e => is_Some (typed_char e)) events ->
  (exists name, KeyboardEvent.name shift = Some name
                /\ contains "shift" name = true) ->
  KeyboardEvent.event_type shift = KEY_DOWN ->
  KeyboardEvent.name backspace
  = Some (if darwin then "delete" else "backspace") ->
  KeyboardEvent.event_type backspace = KEY_DOWN ->
  get_typed_strings str_upper darwin events allow_backspace
  = ([joined (pressed_chars events)], inr ())
  /\ get_typed_strings str_upper darwin (shift :: events) allow_backspace
     = ([joined (str_upper <$> pressed_chars events)], inr ())
  /\ get_typed_strings str_upper darwin (events ++ [backspace]) true
     = ([drop_last (joined (pressed_chars events))], inr ())
  /\ (forall before c,
        pressed_chars events = before ++ [c] ->
        starts_character c = true ->
        get_typed_strings str_upper darwin (events ++ [backspace]) true
        = ([joined before], inr ())).
Proof.
  intros Hevents (name & Hname & Hshift) Hdown Hback Hbdown.
  assert (Hbackspace :
            get_typed_strings str_upper darwin (events ++ [backspace]) true
            = ([drop_last (joined (pressed_chars events))], inr ())).
  { unfold get_typed_strings.
    rewrite (typed_characters_run _ _ _ _ Hevents).
    cbn [get_typed_strings_from xorb]. unfold typed_step.
    rewrite Hback, Hbdown. rewrite list_fmap_id.
    rewrite bool_decide_eq_true_2 by reflexivity.
    cbn [shift_pressed capslock_pressed typed andb String.append].
    destruct darwin; reflexivity. }
  unfold get_typed_strings. split; [|split; [|split]].
  - rewrite <- (app_nil_r events) at 1.
    rewrite (typed_characters_run _ _ _ _ Hevents). cbn.
    now rewrite list_fmap_id.
  - cbn [get_typed_strings_from]. unfold typed_step.
    rewrite Hname, Hshift, Hdown.
    rewrite bool_decide_eq_true_2 by reflexivity.
    cbn [capslock_pressed typed].
    rewrite <- (app_nil_r events) at 1.
    rewrite (typed_characters_run _ _ _ _ Hevents). reflexivity.
  - exact Hbackspace.
  - intros before c Hchars Hstart.
    fold (get_typed_strings str_upper darwin (events ++ [backspace]) true).
    rewrite Hbackspace, Hchars.
    assert (Hlen : str_len c = 1%nat).
    { assert (Hin : c ∈ pressed_chars events)
        by (rewrite Hchars; apply elem_of_app; right; apply list_elem_of_here).
      unfold pressed_chars in Hin.
      apply list_elem_of_omap in Hin as (e & _ & He).
      unfold typed_char in He.
      destruct (KeyboardEvent.name e) as [n|]; [|discriminate].
      cbn [mbind option_bind] in He. unfold char_of_key_name in He.
      destruct (String.eqb n "space"); [now injection He as <-|].
      case_bool_decide as Hn; [|discriminate]. now injection He as <-. }
    assert (Hjoined : joined (before ++ [c]) = joined before +:+ c).
    { clear. induction before as [|x before IH]; cbn [app joined foldr].
      - now rewrite append_nil_r.
      - unfold joined in IH. rewrite IH. now rewrite append_assoc. }
    now rewrite Hjoined, (drop_last_appended _ c Hlen Hstart).
Qed.

(** X21. An event without a name makes [get_typed_strings] raise
    [TypeError] (it searches the name for ["shift"]); the characters typed
    since the last yield are lost with it. *)
Theorem unnamed_event_breaks_typed_strings (str_upper : string -> string)
    (darwin allow_backspace : bool)
    (events rest : list Event) (unnamed : Event) :
  Forall (fun e => is_Some (typed_char e)) events ->
  KeyboardEvent.name unnamed = None ->
  get_typed_strings str_upper darwin (events ++ unnamed :: rest) allow_backspace
  = ([], inl TypeError).
Proof.
  intros Hevents Hname. unfold get_typed_strings.
  rewrite (typed_characters_run _ _ _ _ Hevents).
  cbn [get_typed_strings_from]. unfold typed_step. now rewrite Hname.
Qed.

Lemma typed_characters_are_reproduced_witness :
  get_typed_strings upper false
    [named_event KEY_DOWN "h" 1; named_event KEY_UP "h" 2;
     named_event KEY_DOWN "space" 3; named_event KEY_DOWN "i" 4] true
  = (["h i"], inr ())
  /\ get_typed_strings upper false
       (named_event KEY_DOWN "left shift" 0
        :: [named_event KEY_DOWN "h" 1; named_event KEY_UP "h" 2;
            named_event KEY_DOWN "space" 3; named_event KEY_DOWN "i" 4]) true
     = (["H I"], inr ())
  /\ get_typed_strings upper false
       ([named_event KEY_DOWN "h" 1; named_event KEY_UP "h" 2;
         named_event KEY_DOWN "space" 3; named_event KEY_DOWN "i" 4]
        ++ [named_event KEY_DOWN "backspace" 5]) true
     = (["h "], inr ())
  /\ (forall before c,
        ["h"; " "; "i"] = before ++ [c] ->
        starts_character c = true ->
        get_typed_strings upper false
          ([named_event KEY_DOWN "h" 1; named_event KEY_UP "h" 2;
            named_event KEY_DOWN "space" 3; named_event KEY_DOWN "i" 4]
           ++ [named_event KEY_DOWN "backspace" 5]) true
        = ([joined before], inr ())).
Proof.
  apply (typed_characters_are_reproduced upper false true
           [named_event KEY_DOWN "h" 1; named_event KEY_UP "h" 2;
            named_event KEY_DOWN "space" 3; named_event KEY_DOWN "i" 4]
           (named_event KEY_DOWN "left shift" 0)
           (named_event KEY_DOWN "backspace" 5)).
  - repeat constructor; eexists; reflexivity.
  - exists "left shift". split; reflexivity.
  - reflexivity.
  - reflexivity.
  - reflexivity.
Defined.

(** A key whose name is one character outside ASCII, here the two bytes of
    the letter e with an acute accent, types that character like any other,
    and a backspace removes it whole. *)
Example typed_character_outside_ascii :
  let e_acute :=
    String (Ascii.ascii_of_nat 195) (String (Ascii.ascii_of_nat 169) "") in
  str_len e_acute = 1%nat
  /\ get_typed_strings upper false
       [named_event KEY_DOWN "a" 1; named_event KEY_DOWN e_acute 2] true
     = (["a" +:+ e_acute], inr ())
  /\ get_typed_strings upper false
       [named_event KEY_DOWN "a" 1; named_event KEY_DOWN e_acute 2;
        named_event KEY_DOWN "backspace" 3] true
     = (["a"], inr ()).
Proof. cbv zeta. split; [reflexivity|]. split; reflexivity. Qed.

Lemma unnamed_event_breaks_typed_strings_witness :
  get_typed_strings upper false
    ([named_event KEY_DOWN "h" 1; named_event KEY_DOWN "i" 2]
     ++ sample_event KEY_DOWN 30 3 :: [named_event KEY_DOWN "tab" 4]) true
  = ([], inl TypeError).
Proof.
  apply (unnamed_event_breaks_typed_strings upper false true
           [named_event KEY_DOWN "h" 1; named_event KEY_DOWN "i" 2]
           [named_event KEY_DOWN "tab" 4] (sample_event KEY_DOWN 30 3)).
  - repeat constructor; eexists; reflexivity.
  - reflexivity.
Defined.

(** * Hooks at work in the listener *)

Lemma verdict_of_singleton (decisions : Decisions) (event : Event) :
  verdict_of [decisions] event = get_decision decisions event.
Proof.
  unfold verdict_of. cbn [fmap list_fmap].
  rewrite strongest_cons. unfold strongest. cbn.
  destruct (get_decision decisions event); reflexivity.
Qed.

Section HooksAtWork.
Context `{Platform}.

(** One event through a listener whose only hook is a key hook on one scan
    code, with nothing suspended. *)
Lemma key_hook_listener_step (sc : Z) (callback : CallbackResult)
    (l : _KeyboardListener.t) (event : Event) :
  _KeyboardListener.suppressing_hooks l
  = [KeyHook (_KeyHook.mk [sc] callback)] ->
  _KeyboardListener.suspended_event_pairs l = [] ->
  _KeyboardListener.is_replaying l = false ->
  exists l',
    _KeyboardListener.process_sync_event l event
    = (l', [], inr (key_hook_allows sc callback event))
    /\ _KeyboardListener.suppressing_hooks l'
       = [KeyHook (_KeyHook.mk [sc] callback)]
    /\ _KeyboardListener.suspended_event_pairs l' = []
    /\ _KeyboardListener.is_replaying l' = false.
Proof.
  intros Hhooks Hpairs Hreplaying.
  set (d := fst (_KeyHook.process_event (_KeyHook.mk [sc] callback) event)).
  assert (Hrun : _KeyboardListener.run_hooks
                   (_KeyboardListener.suppressing_hooks
                      (_KeyboardListener.note_event l event)) event
                   (_KeyboardListener.physically_pressed_keys
                      (_KeyboardListener.note_event l event))
                   (_KeyboardListener.logically_pressed_keys
                      (_KeyboardListener.note_event l event))
                   (_KeyboardListener.active_modifiers
                      (_KeyboardListener.note_event l event))
                 = ([KeyHook (_KeyHook.mk [sc] callback)], inr [d])).
  { cbn [_KeyboardListener.note_event _KeyboardListener.suppressing_hooks].
    rewrite Hhooks. cbn [_KeyboardListener.run_hooks Hook_process_event].
    subst d. now destruct (_KeyHook.process_event _ event). }
  destruct (run_sync_hooks_resolved _ _ _ _ Hrun)
    as (l5 & out & Hsync & Hpairs5 & _ & Hnone & Hhooks5 & Hreplaying5).
  cbn [_KeyboardListener.note_event _KeyboardListener.suspended_event_pairs]
    in Hpairs5, Hnone.
  rewrite Hpairs in Hpairs5, Hnone. destruct (Hnone eq_refl) as [-> _].
  assert (Hverdict : verdict_of [d] event
                     = if key_hook_allows sc callback event then ALLOW
                       else SUPPRESS).
  { rewrite verdict_of_singleton. subst d.
    unfold _KeyHook.process_event, key_hook_allows, get_decision.
    cbn [_KeyHook.scan_codes _KeyHook.callback].
    destruct (decide (KeyboardEvent.scan_code event = sc)) as [Hsc|Hsc].
    - rewrite bool_decide_eq_true_2 by (rewrite Hsc; apply list_elem_of_here).
      rewrite (bool_decide_eq_true_2 _ Hsc). cbn [fst].
      rewrite lookup_singleton_eq. now destruct callback as [[]|].
    - rewrite bool_decide_eq_false_2
        by (intros Hin; now apply list_elem_of_singleton in Hin).
      rewrite (bool_decide_eq_false_2 _ Hsc). cbn [fst].
      rewrite lookup_singleton_eq. now destruct callback as [[]|]. }
  unfold _KeyboardListener.process_sync_event.
  rewrite Hreplaying, Hsync, Hverdict.
  destruct (key_hook_allows sc callback event);
    eexists; (split; [reflexivity|]); cbn; auto.
Qed.

(** X25. [hook_key] on a scan code makes the listener suppress that key
    unless the callback returns ALLOW (a callback that returns [None]
    suppresses it), and let every other key through untouched: over any
    sequence of events, each event is answered with that verdict, what
    reaches the system is the allowed events in their order, and nothing is
    injected or left suspended. *)
Theorem hooked_key_is_suppressed_unless_allowed (sc : Z)
    (callback : CallbackResult) (events : list Event) :
  exists l l',
    hook_key _KeyboardListener.__init__ (VInt sc) callback true = inr l
    /\ _KeyboardListener.process_events l events
       = (l',
          _KeyboardListener.Passed
            <$> filter (fun e => key_hook_allows sc callback e = true) events,
          (fun e => inr (key_hook_allows sc callback e)) <$> events)
    /\ _KeyboardListener.suspended_event_pairs l' = [].
Proof.
  eexists. 
  assert (Hrun : forall l,
             _KeyboardListener.suppressing_hooks l
             = [KeyHook (_KeyHook.mk [sc] callback)] ->
             _KeyboardListener.suspended_event_pairs l = [] ->
             _KeyboardListener.is_replaying l = false ->
             exists l',
               _KeyboardListener.process_events l events
               = (l',
                  _KeyboardListener.Passed
                    <$> filter (fun e => key_hook_allows sc callback e = true)
                               events,
                  (fun e => inr (key_hook_allows sc callback e)) <$> events)
               /\ _KeyboardListener.suspended_event_pairs l' = []).
  { induction events as [|event events IH]; intros l Hhooks Hpairs Hreplaying.
    - exists l. split; [reflexivity|exact Hpairs].
    - cbn [_KeyboardListener.process_events].
      destruct (key_hook_listener_step sc callback l event Hhooks Hpairs Hreplaying)
        as (l1 & -> & Hhooks1 & Hpairs1 & Hreplaying1).
      destruct (IH l1 Hhooks1 Hpairs1 Hreplaying1) as (l2 & -> & Hpairs2).
      exists l2. split; [|exact Hpairs2].
      unfold _KeyboardListener.emitted. cbn [fmap list_fmap app].
      destruct (key_hook_allows sc callback event) eqn:Hallow.
      + now rewrite filter_cons_True by exact Hallow.
      + now rewrite filter_cons_False by (rewrite Hallow; discriminate). }
  destruct (Hrun (append_hook _KeyboardListener.__init__
                    (KeyHook (_KeyHook.mk [sc] callback)) true))
    as (l' & Hevents & Hpairs'); try reflexivity.
  exists l'. split; [reflexivity|]. split; [exact Hevents|exact Hpairs'].
Qed.

End HooksAtWork.

Section HotkeyAtWork.
Context `{Platform}.

#[local] Arguments key_to_scan_codes : simpl never.

(** The hotkey parsed from a scan code that is not a modifier: one standard
    step with that key alone. *)
Lemma parse_bare_key (sc : Z) :
  sc ∉ _modifier_scan_codes ->
  parse_hotkey (AVal (VInt sc))
  = inr (Hotkey.mk [Step.mk [Key.mk (VInt sc) [sc]] [] true
                      (Some (Key.mk (VInt sc) [sc]))]).
Proof.
  intros Hsc. unfold parse_hotkey. cbn [mbind Res_bind].
  unfold key_of. change (key_to_scan_codes (VInt sc) true) with (@inr Exn _ [sc]).
  cbn [mbind Res_bind fmap list_fmap].
  change (Key.__init__ (VInt sc) (VTuple [VInt sc]))
    with (@inr Exn _ (Key.mk (VInt sc) [sc])).
  cbn [mbind Res_bind]. unfold Step.__init__.
  cbn [Step.split_modifiers]. unfold Step.key_is_modifier.
  cbn [Key.scan_codes]. change (py_index [sc] 0) with (@inr Exn _ sc).
  cbn [mbind Res_bind]. unfold is_modifier.
  rewrite bool_decide_eq_false_2 by exact Hsc. reflexivity.
Qed.

Lemma bare_key_table (sc : Z) :
  _HotkeyHook.build_hotkey_transition_table
    (Hotkey.mk [Step.mk [Key.mk (VInt sc) [sc]] [] true
                  (Some (Key.mk (VInt sc) [sc]))])
  = inr (<[(0, [sc]) := 1]> ∅).
Proof. reflexivity. Qed.

(** One call on the idle hook of a bare-key hotkey, with no modifier held
    and the key not logically pressed: a press of the key completes the
    hotkey, and the release that follows is suppressed when the press
    was. *)
Lemma bare_key_hook_press (sc timeout : Z) (callback : CallbackResult)
    (event : Event) (physical : gset Z) :
  sc ∉ _modifier_scan_codes ->
  KeyboardEvent.scan_code event = sc ->
  KeyboardEvent.event_type event = KEY_DOWN ->
  _HotkeyHook.process_event (bare_key_hook sc timeout callback ∅)
    event physical ∅ ∅
  = inr (bare_key_hook sc timeout callback
           (match callback with
            | RDecision ALLOW => ∅
            | _ => {[ sc ]}
            end),
         _HotkeyHook.answer []
           (match callback with
            | RDecision ALLOW => []
            | _ => [event]
            end), 1%nat).
Proof.
  intros Hsc Hcode Hdown.
  unfold _HotkeyHook.process_event, bare_key_hook.
  cbn [_HotkeyHook.hotkey Hotkey.steps _HotkeyHook.state length].
  change (py_index _ (Z.min 0 (Z.of_nat 1 - 1)))
    with (@inr Exn _ (Step.mk [Key.mk (VInt sc) [sc]] [] true
                        (Some (Key.mk (VInt sc) [sc])))).
  cbn [mbind Res_bind]. unfold _HotkeyHook.is_main_key_of.
  cbn [Step.is_standard Step.main_key Key.scan_codes mbind Res_bind].
  rewrite Hdown, Hcode.
  rewrite (bool_decide_eq_true_2 (sc ∈ [sc])) by apply list_elem_of_here.
  rewrite (bool_decide_eq_false_2 _ Hsc). cbn [andb].
  change (0 <? Z.of_nat 1) with true. cbv iota.
  unfold _HotkeyHook.timeout_reset, _HotkeyHook.timed_out.
  cbn [_HotkeyHook.suspended_events fmap list_fmap].
  unfold _HotkeyHook.match_input.
  cbn [Step.is_standard orb _HotkeyHook.transitions _HotkeyHook.state
       _HotkeyHook.suspended_events _HotkeyHook.hotkey Hotkey.steps
       _HotkeyHook.callback _HotkeyHook.timeout _HotkeyHook.trigger_on_release
       _HotkeyHook.scan_code_releases_to_suppress app].
  rewrite Hcode, elements_empty. change (sorted [sc]) with [sc].
  unfold dd_get. rewrite lookup_insert_eq.
  change (_HotkeyHook.useful_presses _) with 1.
  change (_HotkeyHook.sorted_by_time_desc [event]) with [event].
  cbn [_HotkeyHook.drop_useless mbind Res_bind].
  change (1 <=? 0) with false. cbn [mbind Res_bind].
  unfold _HotkeyHook.complete, _HotkeyHook.triggers.
  cbn [_HotkeyHook.state _HotkeyHook.hotkey Hotkey.steps length
       _HotkeyHook.trigger_on_release _HotkeyHook.callback
       _HotkeyHook.suspended_events _HotkeyHook.timeout
       _HotkeyHook.transitions _HotkeyHook.scan_code_releases_to_suppress].
  rewrite (bool_decide_eq_true_2 (1 = Z.of_nat 1)) by reflexivity.
  cbn [andb foldl]. unfold _HotkeyHook.mark_suppressed. rewrite Hdown, Hcode.
  rewrite (bool_decide_eq_false_2 (KEY_DOWN = KEY_UP)) by discriminate.
  rewrite (bool_decide_eq_false_2 (sc ∈ (∅ : gset Z))) by apply not_elem_of_empty.
  cbn [andb negb app]. rewrite (left_id_L ∅ (∪)).
  destruct callback as [[]|]; reflexivity.
Qed.

Lemma bare_key_hook_release (sc timeout : Z) (callback : CallbackResult)
    (event : Event) (physical logical mods : gset Z) :
  KeyboardEvent.scan_code event = sc ->
  KeyboardEvent.event_type event = KEY_UP ->
  _HotkeyHook.process_event
    (bare_key_hook sc timeout callback
       (match callback with
        | RDecision ALLOW => ∅
        | _ => {[ sc ]}
        end))
    event physical logical mods
  = inr (bare_key_hook sc timeout callback ∅,
         _HotkeyHook.answer []
           (match callback with
            | RDecision ALLOW => []
            | _ => [event]
            end), 0%nat).
Proof.
  intros Hcode Hup.
  unfold _HotkeyHook.process_event, bare_key_hook.
  cbn [_HotkeyHook.hotkey Hotkey.steps _HotkeyHook.state length].
  change (py_index _ (Z.min 0 (Z.of_nat 1 - 1)))
    with (@inr Exn _ (Step.mk [Key.mk (VInt sc) [sc]] [] true
                        (Some (Key.mk (VInt sc) [sc])))).
  cbn [mbind Res_bind]. unfold _HotkeyHook.is_main_key_of.
  cbn [Step.is_standard Step.main_key Key.scan_codes mbind Res_bind].
  rewrite Hup, Hcode. unfold _HotkeyHook.key_up_branch.
  cbn [_HotkeyHook.suspended_events fmap list_fmap
       _HotkeyHook.scan_code_releases_to_suppress _HotkeyHook.callback
       _HotkeyHook.hotkey _HotkeyHook.timeout _HotkeyHook.trigger_on_release
       _HotkeyHook.transitions _HotkeyHook.state].
  rewrite Hcode.
  rewrite (bool_decide_eq_false_2 (sc ∈ [])) by apply not_elem_of_nil.
  unfold _HotkeyHook.complete, _HotkeyHook.triggers.
  assert (Hin : bool_decide (sc ∈ ({[ sc ]} : gset Z)) = true)
    by (apply bool_decide_eq_true_2, elem_of_singleton; reflexivity).
  destruct callback as [[]|];
    rewrite ?Hin, ?(bool_decide_eq_false_2 _ (not_elem_of_empty (C:=gset Z) sc));
    cbn [mbind Res_bind _HotkeyHook.state _HotkeyHook.hotkey Hotkey.steps length
         _HotkeyHook.trigger_on_release _HotkeyHook.callback
         _HotkeyHook.suspended_events _HotkeyHook.timeout
         _HotkeyHook.transitions _HotkeyHook.scan_code_releases_to_suppress];
    rewrite (bool_decide_eq_false_2 (0 = Z.of_nat 1)) by discriminate;
    cbn [andb]; rewrite ?difference_diag_L; reflexivity.
Qed.

(** The listener of a bare-key hotkey between two taps. *)
Lemma bare_key_listener_tap (sc timeout : Z) (callback : CallbackResult)
    (l : _KeyboardListener.t) (down up : Event) :
  sc ∉ _modifier_scan_codes ->
  KeyboardEvent.scan_code down = sc ->
  KeyboardEvent.event_type down = KEY_DOWN ->
  KeyboardEvent.scan_code up = sc ->
  KeyboardEvent.event_type up = KEY_UP ->
  idle_bare_key_listener sc timeout callback l ->
  exists l1 l2,
    _KeyboardListener.process_sync_event l down
    = (l1, [], inr (returns_allow callback))
    /\ _KeyboardListener.process_sync_event l1 up
       = (l2, [], inr (returns_allow callback))
    /\ idle_bare_key_listener sc timeout callback l2.
Proof.
  intros Hsc Hdcode Hdown Hucode Hup (Hhooks & Hpairs & Hreplaying & Hlogical & Hmods).
  assert (Hnote : forall l0 event,
             KeyboardEvent.scan_code event = sc ->
             _KeyboardListener.active_modifiers
               (_KeyboardListener.note_event l0 event)
             = _KeyboardListener.active_modifiers l0).
  { intros l0 event Hcode. cbn [_KeyboardListener.note_event
                                _KeyboardListener.active_modifiers].
    rewrite Hcode. now rewrite (bool_decide_eq_false_2 _ Hsc). }
  assert (Hverdict : forall event,
             verdict_of [_HotkeyHook.answer []
                           (match callback with
                            | RDecision ALLOW => []
                            | _ => [event]
                            end)] event
             = if returns_allow callback then ALLOW else SUPPRESS).
  { intros event. rewrite verdict_of_singleton.
    unfold get_decision, _HotkeyHook.answer.
    destruct callback as [[]|]; cbn [foldl returns_allow];
      rewrite ?lookup_insert_eq, ?lookup_empty; reflexivity. }
  (* the press *)
  assert (Hrun1 : _KeyboardListener.run_hooks
                    (_KeyboardListener.suppressing_hooks
                       (_KeyboardListener.note_event l down)) down
                    (_KeyboardListener.physically_pressed_keys
                       (_KeyboardListener.note_event l down))
                    (_KeyboardListener.logically_pressed_keys
                       (_KeyboardListener.note_event l down))
                    (_KeyboardListener.active_modifiers
                       (_KeyboardListener.note_event l down))
                  = ([HotkeyHook
                        (bare_key_hook sc timeout callback
                           (match callback with
                            | RDecision ALLOW => ∅
                            | _ => {[ sc ]}
                            end))],
                     inr [_HotkeyHook.answer []
                            (match callback with
                             | RDecision ALLOW => []
                             | _ => [down]
                             end)])).
  { rewrite (Hnote l down Hdcode), Hmods.
    cbn [_KeyboardListener.note_event _KeyboardListener.suppressing_hooks
         _KeyboardListener.logically_pressed_keys].
    rewrite Hhooks, Hlogical.
    cbn [_KeyboardListener.run_hooks Hook_process_event].
    now rewrite (bare_key_hook_press sc timeout callback down _ Hsc Hdcode Hdown). }
  destruct (run_sync_hooks_resolved _ _ _ _ Hrun1)
    as (l5 & out & Hsync & Hpairs5 & _ & Hnone & Hhooks5 & Hreplaying5).
  cbn [_KeyboardListener.note_event _KeyboardListener.suspended_event_pairs
       _KeyboardListener.logically_pressed_keys] in Hpairs5, Hnone.
  rewrite Hpairs in Hpairs5, Hnone. destruct (Hnone eq_refl) as [-> Hlogical5].
  pose proof (run_sync_hooks_frame (_KeyboardListener.note_event l down) down)
    as (_ & Hmods5 & _).
  rewrite Hsync, (Hverdict down) in Hmods5.
  rewrite (Hnote l down Hdcode), Hmods in Hmods5.
  set (l1 := if returns_allow callback
             then _KeyboardListener.allow_event l5 KEY_DOWN sc else l5).
  assert (Hstep1 : _KeyboardListener.process_sync_event l down
                   = (l1, [], inr (returns_allow callback))).
  { unfold _KeyboardListener.process_sync_event.
    rewrite Hreplaying, Hsync, (Hverdict down). subst l1.
    rewrite Hdown, Hdcode. now destruct (returns_allow callback). }
  assert (Hl1 : _KeyboardListener.suppressing_hooks l1
                = [HotkeyHook
                     (bare_key_hook sc timeout callback
                        (match callback with
                         | RDecision ALLOW => ∅
                         | _ => {[ sc ]}
                         end))]
                /\ _KeyboardListener.suspended_event_pairs l1 = []
                /\ _KeyboardListener.is_replaying l1 = false
                /\ _KeyboardListener.active_modifiers l1 = ∅
                /\ _KeyboardListener.logically_pressed_keys l1
                   = if returns_allow callback then ∅ ∪ {[ sc ]} else ∅).
  { subst l1. destruct (returns_allow callback);
      cbn [fst] in Hmods5; cbn; rewrite ?Hlogical5, ?Hlogical; auto. }
  destruct Hl1 as (Hhooks1 & Hpairs1 & Hreplaying1 & Hmods1 & Hlogical1).
  (* the release *)
  assert (Hrun2 : _KeyboardListener.run_hooks
                    (_KeyboardListener.suppressing_hooks
                       (_KeyboardListener.note_event l1 up)) up
                    (_KeyboardListener.physically_pressed_keys
                       (_KeyboardListener.note_event l1 up))
                    (_KeyboardListener.logically_pressed_keys
                       (_KeyboardListener.note_event l1 up))
                    (_KeyboardListener.active_modifiers
                       (_KeyboardListener.note_event l1 up))
                  = ([HotkeyHook (bare_key_hook sc timeout callback ∅)],
                     inr [_HotkeyHook.answer []
                            (match callback with
                             | RDecision ALLOW => []
                             | _ => [up]
                             end)])).
  { cbn [_KeyboardListener.note_event _KeyboardListener.suppressing_hooks
         _KeyboardListener.logically_pressed_keys].
    rewrite Hhooks1. cbn [_KeyboardListener.run_hooks Hook_process_event].
    now rewrite (bare_key_hook_release sc timeout callback up _ _ _ Hucode Hup). }
  destruct (run_sync_hooks_resolved _ _ _ _ Hrun2)
    as (l6 & out & Hsync2 & Hpairs6 & _ & Hnone2 & Hhooks6 & Hreplaying6).
  cbn [_KeyboardListener.note_event _KeyboardListener.suspended_event_pairs
       _KeyboardListener.logically_pressed_keys] in Hpairs6, Hnone2.
  rewrite Hpairs1 in Hpairs6, Hnone2. destruct (Hnone2 eq_refl) as [-> Hlogical6].
  pose proof (run_sync_hooks_frame (_KeyboardListener.note_event l1 up) up)
    as (_ & Hmods6 & _).
  rewrite Hsync2, (Hverdict up) in Hmods6.
  rewrite (Hnote l1 up Hucode), Hmods1 in Hmods6.
  exists l1,
    (if returns_allow callback
     then _KeyboardListener.allow_event l6 KEY_UP sc else l6).
  split; [exact Hstep1|]. split.
  - unfold _KeyboardListener.process_sync_event.
    rewrite Hreplaying1, Hsync2, (Hverdict up), Hup, Hucode.
    now destruct (returns_allow callback).
  - unfold idle_bare_key_listener.
    destruct (returns_allow callback); cbn [fst] in Hmods6; cbn;
      rewrite ?Hlogical6, ?Hlogical1; repeat split; auto.
    apply set_eq. intros x.
    rewrite elem_of_difference, elem_of_union, elem_of_singleton, elem_of_empty.
    tauto.
Qed.

(** X26. A hotkey added for one key that is no modifier swallows the key:
    over any number of taps of the key (with no modifier held) every press
    completes the hotkey, and press and release are both suppressed, unless
    the callback returns ALLOW, in which case both pass. Nothing is injected,
    nothing stays suspended, and the hook is idle again after each tap. *)
Theorem bare_key_hotkey_swallows_its_key (sc timeout : Z)
    (callback : CallbackResult) (events : list Event) :
  sc ∉ _modifier_scan_codes ->
  taps sc events ->
  exists l l',
    add_hotkey _KeyboardListener.__init__ (AVal (VInt sc)) callback true
      timeout false = inr l
    /\ _KeyboardListener.process_events l events
       = (l',
          (if returns_allow callback
           then _KeyboardListener.Passed <$> events else []),
          (fun _ => inr (returns_allow callback)) <$> events)
    /\ idle_bare_key_listener sc timeout callback l'.
Proof.
  intros Hsc Htaps.
  exists (append_hook _KeyboardListener.__init__
            (HotkeyHook (bare_key_hook sc timeout callback ∅)) true).
  assert (Hrun : forall n events l,
             (length events <= n)%nat ->
             taps sc events ->
             idle_bare_key_listener sc timeout callback l ->
             exists l',
               _KeyboardListener.process_events l events
               = (l',
                  (if returns_allow callback
                   then _KeyboardListener.Passed <$> events else []),
                  (fun _ => inr (returns_allow callback)) <$> events)
               /\ idle_bare_key_listener sc timeout callback l').
  { clear events Htaps. induction n as [|n IH]; intros events l Hlen Htaps Hidle.
    - destruct events; [|cbn in Hlen; lia].
      exists l. split; [|exact Hidle]. now destruct (returns_allow callback).
    - destruct events as [|down [|up events]]; [| contradiction |].
      + exists l. split; [|exact Hidle]. now destruct (returns_allow callback).
      + cbn [taps] in Htaps.
        destruct Htaps as (Hdcode & Hdown & Hucode & Hup & Htaps).
        destruct (bare_key_listener_tap sc timeout callback l down up
                    Hsc Hdcode Hdown Hucode Hup Hidle)
          as (l1 & l2 & Hstep1 & Hstep2 & Hidle2).
        destruct (IH events l2 ltac:(cbn in Hlen; lia) Htaps Hidle2)
          as (l' & Hrest & Hidle').
        exists l'. split; [|exact Hidle'].
        cbn [_KeyboardListener.process_events].
        rewrite Hstep1, Hstep2, Hrest. unfold _KeyboardListener.emitted.
        now destruct (returns_allow callback). }
  destruct (Hrun (length events) events
              (append_hook _KeyboardListener.__init__
                 (HotkeyHook (bare_key_hook sc timeout callback ∅)) true)
              (Nat.le_refl _) Htaps) as (l' & Hevents & Hidle').
  { repeat split. }
  exists l'. split; [|split; [exact Hevents|exact Hidle']].
  unfold add_hotkey. rewrite (parse_bare_key sc Hsc). cbn [mbind Res_bind].
  unfold _HotkeyHook.__init__. rewrite bare_key_table. reflexivity.
Qed.

End HotkeyAtWork.

Lemma bare_key_hotkey_swallows_its_key_witness :
  exists l l',
    @add_hotkey sample_platform _KeyboardListener.__init__ (AVal (VInt 30))
      ROther true 1 false = inr l
    /\ @_KeyboardListener.process_events sample_platform l
         [sample_event KEY_DOWN 30 1; sample_event KEY_UP 30 2;
          sample_event KEY_DOWN 30 5; sample_event KEY_UP 30 6]
       = (l', [], [inr false; inr false; inr false; inr false])
    /\ idle_bare_key_listener 30 1 ROther l'.
Proof.
  apply (@bare_key_hotkey_swallows_its_key sample_platform 30 1 ROther
           [sample_event KEY_DOWN 30 1; sample_event KEY_UP 30 2;
            sample_event KEY_DOWN 30 5; sample_event KEY_UP 30 6]).
  - apply (bool_decide_eq_false_1 (30 ∈ @_modifier_scan_codes sample_platform)).
    vm_compute. reflexivity.
  - cbn. repeat split.
Defined.

Lemma filter_sublist_weaken {A : Type} (P Q : A -> Prop)
    `{forall x, base.Decision (P x)} `{forall x, base.Decision (Q x)}
    (l : list A) :
  (forall x, P x -> Q x) -> sublist (filter P l) (filter Q l).
Proof.
  intros HPQ. induction l as [|x l IH]; [constructor|].
  destruct (decide (P x)) as [HP|HP].
  - rewrite (filter_cons_True P) by exact HP.
    rewrite (filter_cons_True Q) by auto. now apply sublist_skip.
  - rewrite (filter_cons_False P) by exact HP.
    destruct (decide (Q x)) as [HQ|HQ].
    + rewrite (filter_cons_True Q) by exact HQ. now apply sublist_cons.
    + now rewrite (filter_cons_False Q) by exact HQ.
Qed.

Section StatelessHooks.
Context `{Platform}.

(** Stateless hooks always answer, each with a decision for the event at
    hand alone, and are left as they were. *)
Lemma run_hooks_stateless (event : Event) (physical logical mods : gset Z)
    (hooks : list Hook) :
  Forall stateless hooks ->
  exists answers,
    _KeyboardListener.run_hooks hooks event physical logical mods
    = (hooks, inr answers)
    /\ Forall (fun a => exists d, a = {[ KeyboardEvent.key event := d ]}) answers.
Proof.
  induction 1 as [|h hooks Hh _ IH]; cbn [_KeyboardListener.run_hooks].
  - exists []. split; [reflexivity|constructor].
  - destruct IH as (answers & -> & Hanswers).
    destruct h as [s|k|hk]; [| |contradiction]; cbn [Hook_process_event].
    + unfold _SimpleHook.process_event. eexists. split; [reflexivity|].
      constructor; [eauto|exact Hanswers].
    + unfold _KeyHook.process_event. destruct (bool_decide _);
        (eexists; split; [reflexivity|]; constructor; [eauto|exact Hanswers]).
Qed.

Lemma verdict_of_other_event (event other : Event) (answers : list Decisions) :
  Forall (fun a => exists d, a = {[ KeyboardEvent.key event := d ]}) answers ->
  KeyboardEvent.key other <> KeyboardEvent.key event ->
  verdict_of answers other = ALLOW.
Proof.
  intros Hanswers Hother. unfold verdict_of. apply strongest_all_allow.
  apply Forall_fmap. eapply Forall_impl; [exact Hanswers|].
  intros a [d ->]. unfold get_decision, compose.
  now rewrite lookup_singleton_ne by congruence.
Qed.

(** X27. Simple hooks and key hooks cannot hold an event beyond the next
    one: in a listener whose suppressing hooks are all of these two kinds,
    every call answers, and it replays, in the order of suspension, every
    suspended event that is not equal to the event at hand; the suspended
    events left afterwards are all equal to that event. Only a hotkey hook
    can keep events suspended across calls. *)
Theorem stateless_hooks_release_suspended_events (l : _KeyboardListener.t)
    (event : Event) :
  _KeyboardListener.is_replaying l = false ->
  Forall stateless (_KeyboardListener.suppressing_hooks l) ->
  exists l' out verdict,
    _KeyboardListener.process_sync_event l event = (l', out, inr verdict)
    /\ _KeyboardListener.suppressing_hooks l'
       = _KeyboardListener.suppressing_hooks l
    /\ Forall (fun pair => KeyboardEvent.key (fst pair) = KeyboardEvent.key event)
              (_KeyboardListener.suspended_event_pairs l')
    /\ sublist
         (replayed
            <$> filter (fun pair => KeyboardEvent.key (fst pair)
                                    <> KeyboardEvent.key event)
                       (_KeyboardListener.suspended_event_pairs l))
         out.
Proof.
  intros Hreplaying Hhooks.
  destruct (run_hooks_stateless event
              (_KeyboardListener.physically_pressed_keys
                 (_KeyboardListener.note_event l event))
              (_KeyboardListener.logically_pressed_keys
                 (_KeyboardListener.note_event l event))
              (_KeyboardListener.active_modifiers
                 (_KeyboardListener.note_event l event))
              (_KeyboardListener.suppressing_hooks
                 (_KeyboardListener.note_event l event)) Hhooks)
    as (answers & Hrun & Hanswers).
  destruct (run_sync_hooks_resolved _ _ _ _ Hrun)
    as (l5 & out & Hsync & Hpairs5 & Hsub & _ & Hhooks5 & _).
  cbn [_KeyboardListener.note_event _KeyboardListener.suspended_event_pairs
       _KeyboardListener.suppressing_hooks] in Hpairs5, Hsub, Hhooks5.
  assert (Hkept : Forall (fun pair => KeyboardEvent.key (fst pair)
                                      = KeyboardEvent.key event)
                         (_KeyboardListener.suspended_event_pairs l5)).
  { rewrite Hpairs5. apply Forall_forall. intros pair Hin.
    apply list_elem_of_filter in Hin as [Hstays _].
    destruct (decide (KeyboardEvent.key (fst pair) = KeyboardEvent.key event))
      as [Heq|Hne]; [exact Heq|].
    unfold stays_suspended in Hstays.
    rewrite (verdict_of_other_event event (fst pair) answers Hanswers Hne) in Hstays.
    discriminate. }
  assert (Hreplayed : sublist
            (replayed
               <$> filter (fun pair => KeyboardEvent.key (fst pair)
                                       <> KeyboardEvent.key event)
                          (_KeyboardListener.suspended_event_pairs l))
            out).
  { etrans; [|exact Hsub]. apply fmap_sublist, filter_sublist_weaken.
    intros pair Hne. now apply verdict_of_other_event with event. }
  unfold _KeyboardListener.process_sync_event. rewrite Hreplaying, Hsync.
  destruct (verdict_of answers event);
    eexists _, out, _; (split; [reflexivity|]); cbn; repeat split;
    try exact Hhooks5; try exact Hkept; try exact Hreplayed.
  apply Forall_app. split; [exact Hkept|]. now repeat constructor.
Qed.

End StatelessHooks.

Lemma stateless_hooks_release_suspended_events_witness :
  exists l' out verdict,
    @_KeyboardListener.process_sync_event sample_platform released_listener
      (sample_event KEY_DOWN 48 3) = (l', out, inr verdict)
    /\ _KeyboardListener.suppressing_hooks l'
       = _KeyboardListener.suppressing_hooks released_listener
    /\ Forall (fun pair => KeyboardEvent.key (fst pair)
                           = KeyboardEvent.key (sample_event KEY_DOWN 48 3))
              (_KeyboardListener.suspended_event_pairs l')
    /\ sublist
         (replayed
            <$> filter (fun pair => KeyboardEvent.key (fst pair)
                                    <> KeyboardEvent.key (sample_event KEY_DOWN 48 3))
                       (_KeyboardListener.suspended_event_pairs released_listener))
         out.
Proof.
  apply (@stateless_hooks_release_suspended_events sample_platform
           released_listener (sample_event KEY_DOWN 48 3)).
  - reflexivity.
  - repeat constructor.
Defined.

(** * The order of the hooks *)

Lemma strongest_Permutation (ds ds' : list Decision) :
  ds ≡ₚ ds' -> strongest ds = strongest ds'.
Proof.
  intros Hperm. unfold strongest.
  rewrite (bool_decide_ext (SUPPRESS ∈ ds) (SUPPRESS ∈ ds'))
    by now rewrite Hperm.
  rewrite (bool_decide_ext (SUSPEND ∈ ds) (SUSPEND ∈ ds'))
    by now rewrite Hperm.
  reflexivity.
Qed.

Lemma verdict_of_Permutation (answers answers' : list Decisions) (event : Event) :
  answers ≡ₚ answers' -> verdict_of answers event = verdict_of answers' event.
Proof.
  intros Hperm. unfold verdict_of. apply strongest_Permutation.
  now rewrite Hperm.
Qed.

Section HookOrder.
Context `{Platform}.

Lemma run_hooks_cons_inv (h : Hook) (hooks hooks' : list Hook) (event : Event)
    (physical logical mods : gset Z) (answers : list Decisions) :
  _KeyboardListener.run_hooks (h :: hooks) event physical logical mods
  = (hooks', inr answers) ->
  exists h' d calls rest' answers',
    Hook_process_event h event physical logical mods = inr (h', d, calls)
    /\ _KeyboardListener.run_hooks hooks event physical logical mods
       = (rest', inr answers')
    /\ hooks' = h' :: rest' /\ answers = d :: answers'.
Proof.
  cbn [_KeyboardListener.run_hooks].
  destruct (Hook_process_event h event physical logical mods)
    as [e|[[h' d] calls]]; [discriminate|].
  destruct (_KeyboardListener.run_hooks hooks event physical logical mods)
    as [rest' [e|answers']]; cbn; [discriminate|].
  intros [= <- <-]. eexists _, _, _, _, _. repeat split.
Qed.

Lemma run_hooks_cons (h h' : Hook) (hooks rest' : list Hook) (event : Event)
    (physical logical mods : gset Z) (d : Decisions) (calls : nat)
    (answers' : list Decisions) :
  Hook_process_event h event physical logical mods = inr (h', d, calls) ->
  _KeyboardListener.run_hooks hooks event physical logical mods
  = (rest', inr answers') ->
  _KeyboardListener.run_hooks (h :: hooks) event physical logical mods
  = (h' :: rest', inr (d :: answers')).
Proof. intros Hh Hrest. cbn [_KeyboardListener.run_hooks]. now rewrite Hh, Hrest. Qed.

(** Hooks that all answer still do so in any other order, with the same
    answers and the same hooks afterwards, up to the order. *)
Lemma run_hooks_Permutation (event : Event) (physical logical mods : gset Z)
    (hooks hooks2 : list Hook) :
  hooks ≡ₚ hooks2 ->
  forall hooks' answers,
    _KeyboardListener.run_hooks hooks event physical logical mods
    = (hooks', inr answers) ->
    exists hooks2' answers2,
      _KeyboardListener.run_hooks hooks2 event physical logical mods
      = (hooks2', inr answers2)
      /\ hooks' ≡ₚ hooks2' /\ answers ≡ₚ answers2.
Proof.
  induction 1 as [|h hooks hooks2 _ IH|h1 h2 hooks|hooks hooks2 hooks3 _ IH1 _ IH2];
    intros hooks' answers Hrun.
  - eauto.
  - apply run_hooks_cons_inv in Hrun
      as (h' & d & calls & rest' & answers' & Hh & Hrest & -> & ->).
    destruct (IH _ _ Hrest) as (rest2 & answers2 & Hrest2 & Hp1 & Hp2).
    exists (h' :: rest2), (d :: answers2).
    split; [eapply run_hooks_cons; eassumption|].
    split; now constructor.
  - apply run_hooks_cons_inv in Hrun
      as (h2' & d2 & calls2 & rest' & answers' & Hh2 & Hrest & -> & ->).
    apply run_hooks_cons_inv in Hrest
      as (h1' & d1 & calls1 & rest'' & answers'' & Hh1 & Hrest & -> & ->).
    exists (h1' :: h2' :: rest''), (d1 :: d2 :: answers'').
    split.
    + eapply run_hooks_cons; [eassumption|].
      eapply run_hooks_cons; eassumption.
    + split; apply Permutation_swap.
  - destruct (IH1 _ _ Hrun) as (hooks2' & answers2 & Hrun2 & Hp1 & Hp2).
    destruct (IH2 _ _ Hrun2) as (hooks3' & answers3 & Hrun3 & Hp3 & Hp4).
    exists hooks3', answers3. split; [exact Hrun3|].
    split; etrans; eassumption.
Qed.

(** What the replay machinery does and injects does not depend on the
    hooks the listener holds. *)
Lemma os_inject_without_hooks (l : _KeyboardListener.t) (event_type : EventType)
    (scan_code : Z) :
  (without_hooks (fst (_KeyboardListener.os_inject l event_type scan_code)),
   snd (_KeyboardListener.os_inject l event_type scan_code))
  = _KeyboardListener.os_inject (without_hooks l) event_type scan_code.
Proof. unfold _KeyboardListener.os_inject. now destruct driver_echo. Qed.

Lemma os_inject_all_without_hooks (l : _KeyboardListener.t)
    (event_type : EventType) (scan_codes : list Z) :
  (without_hooks (fst (_KeyboardListener.os_inject_all l event_type scan_codes)),
   snd (_KeyboardListener.os_inject_all l event_type scan_codes))
  = _KeyboardListener.os_inject_all (without_hooks l) event_type scan_codes.
Proof.
  unfold _KeyboardListener.os_inject_all. generalize (@nil _KeyboardListener.Output).
  revert l. induction scan_codes as [|sc scs IH]; intros l out; cbn [foldl];
    [reflexivity|].
  pose proof (os_inject_without_hooks l event_type sc) as Hone.
  destruct (_KeyboardListener.os_inject l event_type sc) as [l1 out1].
  cbn [fst snd] in Hone. rewrite <- Hone. apply IH.
Qed.

Lemma replay_without_hooks (l : _KeyboardListener.t) (temp : gset Z)
    (event : Event) (mods : gset Z) :
  let r := _KeyboardListener.replay l temp event mods in
  (without_hooks (fst (fst r)), snd (fst r), snd r)
  = _KeyboardListener.replay (without_hooks l) temp event mods.
Proof.
  unfold _KeyboardListener.replay.
  pose proof (os_inject_all_without_hooks l KEY_UP (elements (temp ∖ mods))) as H1.
  destruct (_KeyboardListener.os_inject_all l KEY_UP _) as [l1 out1].
  cbn [fst snd] in H1. rewrite <- H1.
  pose proof (os_inject_all_without_hooks l1 KEY_DOWN
                (elements (mods ∖ (temp ∩ mods)))) as H2.
  destruct (_KeyboardListener.os_inject_all l1 KEY_DOWN _) as [l2 out2].
  cbn [fst snd] in H2. rewrite <- H2.
  pose proof (os_inject_without_hooks l2 (KeyboardEvent.event_type event)
                (KeyboardEvent.scan_code event)) as H3.
  destruct (_KeyboardListener.os_inject l2 _ _) as [l3 out3].
  cbn [fst snd] in H3. rewrite <- H3. reflexivity.
Qed.

Lemma remove_pair_without_hooks (l : _KeyboardListener.t)
    (pair : Event * gset Z) :
  without_hooks <$> _KeyboardListener.remove_pair l pair
  = _KeyboardListener.remove_pair (without_hooks l) pair.
Proof.
  unfold _KeyboardListener.remove_pair.
  cbn [without_hooks _KeyboardListener.set_suppressing_hooks
       _KeyboardListener.suspended_event_pairs].
  now destruct (list_remove _ pair _).
Qed.

Lemma resolve_suspended_without_hooks (hooks_decisions : list Decisions)
    (pairs : list (Event * gset Z)) :
  forall (l : _KeyboardListener.t) (temp : gset Z)
         (out : list _KeyboardListener.Output),
    let r := _KeyboardListener.resolve_suspended hooks_decisions pairs l temp out in
    (without_hooks (fst (fst (fst r))), snd (fst (fst r)), snd (fst r), snd r)
    = _KeyboardListener.resolve_suspended hooks_decisions pairs (without_hooks l)
        temp out.
Proof.
  induction pairs as [|[se sm] rest IH]; intros l temp out;
    cbn [_KeyboardListener.resolve_suspended]; [reflexivity|].
  destruct (merged_decision hooks_decisions se) as [e|[]]; [reflexivity| | |].
  - pose proof (replay_without_hooks l temp se sm) as Hreplay.
    destruct (_KeyboardListener.replay l temp se sm) as [[l1 temp1] out1].
    cbn [fst snd] in Hreplay. rewrite <- Hreplay.
    pose proof (remove_pair_without_hooks l1 (se, sm)) as Hremove.
    destruct (_KeyboardListener.remove_pair l1 (se, sm)) as [e|l2];
      cbn [fmap Res_fmap] in Hremove; rewrite <- Hremove; [reflexivity|apply IH].
  - apply IH.
  - pose proof (remove_pair_without_hooks l (se, sm)) as Hremove.
    destruct (_KeyboardListener.remove_pair l (se, sm)) as [e|l2];
      cbn [fmap Res_fmap] in Hremove; rewrite <- Hremove; [reflexivity|apply IH].
Qed.

Lemma resolve_suspended_same_verdicts (answers answers2 : list Decisions)
    (pairs : list (Event * gset Z)) :
  (forall e, verdict_of answers e = verdict_of answers2 e) ->
  forall (l : _KeyboardListener.t) (temp : gset Z)
         (out : list _KeyboardListener.Output),
    _KeyboardListener.resolve_suspended (or_empty_dict answers) pairs l temp out
    = _KeyboardListener.resolve_suspended (or_empty_dict answers2) pairs l temp
        out.
Proof.
  intros Hsame. induction pairs as [|[se sm] rest IH]; intros l temp out;
    cbn [_KeyboardListener.resolve_suspended]; [reflexivity|].
  rewrite !merged_decision_strongest.
  fold (verdict_of answers se) (verdict_of answers2 se). rewrite (Hsame se).
  destruct (verdict_of answers2 se).
  - destruct (_KeyboardListener.replay l temp se sm) as [[l1 temp1] out1].
    destruct (_KeyboardListener.remove_pair l1 (se, sm)); [reflexivity|apply IH].
  - apply IH.
  - destruct (_KeyboardListener.remove_pair l (se, sm)); [reflexivity|apply IH].
Qed.

Lemma allow_event_without_hooks (l l2 : _KeyboardListener.t)
    (event_type : EventType) (scan_code : Z) :
  without_hooks l = without_hooks l2 ->
  without_hooks (_KeyboardListener.allow_event l event_type scan_code)
  = without_hooks (_KeyboardListener.allow_event l2 event_type scan_code).
Proof.
  unfold without_hooks, _KeyboardListener.allow_event,
    _KeyboardListener.set_logically_pressed_keys,
    _KeyboardListener.set_suppressing_hooks.
  destruct l, l2. cbn. intros [= -> -> -> -> -> -> ->]. reflexivity.
Qed.

Lemma note_event_without_hooks (l l2 : _KeyboardListener.t) (event : Event) :
  without_hooks l = without_hooks l2 ->
  without_hooks (_KeyboardListener.note_event l event)
  = without_hooks (_KeyboardListener.note_event l2 event).
Proof.
  unfold without_hooks, _KeyboardListener.note_event,
    _KeyboardListener.set_suppressing_hooks.
  destruct l, l2. cbn. intros [= -> -> -> -> -> -> ->]. reflexivity.
Qed.

(** Two listeners that differ in their hooks only, whose hooks have all
    answered with the same verdicts: [run_sync_hooks] gives the same decision
    and the same injections, and leaves them differing in their hooks
    only. *)
Lemma run_sync_hooks_same_verdicts (l l2 : _KeyboardListener.t) (event : Event)
    (hooks' hooks2' : list Hook) (answers answers2 : list Decisions) :
  _KeyboardListener.run_hooks (_KeyboardListener.suppressing_hooks l) event
    (_KeyboardListener.physically_pressed_keys l)
    (_KeyboardListener.logically_pressed_keys l)
    (_KeyboardListener.active_modifiers l) = (hooks', inr answers) ->
  _KeyboardListener.run_hooks (_KeyboardListener.suppressing_hooks l2) event
    (_KeyboardListener.physically_pressed_keys l2)
    (_KeyboardListener.logically_pressed_keys l2)
    (_KeyboardListener.active_modifiers l2) = (hooks2', inr answers2) ->
  without_hooks l = without_hooks l2 ->
  (forall e, verdict_of answers e = verdict_of answers2 e) ->
  let r := _KeyboardListener.run_sync_hooks l event in
  let r2 := _KeyboardListener.run_sync_hooks l2 event in
  without_hooks (fst (fst r)) = without_hooks (fst (fst r2))
  /\ snd (fst r) = snd (fst r2)
  /\ snd r = snd r2
  /\ _KeyboardListener.suppressing_hooks (fst (fst r)) = hooks'
  /\ _KeyboardListener.suppressing_hooks (fst (fst r2)) = hooks2'.
Proof.
  intros Hrun Hrun2 Hsame Hverdicts.
  destruct (run_sync_hooks_resolved l event hooks' answers Hrun)
    as (l5 & out5 & Hsync & _ & _ & _ & Hhooks5 & _).
  destruct (run_sync_hooks_resolved l2 event hooks2' answers2 Hrun2)
    as (l5' & out5' & Hsync2 & _ & _ & _ & Hhooks5' & _).
  assert (Hh : _KeyboardListener.suppressing_hooks
                 (fst (fst (_KeyboardListener.run_sync_hooks l event))) = hooks').
  { rewrite Hsync. cbn [fst]. now destruct (verdict_of answers event). }
  assert (Hh2 : _KeyboardListener.suppressing_hooks
                  (fst (fst (_KeyboardListener.run_sync_hooks l2 event)))
                = hooks2').
  { rewrite Hsync2. cbn [fst]. now destruct (verdict_of answers2 event). }
  cbv zeta.
  enough (Hmain :
    without_hooks (fst (fst (_KeyboardListener.run_sync_hooks l event)))
    = without_hooks (fst (fst (_KeyboardListener.run_sync_hooks l2 event)))
    /\ snd (fst (_KeyboardListener.run_sync_hooks l event))
       = snd (fst (_KeyboardListener.run_sync_hooks l2 event))
    /\ snd (_KeyboardListener.run_sync_hooks l event)
       = snd (_KeyboardListener.run_sync_hooks l2 event))
    by (destruct Hmain as (H1 & H2 & H3); repeat split; assumption).
  clear Hsync Hsync2 Hhooks5 Hhooks5' Hh Hh2 l5 l5' out5 out5'.
  unfold _KeyboardListener.run_sync_hooks. rewrite Hrun, Hrun2.
  set (l0 := _KeyboardListener.set_is_replaying
               (_KeyboardListener.set_suppressing_hooks l hooks') true).
  set (l0' := _KeyboardListener.set_is_replaying
                (_KeyboardListener.set_suppressing_hooks l2 hooks2') true).
  assert (H0 : without_hooks l0 = without_hooks l0').
  { subst l0 l0'. clear Hrun Hrun2. unfold without_hooks in *.
    destruct l, l2.
    unfold _KeyboardListener.set_suppressing_hooks,
      _KeyboardListener.set_is_replaying in *.
    cbn in *. congruence. }
  assert (Hpairs : _KeyboardListener.suspended_event_pairs l0
                   = _KeyboardListener.suspended_event_pairs l0')
    by exact (f_equal _KeyboardListener.suspended_event_pairs H0).
  assert (Hmods : _KeyboardListener.active_modifiers l0
                  = _KeyboardListener.active_modifiers l0')
    by exact (f_equal _KeyboardListener.active_modifiers H0).
  change (_KeyboardListener.suspended_event_pairs
            (_KeyboardListener.set_suppressing_hooks l hooks'))
    with (_KeyboardListener.suspended_event_pairs l0).
  change (_KeyboardListener.active_modifiers
            (_KeyboardListener.set_suppressing_hooks l hooks'))
    with (_KeyboardListener.active_modifiers l0).
  change (_KeyboardListener.suspended_event_pairs
            (_KeyboardListener.set_suppressing_hooks l2 hooks2'))
    with (_KeyboardListener.suspended_event_pairs l0').
  change (_KeyboardListener.active_modifiers
            (_KeyboardListener.set_suppressing_hooks l2 hooks2'))
    with (_KeyboardListener.active_modifiers l0').
  rewrite Hpairs, Hmods.
  rewrite (resolve_suspended_same_verdicts answers answers2 _ Hverdicts).
  pose proof (resolve_suspended_without_hooks (or_empty_dict answers2)
                (_KeyboardListener.suspended_event_pairs l0') l0
                (_KeyboardListener.active_modifiers l0') []) as R1.
  pose proof (resolve_suspended_without_hooks (or_empty_dict answers2)
                (_KeyboardListener.suspended_event_pairs l0') l0'
                (_KeyboardListener.active_modifiers l0') []) as R2.
  cbv zeta in R1, R2. rewrite H0, <- R2 in R1. clear R2.
  destruct (_KeyboardListener.resolve_suspended _ _ l0 _ _)
    as [[[la tempa] outa] ra].
  destruct (_KeyboardListener.resolve_suspended _ _ l0' _ _)
    as [[[lb tempb] outb] rb].
  cbn [fst snd] in R1.
  pose proof (f_equal (fun x => fst (fst (fst x))) R1) as Hl.
  pose proof (f_equal (fun x => snd (fst (fst x))) R1) as Htemp.
  pose proof (f_equal (fun x => snd (fst x)) R1) as Hout.
  pose proof (f_equal snd R1) as Hr.
  cbn [fst snd] in Hl, Htemp, Hout, Hr. clear R1. subst tempb outb rb.
  destruct ra as [e|[]]; [cbn [fst snd]; repeat split; exact Hl|].
  assert (Hmla : _KeyboardListener.active_modifiers la
                 = _KeyboardListener.active_modifiers lb)
    by exact (f_equal _KeyboardListener.active_modifiers Hl).
  pose proof (os_inject_all_without_hooks la KEY_DOWN
                (elements (_KeyboardListener.active_modifiers lb ∖ tempa))) as D1.
  pose proof (os_inject_all_without_hooks lb KEY_DOWN
                (elements (_KeyboardListener.active_modifiers lb ∖ tempa))) as D2.
  rewrite Hl, <- D2 in D1. clear D2. rewrite Hmla.
  destruct (_KeyboardListener.os_inject_all la KEY_DOWN _) as [l3a out3a].
  destruct (_KeyboardListener.os_inject_all lb KEY_DOWN _) as [l3b out3b].
  cbn [fst snd] in D1.
  pose proof (f_equal fst D1) as Hl3. pose proof (f_equal snd D1) as Hout3.
  cbn [fst snd] in Hl3, Hout3. clear D1. subst out3b.
  assert (Hm3 : _KeyboardListener.active_modifiers l3a
                = _KeyboardListener.active_modifiers l3b)
    by exact (f_equal _KeyboardListener.active_modifiers Hl3).
  pose proof (os_inject_all_without_hooks l3a KEY_UP
                (elements (tempa ∖ _KeyboardListener.active_modifiers l3b))) as U1.
  pose proof (os_inject_all_without_hooks l3b KEY_UP
                (elements (tempa ∖ _KeyboardListener.active_modifiers l3b))) as U2.
  rewrite Hl3, <- U2 in U1. clear U2. rewrite Hm3.
  destruct (_KeyboardListener.os_inject_all l3a KEY_UP _) as [l4a out4a].
  destruct (_KeyboardListener.os_inject_all l3b KEY_UP _) as [l4b out4b].
  cbn [fst snd] in U1.
  pose proof (f_equal fst U1) as Hl4. pose proof (f_equal snd U1) as Hout4.
  cbn [fst snd] in Hl4, Hout4. clear U1. subst out4b.
  rewrite !merged_decision_strongest.
  fold (verdict_of answers event) (verdict_of answers2 event).
  rewrite (Hverdicts event).
  clear - Hl4.
  destruct (verdict_of answers2 event); cbn [fst snd]; repeat split;
    unfold without_hooks, _KeyboardListener.set_suppressing_hooks,
      _KeyboardListener.set_is_replaying,
      _KeyboardListener.set_suspended_event_pairs in *;
    destruct l4a, l4b; cbn in *; congruence.
Qed.

(** X28. The order in which the suppressing hooks were registered does not
    matter: two listeners that hold the same hooks in different orders and
    agree on everything else give, when their hooks answer, the same verdict
    for an event and inject the same keys, and afterwards they still hold
    the same hooks and agree on everything else. *)
Theorem hook_order_does_not_matter (l l2 : _KeyboardListener.t) (event : Event)
    (answers : list Decisions) :
  without_hooks l = without_hooks l2 ->
  _KeyboardListener.suppressing_hooks l ≡ₚ _KeyboardListener.suppressing_hooks l2 ->
  hooks_answers l event = inr answers ->
  let r := _KeyboardListener.process_sync_event l event in
  let r2 := _KeyboardListener.process_sync_event l2 event in
  snd r = snd r2
  /\ snd (fst r) = snd (fst r2)
  /\ without_hooks (fst (fst r)) = without_hooks (fst (fst r2))
  /\ _KeyboardListener.suppressing_hooks (fst (fst r))
     ≡ₚ _KeyboardListener.suppressing_hooks (fst (fst r2)).
Proof.
  intros Hsame Hperm Hanswers. cbv zeta.
  unfold _KeyboardListener.process_sync_event.
  assert (Hreplaying : _KeyboardListener.is_replaying l2
                       = _KeyboardListener.is_replaying l)
    by (symmetry; exact (f_equal _KeyboardListener.is_replaying Hsame)).
  rewrite Hreplaying.
  destruct (_KeyboardListener.is_replaying l).
  - cbn [fst snd]. repeat split; [|exact Hperm].
    now apply allow_event_without_hooks.
  - unfold hooks_answers in Hanswers.
    destruct (_KeyboardListener.run_hooks _ event _ _ _) as [hooks' r] eqn:Hrun.
    cbn [snd] in Hanswers. subst r.
    assert (Hnote : without_hooks (_KeyboardListener.note_event l event)
                    = without_hooks (_KeyboardListener.note_event l2 event)).
    { now apply note_event_without_hooks. }
    assert (Hrun2 : exists hooks2' answers2,
               _KeyboardListener.run_hooks
                 (_KeyboardListener.suppressing_hooks
                    (_KeyboardListener.note_event l2 event)) event
                 (_KeyboardListener.physically_pressed_keys
                    (_KeyboardListener.note_event l2 event))
                 (_KeyboardListener.logically_pressed_keys
                    (_KeyboardListener.note_event l2 event))
                 (_KeyboardListener.active_modifiers
                    (_KeyboardListener.note_event l2 event))
               = (hooks2', inr answers2)
               /\ hooks' ≡ₚ hooks2' /\ answers ≡ₚ answers2).
    { assert (Hp : _KeyboardListener.physically_pressed_keys
                     (_KeyboardListener.note_event l2 event)
                   = _KeyboardListener.physically_pressed_keys
                       (_KeyboardListener.note_event l event))
        by (symmetry;
            exact (f_equal _KeyboardListener.physically_pressed_keys Hnote)).
      assert (Hlog : _KeyboardListener.logically_pressed_keys
                       (_KeyboardListener.note_event l2 event)
                     = _KeyboardListener.logically_pressed_keys
                         (_KeyboardListener.note_event l event))
        by (symmetry;
            exact (f_equal _KeyboardListener.logically_pressed_keys Hnote)).
      assert (Hm : _KeyboardListener.active_modifiers
                     (_KeyboardListener.note_event l2 event)
                   = _KeyboardListener.active_modifiers
                       (_KeyboardListener.note_event l event))
        by (symmetry; exact (f_equal _KeyboardListener.active_modifiers Hnote)).
      rewrite Hp, Hlog, Hm.
      eapply run_hooks_Permutation; [|exact Hrun]. exact Hperm. }
    destruct Hrun2 as (hooks2' & answers2 & Hrun2 & Hhooks & Hans).
    pose proof (run_sync_hooks_same_verdicts _ _ event _ _ _ _ Hrun Hrun2 Hnote
                  (fun e => verdict_of_Permutation _ _ e Hans))
      as (Hl & Hout & Hr & Hh & Hh2).
    destruct (_KeyboardListener.run_sync_hooks
                (_KeyboardListener.note_event l event) event)
      as [[la outa] ra].
    destruct (_KeyboardListener.run_sync_hooks
                (_KeyboardListener.note_event l2 event) event)
      as [[lb outb] rb].
    cbn [fst snd] in Hl, Hout, Hr, Hh, Hh2. subst outb rb.
    destruct ra as [e|[]]; cbn [fst snd]; repeat split;
      cbn [_KeyboardListener.allow_event _KeyboardListener.suppressing_hooks
           _KeyboardListener.set_logically_pressed_keys];
      rewrite ?Hh, ?Hh2; try exact Hhooks; try exact Hl.
    now apply allow_event_without_hooks.
Qed.

End HookOrder.

Lemma hook_order_does_not_matter_witness :
  let r := @_KeyboardListener.process_sync_event sample_platform
             two_hooks_listener (sample_event KEY_DOWN 48 2) in
  let r2 := @_KeyboardListener.process_sync_event sample_platform
              two_hooks_listener_swapped (sample_event KEY_DOWN 48 2) in
  snd r = snd r2
  /\ snd (fst r) = snd (fst r2)
  /\ without_hooks (fst (fst r)) = without_hooks (fst (fst r2))
  /\ _KeyboardListener.suppressing_hooks (fst (fst r))
     ≡ₚ _KeyboardListener.suppressing_hooks (fst (fst r2)).
Proof.
  apply (@hook_order_does_not_matter sample_platform two_hooks_listener
           two_hooks_listener_swapped (sample_event KEY_DOWN 48 2)
           [{[ KeyboardEvent.key (sample_event KEY_DOWN 48 2) := ALLOW ]};
            {[ KeyboardEvent.key (sample_event KEY_DOWN 48 2) := SUPPRESS ]}]).
  - reflexivity.
  - apply Permutation_swap.
  - reflexivity.
Defined.
